(** * cli-agent-bot: the interactive session orchestration engine

    A shallow embedding of the output parser and the conversion of a
    reply into an option ([adapter/claude/output-parser.ts]), the output
    buffer ([session/output-buffer.ts]), the adapters, the filter on
    their output and the session ([adapter/*/adapter.ts],
    [session/session.ts]), the session manager ([session/manager.ts])
    and the message history ([core/message-history.ts]), followed by the
    properties established about them.

    Conventions of the embedding:
    - a string of the program is the list of its UTF-16 code units, of any
      length (the engine's limit on the length of a string is not
      modelled);
    - a number that the code only uses as an integer (sizes, counts, exit
      codes, epoch milliseconds) is a [Z];
    - [new Date()] and [Date.now()] read a clock that is passed in;
    - a method that assigns to fields of [this] is a function from the old
      object to the new one; a method that can throw returns a [result]
      next to the new object; the events it emits are returned as a list;
    - an [async] method is one step. What the environment does while the
      method waits (whether the spawned process survives the warm-up of
      [start], whether the process exits while [close] waits for the
      adapter) is an argument of the step; output that arrives during
      such a wait is not modelled. The maps of the manager are only
      assigned in stretches of code without [await], so the states of
      those maps are the same when calls interleave at their awaits;
    - [closeAll] starts all its closes before it awaits any: its events
      are given in the order in which the promise jobs and the timers of
      Node.js run them. *)

From Stdlib Require Import ZArith NArith List Bool Lia String Ascii DecimalString.
From Stdlib Require Import Permutation.
Import ListNotations.
Local Open Scope Z_scope.

(* ================================================================== *)
(** * Part I. The embedding *)
(* ================================================================== *)

(** ** JavaScript strings *)

Module JS.

Definition char16 := N.
Definition jsstring := list char16.

Definition bytes_of (s : string) : list N :=
  List.map N_of_ascii (list_ascii_of_string s).

(** Code units of one code point (a surrogate pair above the BMP). *)
Definition units_of_code_point (cp : N) : list char16 :=
  if (cp <? 65536)%N then [cp]
  else let v := (cp - 65536)%N in
       [(55296 + v / 1024)%N; (56320 + v mod 1024)%N].

(** The literals of this file are written in UTF-8, the program sees
    UTF-16: [utf8_units] decodes the former into the latter. *)
Fixpoint utf8_units (bs : list N) : jsstring :=
  match bs with
  | [] => []
  | b0 :: r0 =>
    if (b0 <? 128)%N then b0 :: utf8_units r0
    else if (b0 <? 224)%N then
      match r0 with
      | b1 :: r1 =>
        units_of_code_point ((b0 mod 32) * 64 + b1 mod 64)%N ++ utf8_units r1
      | [] => []
      end
    else if (b0 <? 240)%N then
      match r0 with
      | b1 :: b2 :: r2 =>
        units_of_code_point ((b0 mod 16) * 4096 + (b1 mod 64) * 64 + b2 mod 64)%N
          ++ utf8_units r2
      | _ => []
      end
    else
      match r0 with
      | b1 :: b2 :: b3 :: r3 =>
        units_of_code_point
          ((b0 mod 8) * 262144 + (b1 mod 64) * 4096 + (b2 mod 64) * 64 + b3 mod 64)%N
          ++ utf8_units r3
      | _ => []
      end
  end.

Definition js (s : string) : jsstring := utf8_units (bytes_of s).

(** [a === b] *)
Fixpoint eqb (a b : jsstring) : bool :=
  match a, b with
  | [], [] => true
  | x :: a', y :: b' => (x =? y)%N && eqb a' b'
  | _, _ => false
  end.

Definition length (s : jsstring) : Z := Z.of_nat (List.length s).

(** [\s], which is also what [trim] strips: WhiteSpace and LineTerminator
    of the language specification. *)
Definition isSpace (c : char16) : bool :=
  ((9 <=? c) && (c <=? 13) || (c =? 32) || (c =? 160) || (c =? 5760)
   || (8192 <=? c) && (c <=? 8202) || (c =? 8232) || (c =? 8233)
   || (c =? 8239) || (c =? 8287) || (c =? 12288) || (c =? 65279))%N.

(** [\d] *)
Definition isDigit (c : char16) : bool := ((48 <=? c) && (c <=? 57))%N.

(** [.] without the [s] flag: anything but a line terminator. *)
Definition isDot (c : char16) : bool :=
  negb ((c =? 10) || (c =? 13) || (c =? 8232) || (c =? 8233))%N.

Fixpoint trimStart (s : jsstring) : jsstring :=
  match s with
  | c :: r => if isSpace c then trimStart r else s
  | [] => []
  end.

Definition trimEnd (s : jsstring) : jsstring := rev (trimStart (rev s)).

Definition trim (s : jsstring) : jsstring := trimEnd (trimStart s).

(** [s.split('\n')] *)
Fixpoint split_nl (s : jsstring) : list jsstring :=
  match s with
  | [] => [[]]
  | c :: r =>
    if (c =? 10)%N then [] :: split_nl r
    else match split_nl r with
         | l :: ls => (c :: l) :: ls
         | [] => [[c]]
         end
  end.

(** [c.repeat(n)] for a one-character string [c]. *)
Definition repeat1 (c : char16) (n : Z) : jsstring := repeat c (Z.to_nat n).

(** [String(n)] and [`${n}`] for an integer [n]. *)
Definition ofZ (n : Z) : jsstring :=
  bytes_of (DecimalString.NilZero.string_of_int (Z.to_int n)).

(** [parseInt(s, 10)] on a string of decimal digits. *)
Definition parseDigits (s : jsstring) : Z :=
  fold_left (fun acc c => 10 * acc + (Z.of_N c - 48)) s 0.

(** [s.startsWith(p)] *)
Fixpoint startsWith (s p : jsstring) : bool :=
  match p, s with
  | [], _ => true
  | _ :: _, [] => false
  | x :: p', y :: s' => (x =? y)%N && startsWith s' p'
  end.

(** A string is truthy when it is not empty. *)
Definition truthy (s : jsstring) : bool :=
  match s with [] => false | _ => true end.

End JS.

Definition jsstring := JS.jsstring.
Definition js := JS.js.


(** ** Regular expressions

    The subset of the language's regular expressions that the parser
    uses, with the backtracking semantics of the language: alternatives
    are tried left to right, [*] is greedy, an iteration of [*] that
    consumes nothing is rejected, and a search returns the leftmost match.
    With the [i] flag two characters match when they agree after ASCII
    upper-casing; every letter of the patterns below is ASCII, for which
    this is what the language's canonicalisation gives. *)

Module Regex.
Import JS.

Inductive re :=
| Empty
| Chr (c : char16)
| Class (p : char16 -> bool)
| Seq (r1 r2 : re)
| Alt (r1 r2 : re)
| Star (r : re)
| Group (n : nat) (r : re)
| Bol
| Eol.

Definition isLineTerminator (c : char16) : bool := negb (isDot c).

Definition upper (c : char16) : char16 :=
  if ((97 <=? c) && (c <=? 122))%N then (c - 32)%N else c.

Definition captures := list (nat * jsstring).

Section Matcher.
(** The flags [i] and [m]. *)
Variables (ignoreCase multiline : bool).
Context {A : Type}.

Definition sameChar (c x : char16) : bool :=
  if ignoreCase then (upper c =? upper x)%N else (c =? x)%N.

(** [m r before after caps k]: match [r] at the position that has
    [before] (reversed) to its left and [after] to its right, then
    continue with [k]; [None] makes the caller backtrack. *)
Fixpoint m (r : re) (before after : jsstring) (caps : captures)
         (k : jsstring -> jsstring -> captures -> option A) : option A :=
  match r with
  | Empty => k before after caps
  | Chr c =>
    match after with
    | x :: a => if sameChar c x then k (x :: before) a caps else None
    | [] => None
    end
  | Class p =>
    match after with
    | x :: a => if p x then k (x :: before) a caps else None
    | [] => None
    end
  | Seq r1 r2 =>
    m r1 before after caps (fun b a c => m r2 b a c k)
  | Alt r1 r2 =>
    match m r1 before after caps k with
    | Some x => Some x
    | None => m r2 before after caps k
    end
  | Star r1 =>
    (fix loop (fuel : nat) (before after : jsstring) (caps : captures)
       {struct fuel} : option A :=
       match fuel with
       | O => k before after caps
       | S fuel' =>
         match m r1 before after caps
                 (fun b a c =>
                    if (List.length a <? List.length after)%nat
                    then loop fuel' b a c else None)
         with
         | Some x => Some x
         | None => k before after caps
         end
       end) (List.length after) before after caps
  | Group n r1 =>
    m r1 before after caps
      (fun b a c =>
         k b a ((n, firstn (List.length after - List.length a) after) :: c))
  | Bol =>
    match before with
    | [] => k before after caps
    | x :: _ =>
      if multiline && isLineTerminator x then k before after caps else None
    end
  | Eol =>
    match after with
    | [] => k before after caps
    | x :: _ =>
      if multiline && isLineTerminator x then k before after caps else None
    end
  end.
End Matcher.

Record flags := { ignoreCase : bool; multiline : bool }.
Definition noFlags := {| ignoreCase := false; multiline := false |}.
Definition flag_i := {| ignoreCase := true; multiline := false |}.
Definition flag_m := {| ignoreCase := false; multiline := true |}.

(** One attempt at the current position: the text after the match and
    the captures, group 0 being the whole match. *)
Definition matchHere (f : flags) (r : re) (before after : jsstring)
  : option (jsstring * jsstring * captures) :=
  m (ignoreCase f) (multiline f) r before after []
    (fun b a c =>
       Some (b, a, (0%nat, firstn (List.length after - List.length a) after) :: c)).

(** [r.exec(s)] of a regular expression without the [g] flag: the
    leftmost position where an attempt succeeds. *)
Fixpoint search (f : flags) (r : re) (before after : jsstring)
  : option captures :=
  match matchHere f r before after with
  | Some (_, _, c) => Some c
  | None =>
    match after with
    | [] => None
    | x :: a => search f r (x :: before) a
    end
  end.

(** [s.match(r)] *)
Definition exec (f : flags) (r : re) (s : jsstring) : option captures :=
  search f r [] s.

(** [r.test(s)] *)
Definition test (f : flags) (r : re) (s : jsstring) : bool :=
  match exec f r s with Some _ => true | None => false end.

(** [match[n]] of a successful match. *)
Fixpoint group (n : nat) (c : captures) : jsstring :=
  match c with
  | [] => []
  | (k, s) :: c' => if Nat.eqb k n then s else group n c'
  end.

(** [s.replace(r, callback)] with the [g] flag; the callback may keep a
    state of its own, threaded here as [st]. *)
Fixpoint replaceWith {St : Type} (f : flags) (r : re)
         (cb : St -> captures -> jsstring * St) (fuel : nat)
         (before after : jsstring) (st : St) : jsstring :=
  match fuel with
  | O => after
  | S fuel' =>
    match matchHere f r before after with
    | Some (b, a, c) =>
      let '(rep, st') := cb st c in
      if (List.length a <? List.length after)%nat
      then rep ++ replaceWith f r cb fuel' b a st'
      else match after with
           | [] => rep
           | x :: a' => rep ++ x :: replaceWith f r cb fuel' (x :: before) a' st'
           end
    | None =>
      match after with
      | [] => []
      | x :: a' => x :: replaceWith f r cb fuel' (x :: before) a' st
      end
    end
  end.

Definition replaceAll {St : Type} (f : flags) (r : re)
           (cb : St -> captures -> jsstring * St) (s : jsstring) (st : St)
  : jsstring :=
  replaceWith f r cb (S (List.length s)) [] s st.

(** [s.replace(r, '')] with the [g] flag. *)
Definition remove (r : re) (s : jsstring) : jsstring :=
  replaceAll noFlags r (fun (st : unit) _ => ([], st)) s tt.

(** Pattern syntax. *)
Definition lit (s : string) : re :=
  fold_right (fun c r => Seq (Chr c) r) Empty (js s).
Definition alts (l : list re) : re :=
  match l with
  | [] => Empty
  | r :: rs => fold_left Alt rs r
  end.
Definition seqs (l : list re) : re := fold_right Seq Empty l.
Definition plus (r : re) : re := Seq r (Star r).
Definition opt (r : re) : re := Alt r Empty.
Definition oneOf (s : string) : re :=
  Class (fun c => existsb (N.eqb c) (js s)).
Definition noneOf (cs : list char16) : re :=
  Class (fun c => negb (existsb (N.eqb c) cs)).
Definition between (lo hi c : char16) : bool := ((lo <=? c) && (c <=? hi))%N.
Definition isLetter (c : char16) : bool :=
  (between 97 122 c || between 65 90 c)%N.
Definition space : re := Class isSpace.
Definition digit : re := Class isDigit.
Definition dot : re := Class isDot.
Definition ESC : re := Chr 27%N.

End Regex.

(** ** core/types.ts *)

Module SessionStatus.
Inductive t := IDLE | PROCESSING | WAITING_CONFIRM | ERROR.
End SessionStatus.

Module OutputType.
Inductive t := NORMAL | CONFIRM | ERROR | SYSTEM.
End OutputType.

Record OutputBlock := mkBlock {
  type : OutputType.t;
  content : jsstring;
  timestamp : Z;
  requiresConfirm : option bool;
  confirmOptions : option (list jsstring);
  confirmId : option jsstring
}.

(** ** adapter/claude/output-parser.ts *)

Module OutputParser.
Import JS Regex.

Record InteractiveSelect := mkSelect {
  id : jsstring;
  prompt : jsstring;
  options : list jsstring;
  selectedIndex : Z
}.

Definition nl : jsstring := [10%N].
Definition dquote : jsstring := [34%N].

(** [ERROR_PATTERNS] *)
Definition ERROR_PATTERNS : list (flags * re) :=
  [ (flag_m, Seq Bol (lit "Error:"));
    (flag_m, Seq Bol (lit "ERROR:"));
    (flag_i, lit "Failed to:");
    (flag_i, lit "Exception:");
    (flag_i, lit "command not found");
    (flag_i, lit "permission denied") ].

(** *** stripAnsi *)

(** [/\x1b\[(\d+);(\d+)(H|f)/g] *)
Definition cursorPosition : re :=
  seqs [ESC; lit "["; Group 1 (plus digit); lit ";"; Group 2 (plus digit);
        Group 3 (Alt (lit "H") (lit "f"))].

(** The callback of the first [replace]; [currentLine] is the variable
    it closes over. *)
Definition onCursorPosition (currentLine : Z) (c : captures) : jsstring * Z :=
  let newRow := parseDigits (group 1 c) in
  let newCol := parseDigits (group 2 c) in
  if newRow >? currentLine then
    let lineBreaks := repeat1 10%N (newRow - currentLine) in
    let indent := if newCol >? 1 then repeat1 32%N (newCol - 1) else [] in
    (lineBreaks ++ indent, newRow)
  else if (newRow =? currentLine) && (newCol >? 1) then
    (repeat1 32%N (newCol - 1), currentLine)
  else ([], currentLine).

(** [/\x1b\[(\d+)C/g], [/\x1b\[(\d+)@/g] and [/\x1b\[(\d+)B/g] *)
Definition cursorCount (final : string) : re :=
  seqs [ESC; lit "["; Group 1 (plus digit); lit final].

Definition onCount (c : char16) (st : unit) (caps : captures) : jsstring * unit :=
  (repeat1 c (parseDigits (group 1 caps)), st).

(** The array [ansiRegex], in its order. *)
Definition ansiRegex : list re :=
  [ (* /\x1b\[[0-9;?]*[a-zA-Z]/g *)
    seqs [ESC; lit "["; Star (oneOf "0123456789;?"); Class isLetter];
    (* /\x1b\][^\x07]*\x07/g *)
    seqs [ESC; lit "]"; Star (noneOf [7%N]); Chr 7%N];
    (* /\x1b\][^\x1b]*(?:\x1b\\)?/g *)
    seqs [ESC; lit "]"; Star (noneOf [27%N]); opt (Seq ESC (lit "\"))];
    (* /\x1b[()][A-Za-z0-9]/g *)
    seqs [ESC; oneOf "()"; Class (fun c => isLetter c || isDigit c)];
    (* /\x1b[)[\]A-Za-z]/g *)
    seqs [ESC; Class (fun c => existsb (N.eqb c) (js ")[]") || isLetter c)];
    (* /\x1b]8;;[^\x1b]*\x1b\\/g *)
    seqs [ESC; lit "]8;;"; Star (noneOf [27%N]); ESC; lit "\"];
    (* /\x1b\[[\d;]*m/g *)
    seqs [ESC; lit "["; Star (Class (fun c => isDigit c || (c =? 59)%N)); lit "m"] ].

(** [/[\x00-\x08\x0b\x0c\x0e-\x1f]/g] *)
Definition controlChar : re :=
  Class (fun c => (between 0 8 c || (c =? 11) || (c =? 12) || between 14 31 c)%N).

Definition stripAnsi (text : jsstring) : jsstring :=
  let result := replaceAll noFlags cursorPosition onCursorPosition text 0 in
  let result := replaceAll noFlags (cursorCount "C") (onCount 32%N) result tt in
  let result := replaceAll noFlags (cursorCount "@") (onCount 32%N) result tt in
  let result := replaceAll noFlags (cursorCount "B") (onCount 10%N) result tt in
  let result := fold_left (fun acc regex => remove regex acc) ansiRegex result in
  remove controlChar result.

(** *** detectInteractiveSelect *)

(** [/don't ask|ctrl\+t|shift\+tab|tab to cycle/i] *)
Definition inputSuggestion : re :=
  alts [lit "don't ask"; lit "ctrl+t"; lit "shift+tab"; lit "tab to cycle"].

Definition isInputSuggestion (cleanData : jsstring) : bool :=
  test flag_i inputSuggestion cleanData.

Definition hasConfirmHint (cleanData : jsstring) : bool :=
  (* /Enter to confirm|Press Enter|to confirm/i *)
  test flag_i (alts [lit "Enter to confirm"; lit "Press Enter"; lit "to confirm"])
       cleanData
  (* /Esc to cancel|to cancel/i *)
  || test flag_i (alts [lit "Esc to cancel"; lit "to cancel"]) cleanData
  (* /use (arrow |↑↓ )?keys/i *)
  || test flag_i (seqs [lit "use "; opt (Group 1 (Alt (lit "arrow ") (lit "↑↓ ")));
                        lit "keys"]) cleanData
  (* /Press .* to select/i *)
  || test flag_i (seqs [lit "Press "; Star dot; lit " to select"]) cleanData.

(** [/^\s*[❯►→>]\s*(.+)$/] *)
Definition arrowPattern : re :=
  seqs [Bol; Star space; oneOf "❯►→>"; Star space; Group 1 (plus dot); Eol].

(** [/^\s*(\d+)[.)\]]\s*(.+)$/] *)
Definition numberedPattern : re :=
  seqs [Bol; Star space; Group 1 (plus digit); oneOf ".)]"; Star space;
        Group 2 (plus dot); Eol].

(** [/^(\d+)\.\s*(.+)$/] *)
Definition numberPrefix : re :=
  seqs [Bol; Group 1 (plus digit); lit "."; Star space; Group 2 (plus dot); Eol].

(** [/^\s{2,}/] *)
Definition indented : re := seqs [Bol; space; space; Star space].

(** [/Enter to confirm|Esc to cancel/i] *)
Definition hintLine : re := alts [lit "Enter to confirm"; lit "Esc to cancel"].

(** [/yes|no|confirm|cancel|proceed|abort|continue|exit/i] *)
Definition confirmKeyword : re :=
  alts [lit "yes"; lit "no"; lit "confirm"; lit "cancel"; lit "proceed";
        lit "abort"; lit "continue"; lit "exit"].

Definition matches (r : re) (s : jsstring) : bool := test noFlags r s.

(** The variables of the scan over the lines. *)
Record scan := mkScan {
  scanOptions : list jsstring;
  scanSelected : Z;
  promptText : jsstring;
  foundInteractive : bool;
  foundArrow : bool
}.

Definition scanStart : scan :=
  {| scanOptions := []; scanSelected := 0; promptText := [];
     foundInteractive := false; foundArrow := false |}.

(** The inner loop [for (j = i - 1; j >= 0; j--)]: the nearest preceding
    line that is not blank and is not itself an option. [prev] holds the
    preceding lines, nearest first. *)
Fixpoint findPrompt (prev : list jsstring) : jsstring :=
  match prev with
  | [] => []
  | l :: rest =>
    let prevLine := trim l in
    if truthy prevLine && negb (matches arrowPattern prevLine)
       && negb (matches numberedPattern prevLine)
    then prevLine
    else findPrompt rest
  end.

Definition pushOption (st : scan) (o : jsstring) : scan :=
  {| scanOptions := scanOptions st ++ [o]; scanSelected := scanSelected st;
     promptText := promptText st; foundInteractive := foundInteractive st;
     foundArrow := foundArrow st |}.

(** One iteration of the loop over [lines], at the line [line] = [lines[i]]. *)
Definition scanLine (hint : bool) (prev : list jsstring) (line : jsstring)
           (st : scan) : scan :=
  let cleanLine := trim line in
  if negb (truthy cleanLine) then st else
  match exec noFlags arrowPattern cleanLine with
  | Some arrowMatch =>
    let optionText := trim (group 1 arrowMatch) in
    let optionText :=
      match exec noFlags numberPrefix optionText with
      | Some numMatch => trim (group 2 numMatch)
      | None => optionText
      end in
    let opts := scanOptions st ++ [optionText] in
    {| scanOptions := opts;
       scanSelected := Z.of_nat (List.length opts) - 1;
       promptText := if truthy (promptText st) then promptText st
                     else findPrompt prev;
       foundInteractive := true;
       foundArrow := true |}
  | None =>
    let afterArrow :=
      if foundArrow st then
        match exec noFlags numberedPattern cleanLine with
        | Some numberedMatch =>
          Some (pushOption st (trim (group 2 numberedMatch)))
        | None =>
          if matches indented line
             && (truthy cleanLine && negb (test flag_i hintLine cleanLine))
          then Some (pushOption st cleanLine)
          else None
        end
      else None in
    match afterArrow with
    | Some st' => st'
    | None =>
      if hint && negb (foundArrow st) then
        match exec noFlags numberedPattern cleanLine with
        | Some numberedMatch =>
          let st' := pushOption st (trim (group 2 numberedMatch)) in
          {| scanOptions := scanOptions st'; scanSelected := scanSelected st';
             promptText := promptText st'; foundInteractive := true;
             foundArrow := foundArrow st' |}
        | None => st
        end
      else st
    end
  end.

(** The loop [for (i = 0; i < lines.length; i++)]. *)
Fixpoint scanLines (hint : bool) (prev lines : list jsstring) (st : scan)
  : scan :=
  match lines with
  | [] => st
  | line :: rest => scanLines hint (line :: prev) rest (scanLine hint prev line st)
  end.

Definition hasConfirmKeywords (opts : list jsstring) : bool :=
  existsb (test flag_i confirmKeyword) opts.

Definition detectInteractiveSelect (data : jsstring) (now : Z)
  : option InteractiveSelect :=
  let cleanData := stripAnsi data in
  let lines := split_nl cleanData in
  if isInputSuggestion cleanData then None else
  let hint := hasConfirmHint cleanData in
  let st := scanLines hint [] lines scanStart in
  if (2 <=? Z.of_nat (List.length (scanOptions st)))
     && (hint || hasConfirmKeywords (scanOptions st))
  then Some {| id := js "interactive_" ++ ofZ now;
               prompt := if truthy (promptText st) then promptText st
                         else js "请选择一个选项";
               options := scanOptions st;
               selectedIndex := scanSelected st |}
  else None.

(** *** formatInteractiveSelect *)

Definition rule : jsstring := js "━━━━━━━━━━━━━━━━━━━━━━━━━━━━━━".

Fixpoint formatOptions (selected : Z) (index : Z) (opts : list jsstring)
  : jsstring :=
  match opts with
  | [] => []
  | option :: rest =>
    let marker := if index =? selected then js "▶ " else js "   " in
    marker ++ ofZ (index + 1) ++ js ". " ++ option ++ nl
      ++ formatOptions selected (index + 1) rest
  end.

Definition formatInteractiveSelect (select : InteractiveSelect) : jsstring :=
  rule ++ nl
  ++ js "📋 " ++ prompt select ++ nl
  ++ rule ++ nl ++ nl
  ++ js "请回复选项编号（1-" ++ ofZ (Z.of_nat (List.length (options select)))
  ++ js "）或选项内容：" ++ nl ++ nl
  ++ formatOptions (selectedIndex select) 0 (options select)
  ++ nl ++ js "💡 提示：直接发送数字（如 " ++ dquote ++ js "1" ++ dquote
  ++ js "）或选项内容即可选择".

(** *** detectConfirmPrompt *)

(** The loop [for (i = start; i <= end; i++) options.push(String(i))]. *)
Definition rangeOptions (start end_ : Z) : list jsstring :=
  List.map (fun k => ofZ (start + Z.of_nat k))
           (seq 0 (Z.to_nat (end_ - start + 1))).

Definition detectConfirmPrompt (data : jsstring) (now : Z)
  : option (list jsstring * jsstring) :=
  let cleanData := stripAnsi data in
  let id := js "confirm_" ++ ofZ now in
  (* /\[(Y\/N|y\/n)\]/i *)
  if test flag_i (seqs [lit "["; Group 1 (Alt (lit "Y/N") (lit "y/n")); lit "]"])
          cleanData
  then Some ([js "Y"; js "N"], id)
  (* /\[(Yes\/No|yes\/no)\]/i *)
  else if test flag_i
            (seqs [lit "["; Group 1 (Alt (lit "Yes/No") (lit "yes/no")); lit "]"])
            cleanData
  then Some ([js "Yes"; js "No"], id)
  else
  (* /\[(\d+)-(\d+)\]/ *)
  match exec noFlags
          (seqs [lit "["; Group 1 (plus digit); lit "-"; Group 2 (plus digit);
                 lit "]"]) cleanData with
  | Some rangeMatch =>
    let start := parseDigits (group 1 rangeMatch) in
    let end_ := parseDigits (group 2 rangeMatch) in
    Some (rangeOptions start end_, id)
  | None =>
    (* /\[(Continue|Cancel)\]/i *)
    if test flag_i
         (seqs [lit "["; Group 1 (Alt (lit "Continue") (lit "Cancel")); lit "]"])
         cleanData
    then Some ([js "Continue"; js "Cancel"], id)
    (* /\[(Proceed|Abort)\]/i *)
    else if test flag_i
              (seqs [lit "["; Group 1 (Alt (lit "Proceed") (lit "Abort")); lit "]"])
              cleanData
    then Some ([js "Proceed"; js "Abort"], id)
    else None
  end.

(** *** detectError, createBlock, parse *)

Definition detectError (data : jsstring) : bool :=
  let cleanData := stripAnsi data in
  existsb (fun '(f, pattern) => test f pattern cleanData) ERROR_PATTERNS.

Definition createBlock (ty : OutputType.t) (c : jsstring) (stamp : Z)
           (extra : option (list jsstring * jsstring)) : OutputBlock :=
  {| type := ty;
     content := trim c;
     timestamp := stamp;
     requiresConfirm := match extra with Some _ => Some true | None => None end;
     confirmOptions := option_map fst extra;
     confirmId := option_map snd extra |}.

(** [parse(data)]. [now] is what [Date.now()] returns to the detector
    that names the confirmation, [stamp] what [new Date()] returns to
    [createBlock]. *)
Definition parse (data : jsstring) (now stamp : Z) : list OutputBlock :=
  match detectInteractiveSelect data now with
  | Some interactiveSelect =>
    [createBlock OutputType.CONFIRM (formatInteractiveSelect interactiveSelect) stamp
                 (Some (options interactiveSelect, id interactiveSelect))]
  | None =>
    match detectConfirmPrompt data now with
    | Some confirmMatch =>
      [createBlock OutputType.CONFIRM (trim (stripAnsi data)) stamp (Some confirmMatch)]
    | None =>
      let isErrorCode := detectError data in
      let cleanContent := trim (stripAnsi data) in
      if truthy cleanContent
      then [createBlock (if isErrorCode then OutputType.ERROR else OutputType.NORMAL)
                        cleanContent stamp None]
      else []
    end
  end.

End OutputParser.

(** *** convertToInteractiveResponse *)

Module InteractiveResponse.
Import JS.

(** The longest prefix of decimal digits. *)
Fixpoint digitsPrefix (s : jsstring) : jsstring :=
  match s with
  | c :: r => if isDigit c then c :: digitsPrefix r else []
  | [] => []
  end.

(** [parseInt(s, 10)]: leading white space is skipped, one sign is read,
    then the longest prefix of digits; [None] stands for NaN. The result
    is only compared with the number of options, at most 2^32, and used
    as an index when it is in that range, so the exact integer stands
    for the floating-point number. *)
Definition parseInt (s : jsstring) : option Z :=
  let s := trimStart s in
  let '(sign, s) :=
    match s with
    | c :: r =>
      if (c =? 45)%N then (-1, r)
      else if (c =? 43)%N then (1, r)
      else (1, s)
    | [] => (1, s)
    end in
  match digitsPrefix s with
  | [] => None
  | ds => Some (sign * parseDigits ds)
  end.

(** [s.includes(p)] *)
Fixpoint includes (s p : jsstring) : bool :=
  startsWith s p
  || match s with
     | [] => false
     | _ :: r => includes r p
     end.

Section Convert.
(** [String.prototype.toLowerCase] *)
Variable toLowerCase : jsstring -> jsstring.

(** [convertToInteractiveResponse(userInput, options)]; [None] for the
    argument is [undefined], [None] as result is [null]. *)
Definition convertToInteractiveResponse (userInput : jsstring)
           (options : option (list jsstring)) : option jsstring :=
  match options with
  | None | Some [] => Some userInput
  | Some opts =>
    let input := trim userInput in
    let byText :=
      let lowerInput := toLowerCase input in
      match find (fun option => eqb (toLowerCase option) lowerInput) opts with
      | Some option => Some option
      | None =>
        find (fun option =>
                let lowerOption := toLowerCase option in
                includes lowerOption lowerInput || includes lowerInput lowerOption)
             opts
      end in
    match parseInt input with
    | Some num =>
      if (num >=? 1) && (num <=? Z.of_nat (List.length opts))
      then nth_error opts (Z.to_nat (num - 1))
      else byText
    | None => byText
    end
  end.
End Convert.

End InteractiveResponse.

(** ** session/output-buffer.ts *)

Module OutputBuffer.

Record t := mk {
  buffer : list OutputBlock;
  totalSize : Z;
  maxSize : Z
}.

(** [new OutputBuffer({ maxSize })] *)
Definition new (maxSize : Z) : t :=
  {| buffer := []; totalSize := 0; maxSize := maxSize |}.

(** [(block.content?.length || 0) + 100] *)
Definition estimateSize (block : OutputBlock) : Z :=
  JS.length (content block) + 100.

(** The [while] loop of [append]: as long as the block does not fit and
    the buffer is not empty, [shift] the oldest block off the front. *)
Fixpoint evict (blockSize maxSize : Z) (buf : list OutputBlock) (total : Z)
  : list OutputBlock * Z :=
  match buf with
  | [] => ([], total)
  | removed :: rest =>
    if total + blockSize >? maxSize
    then evict blockSize maxSize rest (total - estimateSize removed)
    else (buf, total)
  end.

Definition append (b : t) (block : OutputBlock) : t :=
  let blockSize := estimateSize block in
  let '(buf, total) := evict blockSize (maxSize b) (buffer b) (totalSize b) in
  {| buffer := buf ++ [block];
     totalSize := total + blockSize;
     maxSize := maxSize b |}.

Definition getAll (b : t) : list OutputBlock := buffer b.

Definition fetchAndClear (b : t) : list OutputBlock * t :=
  (buffer b, {| buffer := []; totalSize := 0; maxSize := maxSize b |}).

(** [slice(-n)] keeps the last [n] blocks; [slice(-0)] is [slice(0)], the
    whole array, and a negative [n] counts from the front. *)
Definition getLast (b : t) (n : Z) : list OutputBlock :=
  let len := Z.of_nat (List.length (buffer b)) in
  if n >=? len then buffer b
  else if n =? 0 then buffer b
  else if n <? 0 then skipn (Z.to_nat (Z.min (- n) len)) (buffer b)
  else skipn (Z.to_nat (len - n)) (buffer b).

Definition clear (b : t) : t :=
  {| buffer := []; totalSize := 0; maxSize := maxSize b |}.

Definition getSize (b : t) : Z := totalSize b.
Definition getLength (b : t) : Z := Z.of_nat (List.length (buffer b)).
Definition isEmpty (b : t) : bool :=
  match buffer b with [] => true | _ => false end.

(** The operations a client can apply to a buffer, and a run of them
    from the freshly constructed buffer. *)
Inductive op := Append (block : OutputBlock) | FetchAndClear | Clear.

Definition step (b : t) (o : op) : t :=
  match o with
  | Append block => append b block
  | FetchAndClear => snd (fetchAndClear b)
  | Clear => clear b
  end.

Definition run (cap : Z) (ops : list op) : t := fold_left step ops (new cap).

(** The sum of the estimated sizes of the blocks held. *)
Definition sizeOf (l : list OutputBlock) : Z :=
  fold_right (fun blk acc => estimateSize blk + acc) 0 l.

End OutputBuffer.

(** [createOutputBlock(type, content)] of output-buffer.ts, without the
    optional overrides (no call site passes any). *)
Definition createOutputBlock (ty : OutputType.t) (c : jsstring) (now : Z)
  : OutputBlock :=
  {| type := ty; content := c; timestamp := now;
     requiresConfirm := None; confirmOptions := None; confirmId := None |}.

(** ** core/events.ts

    What the event bus (and a session's own emitter) is handed; the
    operations below return the events they emit, in order. *)

Inductive Event :=
| SessionStarted (name workDir : jsstring)     (* SESSION_CREATED, session.ts *)
| SessionCreated (name chatId : jsstring)      (* SESSION_CREATED, manager.ts *)
| SessionClosed (name : jsstring)              (* SESSION_CLOSED *)
| SessionSwitched (name chatId : jsstring)     (* SESSION_SWITCHED *)
| OutputReceived (session : jsstring) (block : OutputBlock)
| ConfirmRequired (session : jsstring) (block : OutputBlock)
| ConfirmResponse (session response : jsstring)
| ErrorOutput (session : jsstring) (block : OutputBlock)   (* ERROR *)
| EmitConfirm (block : OutputBlock)            (* this.emit('confirm', block) *)
| EmitExit (code signal : Z).                  (* this.emit('exit', ...) *)

(** The exceptions of the session and of the manager, named after the
    taxonomy of the specification; the message of the source is quoted. *)
Inductive Error :=
| AlreadyStarted                    (* 'Session already started' *)
| NotStarted                        (* 'Session not started' *)
| AdapterNotStarted                 (* 'Adapter not started' *)
| AdapterNotRegistered (tool : jsstring)  (* 'Adapter "tool" not registered...' *)
| MkdirFailure                      (* fs.mkdirSync threw *)
| SpawnFailure                      (* spawnPty threw *)
| StartupFailure (code : Z)         (* 'Process exited during startup with code c' *)
| CapacityExceeded (max : Z)        (* 'Maximum sessions (max) reached' *)
| AlreadyExists (name : jsstring)   (* 'Session "name" already exists' *)
| NotFound (name : jsstring)        (* 'Session "name" not found' *)
| NotInChat (name chatId : jsstring)   (* 'Session "name" not found in chat c' *)
| RestartRejected (name : jsstring).   (* 'Session "name" is not in error state' *)

Inductive result := Ok | Throw (e : Error).

(** ** adapter/cli-adapter.ts, adapter/claude/adapter.ts,
       adapter/opencode/adapter.ts *)

Module Adapter.

Definition Env := list (jsstring * jsstring).

(** [CliAdapterOptions] *)
Record Options := mkOptions {
  executable : jsstring;
  cwd : jsstring;
  env : Env;
  skipPermissions : bool;
  extraArgs : list jsstring;
  messageFilters : option (list jsstring);
  messageFilterEnabled : option bool;
  messageFilterMinLength : option Z
}.

Inductive Kind := Claude | OpenCode.

(** An adapter object. [pty] is [None] for [null], and otherwise holds
    what has been written to the terminal, oldest first. *)
Record t := mk {
  kind : Kind;
  options : Options;
  pty : option (list jsstring);
  isRunningFlag : bool
}.

(** [adapterRegistry.create(name, options)]: the two adapters are
    registered when the application is loaded. *)
Definition create (name : jsstring) (o : Options) : option t :=
  if JS.eqb name (js "claude") then
    Some {| kind := Claude; options := o; pty := None; isRunningFlag := false |}
  else if JS.eqb name (js "opencode") then
    Some {| kind := OpenCode; options := o; pty := None; isRunningFlag := false |}
  else None.

Definition write (a : t) (data : list jsstring) : option t :=
  match pty a with
  | None => None
  | Some w => Some {| kind := kind a; options := options a;
                      pty := Some (w ++ data); isRunningFlag := isRunningFlag a |}
  end.

Definition CR : jsstring := [13%N].

(** [sendInput(input)]: [None] stands for the throw of
    'Adapter not started'. *)
Definition sendInput (a : t) (input : jsstring) : option t := write a [input; CR].
Definition sendRawInput (a : t) (data : jsstring) : option t := write a [data].
Definition sendConfirmResponse (a : t) (response : jsstring) : option t :=
  write a [response; CR].

(** [close()] *)
Definition close (a : t) : t :=
  {| kind := kind a; options := options a; pty := None; isRunningFlag := false |}.

End Adapter.

(** ** adapter/claude/adapter.ts: the path of the output *)

Module ClaudeOutput.
Import JS Regex.

(** [/Crunch|processing|loading|thinking|Tinkering|Meandering/i] *)
Definition progressState : re :=
  alts [lit "Crunch"; lit "processing"; lit "loading"; lit "thinking";
        lit "Tinkering"; lit "Meandering"].

(** The loop over [this.options.messageFilters]. *)
Definition matchesFilter (o : Adapter.Options) (content : jsstring) : bool :=
  match Adapter.messageFilters o with
  | Some filters => existsb (fun filter => startsWith content filter) filters
  | None => false
  end.

(** [this.options.messageFilterEnabled !== false] *)
Definition filterEnabled (o : Adapter.Options) : bool :=
  match Adapter.messageFilterEnabled o with
  | Some false => false
  | _ => true
  end.

(** [this.options.messageFilterMinLength || 5] *)
Definition minLength (o : Adapter.Options) : Z :=
  match Adapter.messageFilterMinLength o with
  | Some n => if n =? 0 then 5 else n
  | None => 5
  end.

(** [shouldFilter(content)]; [last] is the field [lastOutputContent],
    which is returned with the value the call leaves in it. *)
Definition shouldFilter (o : Adapter.Options) (last content : jsstring)
  : bool * jsstring :=
  if matchesFilter o content then (true, last)
  else if filterEnabled o then
    let cleaned := remove space content in
    if JS.length cleaned <? minLength o then (true, last)
    else if eqb content last then (true, last)
    else if test flag_i progressState cleaned then
      if JS.length cleaned >? 50 then (false, last) else (true, last)
    else (false, content)
  else (false, last).

(** The body of the loop of [handleOutput]: the blocks emitted so far
    and [lastOutputContent]. *)
Definition emitUnlessFiltered (o : Adapter.Options)
           (acc : list OutputBlock * jsstring) (block : OutputBlock)
  : list OutputBlock * jsstring :=
  let '(emitted, last) := acc in
  match type block with
  | OutputType.NORMAL =>
    let '(drop, last') := shouldFilter o last (content block) in
    if drop then (emitted, last') else (emitted ++ [block], last')
  | _ => (emitted ++ [block], last)
  end.

(** [handleOutput(data)]: the blocks given to the 'output' listeners,
    in order, and [lastOutputContent]. A new adapter has [last = []]. *)
Definition handleOutput (o : Adapter.Options) (last data : jsstring)
           (now stamp : Z) : list OutputBlock * jsstring :=
  fold_left (emitUnlessFiltered o) (OutputParser.parse data now stamp) ([], last).

End ClaudeOutput.

(** What the spawned process does while [start] waits out the warm-up;
    this is the environment's choice. *)
Inductive Launch :=
| MkdirThrows                          (* the work directory cannot be created *)
| SpawnThrows                          (* node-pty fails to spawn *)
| ExitsDuringWarmup (code signal : Z)  (* the process exits within the 2 s *)
| Survives.

(** What the process does while [close] waits for the adapter to shut it
    down (SIGTERM, one second, SIGKILL): its exit reaches the session
    within that wait, at the time [at_], or it does not (the exit comes
    later, or never). This too is the environment's choice. *)
Inductive Shutdown :=
| ExitsOnClose (code signal at_ : Z)
| OutlivesClose.

(** ** session/session.ts *)

Module Session.

Record PendingConfirm := mkPending {
  id : jsstring;
  options : list jsstring
}.

(** [SessionOptions] *)
Record Options := mkOptions {
  optName : jsstring;
  optWorkDir : jsstring;
  bufferSize : Z;
  optSkipPermissions : option bool;
  optExtraArgs : option (list jsstring);
  optMessageFilters : option (list jsstring);
  optMessageFilterEnabled : option bool;
  optMessageFilterMinLength : option Z
}.

Record t := mk {
  name : jsstring;
  workDir : jsstring;
  status : SessionStatus.t;
  adapter : option Adapter.t;
  buffer : OutputBuffer.t;
  createdAt : Z;
  lastActiveAt : Z;
  pendingConfirm : option PendingConfirm;
  skipPermissions : bool;
  extraArgs : list jsstring;
  messageFilters : option (list jsstring);
  messageFilterEnabled : option bool;
  messageFilterMinLength : option Z;
  inputQueue : list jsstring;
  isProcessingInput : bool
}.

(** Field updates. *)
Definition withStatus (s : t) (st : SessionStatus.t) : t :=
  mk (name s) (workDir s) st (adapter s) (buffer s) (createdAt s)
     (lastActiveAt s) (pendingConfirm s) (skipPermissions s) (extraArgs s)
     (messageFilters s) (messageFilterEnabled s) (messageFilterMinLength s)
     (inputQueue s) (isProcessingInput s).
Definition withAdapter (s : t) (a : option Adapter.t) : t :=
  mk (name s) (workDir s) (status s) a (buffer s) (createdAt s)
     (lastActiveAt s) (pendingConfirm s) (skipPermissions s) (extraArgs s)
     (messageFilters s) (messageFilterEnabled s) (messageFilterMinLength s)
     (inputQueue s) (isProcessingInput s).
Definition withBuffer (s : t) (b : OutputBuffer.t) : t :=
  mk (name s) (workDir s) (status s) (adapter s) b (createdAt s)
     (lastActiveAt s) (pendingConfirm s) (skipPermissions s) (extraArgs s)
     (messageFilters s) (messageFilterEnabled s) (messageFilterMinLength s)
     (inputQueue s) (isProcessingInput s).
Definition withPendingConfirm (s : t) (p : option PendingConfirm) : t :=
  mk (name s) (workDir s) (status s) (adapter s) (buffer s) (createdAt s)
     (lastActiveAt s) p (skipPermissions s) (extraArgs s)
     (messageFilters s) (messageFilterEnabled s) (messageFilterMinLength s)
     (inputQueue s) (isProcessingInput s).
Definition withInputQueue (s : t) (q : list jsstring) : t :=
  mk (name s) (workDir s) (status s) (adapter s) (buffer s) (createdAt s)
     (lastActiveAt s) (pendingConfirm s) (skipPermissions s) (extraArgs s)
     (messageFilters s) (messageFilterEnabled s) (messageFilterMinLength s)
     q (isProcessingInput s).
Definition withIsProcessingInput (s : t) (b : bool) : t :=
  mk (name s) (workDir s) (status s) (adapter s) (buffer s) (createdAt s)
     (lastActiveAt s) (pendingConfirm s) (skipPermissions s) (extraArgs s)
     (messageFilters s) (messageFilterEnabled s) (messageFilterMinLength s)
     (inputQueue s) b.

(** [updateActiveTime()] *)
Definition updateActiveTime (s : t) (now : Z) : t :=
  mk (name s) (workDir s) (status s) (adapter s) (buffer s) (createdAt s)
     now (pendingConfirm s) (skipPermissions s) (extraArgs s)
     (messageFilters s) (messageFilterEnabled s) (messageFilterMinLength s)
     (inputQueue s) (isProcessingInput s).

(** [new ClaudeSession(options)] *)
Definition new (o : Options) (now : Z) : t :=
  {| name := optName o;
     workDir := optWorkDir o;
     status := SessionStatus.IDLE;
     adapter := None;
     buffer := OutputBuffer.new (bufferSize o);
     createdAt := now;
     lastActiveAt := now;
     pendingConfirm := None;
     skipPermissions := match optSkipPermissions o with Some b => b | None => false end;
     extraArgs := match optExtraArgs o with Some l => l | None => [] end;
     messageFilters := optMessageFilters o;
     messageFilterEnabled := optMessageFilterEnabled o;
     messageFilterMinLength := optMessageFilterMinLength o;
     inputQueue := [];
     isProcessingInput := false |}.

(** [handleOutput(block)] *)
Definition handleOutput (s : t) (block : OutputBlock) (now : Z) : t * list Event :=
  let '(s1, evs) :=
    match type block with
    | OutputType.NORMAL =>
      (withBuffer s (OutputBuffer.append (buffer s) block), [])
    | OutputType.CONFIRM =>
      let s1 := withStatus s SessionStatus.WAITING_CONFIRM in
      let s2 := withPendingConfirm s1
        (Some {| id := match confirmId block with
                       | Some (c :: i) => c :: i
                       | _ => js "confirm_" ++ JS.ofZ now
                       end;
                 options := match confirmOptions block with
                            | Some o => o
                            | None => []
                            end |}) in
      (s2, [ConfirmRequired (name s) block; EmitConfirm block])
    | OutputType.ERROR =>
      (withBuffer s (OutputBuffer.append (buffer s) block),
       [ErrorOutput (name s) block])
    | OutputType.SYSTEM => (s, [])
    end in
  (s1, evs ++ [OutputReceived (name s) block]).

(** The text of the synthetic block of [handleExit]. *)
Definition exitMessage (code : Z) : jsstring :=
  js "Process exited with code " ++ JS.ofZ code.

(** [handleExit(code, signal)] *)
Definition handleExit (s : t) (code signal : Z) (now : Z) : t * list Event :=
  let s1 :=
    if negb (code =? 0) then
      let s1 := withStatus s SessionStatus.ERROR in
      let errorBlock := createOutputBlock OutputType.ERROR (exitMessage code) now in
      withBuffer s1 (OutputBuffer.append (buffer s1) errorBlock)
    else withStatus s SessionStatus.IDLE in
  (withAdapter s1 None, [EmitExit code signal]).

(** The listener of the adapter's 'idle' event. *)
Definition handleIdle (s : t) : t :=
  match status s with
  | SessionStatus.PROCESSING => withStatus s SessionStatus.IDLE
  | _ => s
  end.

(** [adapter.start()], seen from the session: the adapter object the
    session is left holding and whether the call throws. The exit of the
    process is delivered to the session through the 'exit' listener
    before the adapter's own [start] resumes. *)
Definition startAdapter (s : t) (a : Adapter.t) (launch : Launch) (now : Z)
  : result * t * list Event :=
  match launch with
  | MkdirThrows | SpawnThrows =>
    (Throw SpawnFailure, s, [])
  | ExitsDuringWarmup code signal =>
    let '(s1, evs) := handleExit s code signal now in
    match Adapter.kind a with
    | Adapter.Claude => (Throw (StartupFailure code), s1, evs)
    | Adapter.OpenCode => (Ok, s1, evs)
    end
  | Survives =>
    (Ok,
     withAdapter s
       (Some (Adapter.mk (Adapter.kind a) (Adapter.options a)
                         (Some [[27%N] ++ js "[9999;1R"]) true)),
     [])
  end.

(** [start(cliTool, executable, env)] *)
Definition start (s : t) (cliTool executable : jsstring) (env : Adapter.Env)
           (launch : Launch) (now : Z) : result * t * list Event :=
  match adapter s with
  | Some _ => (Throw AlreadyStarted, s, [])
  | None =>
    match launch with
    | MkdirThrows => (Throw MkdirFailure, withStatus s SessionStatus.ERROR, [])
    | _ =>
      let adapterOptions :=
        {| Adapter.executable := executable;
           Adapter.cwd := workDir s;
           Adapter.env := env;
           Adapter.skipPermissions := skipPermissions s;
           Adapter.extraArgs := extraArgs s;
           Adapter.messageFilters := messageFilters s;
           Adapter.messageFilterEnabled := messageFilterEnabled s;
           Adapter.messageFilterMinLength := messageFilterMinLength s |} in
      match Adapter.create cliTool adapterOptions with
      | None =>
        (Throw (AdapterNotRegistered cliTool), withStatus s SessionStatus.ERROR, [])
      | Some a =>
        let s1 := withAdapter s (Some a) in
        match startAdapter s1 a launch now with
        | (Ok, s2, evs) =>
          let s3 := updateActiveTime (withStatus s2 SessionStatus.IDLE) now in
          (Ok, s3, evs ++ [SessionStarted (name s) (workDir s)])
        | (Throw e, s2, evs) =>
          (Throw e, withStatus s2 SessionStatus.ERROR, evs)
        end
      end
    end
  end.

(** The [while] loop of [processInputQueue]: every queued input is
    written, followed by a carriage return. [None] when a write throws. *)
Fixpoint drainQueue (a : Adapter.t) (q : list jsstring) : option Adapter.t :=
  match q with
  | [] => Some a
  | input :: rest =>
    match Adapter.sendInput a input with
    | Some a' => drainQueue a' rest
    | None => None
    end
  end.

(** [processInputQueue()]. It contains no [await], so it runs to its end
    inside [sendInput]; when a write throws, the input taken off the queue
    is lost and [isProcessingInput] is left set. *)
Definition processInputQueue (s : t) (now : Z) : t :=
  if isProcessingInput s || negb (0 <? Z.of_nat (List.length (inputQueue s)))
  then s
  else
    let s1 := withIsProcessingInput s true in
    let s2 := updateActiveTime (withStatus s1 SessionStatus.PROCESSING) now in
    match adapter s2 with
    | Some a =>
      match drainQueue a (inputQueue s2) with
      | Some a' =>
        withIsProcessingInput (withInputQueue (withAdapter s2 (Some a')) []) false
      | None => withInputQueue s2 (tl (inputQueue s2))
      end
    | None => withInputQueue s2 (tl (inputQueue s2))
    end.

(** [sendInput(input)] *)
Definition sendInput (s : t) (input : jsstring) (now : Z) : result * t :=
  match adapter s with
  | None => (Throw NotStarted, s)
  | Some _ =>
    (Ok, processInputQueue (withInputQueue s (inputQueue s ++ [input])) now)
  end.

(** [sendRawInput(data)] *)
Definition sendRawInput (s : t) (data : jsstring) (now : Z) : result * t :=
  match adapter s with
  | None => (Throw NotStarted, s)
  | Some a =>
    match Adapter.sendRawInput a data with
    | None => (Throw AdapterNotStarted, s)
    | Some a' => (Ok, updateActiveTime (withAdapter s (Some a')) now)
    end
  end.

(** [sendConfirmResponse(response)] *)
Definition sendConfirmResponse (s : t) (response : jsstring) (now : Z)
  : result * t * list Event :=
  match pendingConfirm s with
  | None => (Ok, s, [])
  | Some _ =>
    let sent :=
      match adapter s with
      | None => Some None
      | Some a => option_map Some (Adapter.sendConfirmResponse a response)
      end in
    match sent with
    | None => (Throw AdapterNotStarted, s, [])
    | Some a' =>
      let s1 := withPendingConfirm (withAdapter s a') None in
      let s2 := updateActiveTime (withStatus s1 SessionStatus.PROCESSING) now in
      (Ok, s2, [ConfirmResponse (name s) response])
    end
  end.

(** [getBufferedOutput()] *)
Definition getBufferedOutput (s : t) : list OutputBlock * t :=
  let '(out, b) := OutputBuffer.fetchAndClear (buffer s) in
  (out, withBuffer s b).

Definition getStatus (s : t) : SessionStatus.t := status s.
Definition getPendingConfirm (s : t) : option PendingConfirm := pendingConfirm s.

(** [close()]. The 'exit' listener that [start] attached is still in
    place while [adapter.close()] is awaited, so an exit of the process
    within the wait runs [handleExit] before [close] goes on. An adapter
    without a terminal has no process, and its [close] does not wait. *)
Definition close (s : t) (shutdown : Shutdown) : t * list Event :=
  let '(s1, evs) :=
    match adapter s with
    | Some a =>
      match Adapter.pty a, shutdown with
      | Some _, ExitsOnClose code signal at_ => handleExit s code signal at_
      | _, _ => (s, [])
      end
    | None => (s, [])
    end in
  (withStatus (withAdapter s1 None) SessionStatus.IDLE,
   evs ++ [SessionClosed (name s)]).

(** What can happen to a session object: the calls of its public
    methods, and the events its adapter delivers. *)
Inductive op :=
| Start (cliTool executable : jsstring) (env : Adapter.Env) (launch : Launch)
| SendInput (input : jsstring)
| SendRawInput (data : jsstring)
| SendConfirmResponse (response : jsstring)
| GetBufferedOutput
| Close (shutdown : Shutdown)
| Output (block : OutputBlock)
| ProcessExit (code signal : Z)
| IdleTimeout.

(** One operation at the time [now]. *)
Definition step (s : t) (o : op) (now : Z) : t :=
  match o with
  | Start cliTool executable env launch =>
    snd (fst (start s cliTool executable env launch now))
  | SendInput input => snd (sendInput s input now)
  | SendRawInput data => snd (sendRawInput s data now)
  | SendConfirmResponse response => snd (fst (sendConfirmResponse s response now))
  | GetBufferedOutput => snd (getBufferedOutput s)
  | Close shutdown => fst (close s shutdown)
  | Output block => fst (handleOutput s block now)
  | ProcessExit code signal => fst (handleExit s code signal now)
  | IdleTimeout => handleIdle s
  end.

(** A history: the operations with the time each happens at, applied to
    the session that [new] constructs. *)
Definition run (o : Options) (created : Z) (history : list (op * Z)) : t :=
  fold_left (fun s '(o, now) => step s o now) history (new o created).

End Session.

(** ** The language's [Map] and [Set]

    Both iterate in insertion order, which the manager relies on when it
    picks [remaining[0]]; they are lists here, with the keys of a map and
    the elements of a set kept distinct by [set] and [add]. *)

Module JsMap.
Section JsMap.
Context {V : Type}.

Definition t := list (jsstring * V).

Definition empty : t := [].

Fixpoint get (m : t) (k : jsstring) : option V :=
  match m with
  | [] => None
  | (k', v) :: r => if JS.eqb k' k then Some v else get r k
  end.

Definition has (m : t) (k : jsstring) : bool :=
  match get m k with Some _ => true | None => false end.

(** An existing key keeps its place, a new one goes last. *)
Fixpoint set (m : t) (k : jsstring) (v : V) : t :=
  match m with
  | [] => [(k, v)]
  | (k', v') :: r =>
    if JS.eqb k' k then (k', v) :: r else (k', v') :: set r k v
  end.

Definition delete (m : t) (k : jsstring) : t :=
  filter (fun kv => negb (JS.eqb (fst kv) k)) m.

Definition size (m : t) : Z := Z.of_nat (List.length m).
Definition keys (m : t) : list jsstring := List.map fst m.
Definition values (m : t) : list V := List.map snd m.
End JsMap.
Arguments t : clear implicits.
End JsMap.

Module JsSet.
Definition t := list jsstring.
Definition empty : t := [].
Definition has (s : t) (x : jsstring) : bool := existsb (JS.eqb x) s.
Definition add (s : t) (x : jsstring) : t := if has s x then s else s ++ [x].
Definition delete (s : t) (x : jsstring) : t :=
  filter (fun y => negb (JS.eqb y x)) s.
(** [Array.from(s)] *)
Definition toArray (s : t) : list jsstring := s.
End JsSet.

(** ** core/types.ts and core/message-history.ts: the message history *)

Module MessageType.
Inductive t := TEXT | COMMAND | INTERACTIVE.
End MessageType.

Module IncomingMessage.
Record t := mk {
  chatId : jsstring;
  userId : jsstring;
  content : jsstring;
  type : MessageType.t;
  messageId : option jsstring;
  timestamp : Z
}.
End IncomingMessage.

Module CommunicationType.
Inductive t := USER_MESSAGE | CLAUDE_OUTPUT | SYSTEM_MESSAGE.
End CommunicationType.

Module CommunicationRecord.
Record Metadata := mkMetadata {
  messageId : option jsstring;
  outputType : option OutputType.t;
  confirmOptions : option (list jsstring);
  confirmId : option jsstring
}.
Record t := mk {
  id : jsstring;
  type : CommunicationType.t;
  chatId : jsstring;
  userId : jsstring;
  sessionName : option jsstring;
  content : jsstring;
  timestamp : Z;
  metadata : option Metadata
}.
End CommunicationRecord.

Module ChatHistory.
Record t := mk {
  chatId : jsstring;
  records : list CommunicationRecord.t;
  lastUpdated : Z
}.
End ChatHistory.

Module MessageHistoryManager.

Record Config := mkConfig {
  maxRecordsPerChat : Z;
  maxTotalRecords : Z
}.

Record t := mk {
  histories : JsMap.t ChatHistory.t;
  config : Config;
  recordIdCounter : Z
}.

(** [n || d] for an optional number. *)
Definition numOr (n : option Z) (d : Z) : Z :=
  match n with
  | Some v => if v =? 0 then d else v
  | None => d
  end.

(** [new MessageHistoryManager(config)], with the two optional fields of
    [config]. *)
Definition new (maxRecordsPerChat maxTotalRecords : option Z) : t :=
  {| histories := JsMap.empty;
     config := {| maxRecordsPerChat := numOr maxRecordsPerChat 500;
                  maxTotalRecords := numOr maxTotalRecords 5000 |};
     recordIdCounter := 0 |}.

(** [generateRecordId()]; [now] is what [Date.now()] returns. *)
Definition generateRecordId (m : t) (now : Z) : jsstring * t :=
  let counter := recordIdCounter m + 1 in
  (js "record_" ++ JS.ofZ now ++ js "_" ++ JS.ofZ counter,
   mk (histories m) (config m) counter).

(** [a.slice(start)]: a negative [start] counts from the end. *)
Definition slice {A : Type} (a : list A) (start : Z) : list A :=
  let len := Z.of_nat (List.length a) in
  let k := if start <? 0 then Z.max (len + start) 0 else Z.min start len in
  skipn (Z.to_nat k) a.

(** [getTotalRecordCount()] *)
Definition getTotalRecordCount (m : t) : Z :=
  fold_left (fun total history =>
               total + Z.of_nat (List.length (ChatHistory.records history)))
            (JsMap.values (histories m)) 0.

(** [sort((a, b) => a.lastUpdated.getTime() - b.lastUpdated.getTime())];
    the sort of the language is stable. *)
Fixpoint insertByTime (h : ChatHistory.t) (l : list ChatHistory.t)
  : list ChatHistory.t :=
  match l with
  | [] => [h]
  | x :: r =>
    if ChatHistory.lastUpdated h <=? ChatHistory.lastUpdated x
    then h :: l
    else x :: insertByTime h r
  end.

Definition sortByTime (l : list ChatHistory.t) : list ChatHistory.t :=
  fold_right insertByTime [] l.

(** The loop [for (const history of sortedHistories)] of
    [enforceTotalLimit]. The histories are objects of the map: assigning
    to [history.records] changes the entry of the map, which is the one
    under [history.chatId]. *)
Fixpoint trimOldest (sorted : list ChatHistory.t) (recordsToRemove : Z)
         (hs : JsMap.t ChatHistory.t) : JsMap.t ChatHistory.t :=
  match sorted with
  | [] => hs
  | history :: rest =>
    if recordsToRemove <=? 0 then hs
    else
      let removeCount :=
        Z.min recordsToRemove
              (Z.of_nat (List.length (ChatHistory.records history))) in
      let records := slice (ChatHistory.records history) removeCount in
      let hs' :=
        if Z.of_nat (List.length records) =? 0
        then JsMap.delete hs (ChatHistory.chatId history)
        else JsMap.set hs (ChatHistory.chatId history)
                       (ChatHistory.mk (ChatHistory.chatId history) records
                                       (ChatHistory.lastUpdated history)) in
      trimOldest rest (recordsToRemove - removeCount) hs'
  end.

(** [enforceTotalLimit()] *)
Definition enforceTotalLimit (m : t) : t :=
  let totalRecords := getTotalRecordCount m in
  if totalRecords >? maxTotalRecords (config m) then
    let sortedHistories := sortByTime (JsMap.values (histories m)) in
    mk (trimOldest sortedHistories (totalRecords - maxTotalRecords (config m))
                   (histories m))
       (config m) (recordIdCounter m)
  else m.

(** [addRecord(chatId, record)]; [now] is what [new Date()] returns. *)
Definition addRecord (m : t) (chatId : jsstring) (record : CommunicationRecord.t)
           (now : Z) : t :=
  let history :=
    match JsMap.get (histories m) chatId with
    | Some history => history
    | None => ChatHistory.mk chatId [] now
    end in
  let records := ChatHistory.records history ++ [record] in
  let records :=
    if Z.of_nat (List.length records) >? maxRecordsPerChat (config m)
    then slice records (- maxRecordsPerChat (config m))
    else records in
  enforceTotalLimit
    (mk (JsMap.set (histories m) chatId
                   (ChatHistory.mk (ChatHistory.chatId history) records now))
        (config m) (recordIdCounter m)).

(** [recordUserMessage(message)] *)
Definition recordUserMessage (m : t) (message : IncomingMessage.t) (now : Z)
  : CommunicationRecord.t * t :=
  let '(id, m1) := generateRecordId m now in
  let record :=
    {| CommunicationRecord.id := id;
       CommunicationRecord.type := CommunicationType.USER_MESSAGE;
       CommunicationRecord.chatId := IncomingMessage.chatId message;
       CommunicationRecord.userId := IncomingMessage.userId message;
       CommunicationRecord.sessionName := None;
       CommunicationRecord.content := IncomingMessage.content message;
       CommunicationRecord.timestamp := IncomingMessage.timestamp message;
       CommunicationRecord.metadata :=
         Some (CommunicationRecord.mkMetadata
                 (IncomingMessage.messageId message) None None None) |} in
  (record, addRecord m1 (IncomingMessage.chatId message) record now).

(** [recordClaudeOutput(chatId, sessionName, block)] *)
Definition recordClaudeOutput (m : t) (chatId sessionName : jsstring)
           (block : OutputBlock) (now : Z) : CommunicationRecord.t * t :=
  let '(id, m1) := generateRecordId m now in
  let record :=
    {| CommunicationRecord.id := id;
       CommunicationRecord.type := CommunicationType.CLAUDE_OUTPUT;
       CommunicationRecord.chatId := chatId;
       CommunicationRecord.userId := [];
       CommunicationRecord.sessionName := Some sessionName;
       CommunicationRecord.content := content block;
       CommunicationRecord.timestamp := timestamp block;
       CommunicationRecord.metadata :=
         Some (CommunicationRecord.mkMetadata
                 None (Some (type block)) (confirmOptions block)
                 (confirmId block)) |} in
  (record, addRecord m1 chatId record now).

(** [recordSystemMessage(chatId, content)] *)
Definition recordSystemMessage (m : t) (chatId content : jsstring) (now : Z)
  : CommunicationRecord.t * t :=
  let '(id, m1) := generateRecordId m now in
  let record :=
    {| CommunicationRecord.id := id;
       CommunicationRecord.type := CommunicationType.SYSTEM_MESSAGE;
       CommunicationRecord.chatId := chatId;
       CommunicationRecord.userId := [];
       CommunicationRecord.sessionName := None;
       CommunicationRecord.content := content;
       CommunicationRecord.timestamp := now;
       CommunicationRecord.metadata := None |} in
  (record, addRecord m1 chatId record now).

(** [getChatHistory(chatId, limit)] *)
Definition getChatHistory (m : t) (chatId : jsstring) (limit : option Z)
  : list CommunicationRecord.t :=
  match JsMap.get (histories m) chatId with
  | None => []
  | Some history =>
    let records := ChatHistory.records history in
    match limit with
    | Some n => if n =? 0 then records else slice records (- n)
    | None => records
    end
  end.

(** [getAllChatIds()] *)
Definition getAllChatIds (m : t) : list jsstring := JsMap.keys (histories m).

(** [clearChatHistory(chatId)] *)
Definition clearChatHistory (m : t) (chatId : jsstring) : bool * t :=
  (JsMap.has (histories m) chatId,
   mk (JsMap.delete (histories m) chatId) (config m) (recordIdCounter m)).

(** [clearAllHistory()] *)
Definition clearAllHistory (m : t) : t :=
  mk JsMap.empty (config m) (recordIdCounter m).

(** The calls of the public methods that change the manager. *)
Inductive op :=
| RecordUserMessage (message : IncomingMessage.t)
| RecordClaudeOutput (chatId sessionName : jsstring) (block : OutputBlock)
| RecordSystemMessage (chatId content : jsstring)
| ClearChatHistory (chatId : jsstring)
| ClearAllHistory.

Definition step (m : t) (o : op) (now : Z) : t :=
  match o with
  | RecordUserMessage message => snd (recordUserMessage m message now)
  | RecordClaudeOutput chatId sessionName block =>
    snd (recordClaudeOutput m chatId sessionName block now)
  | RecordSystemMessage chatId content =>
    snd (recordSystemMessage m chatId content now)
  | ClearChatHistory chatId => snd (clearChatHistory m chatId)
  | ClearAllHistory => clearAllHistory m
  end.

(** A history of calls, each with the time it happens at, on the manager
    that [new] constructs. *)
Definition run (maxRecordsPerChat maxTotalRecords : option Z)
           (calls : list (op * Z)) : t :=
  fold_left (fun m '(o, now) => step m o now) calls
            (new maxRecordsPerChat maxTotalRecords).

End MessageHistoryManager.

(** ** The part of [AppConfig] (core/types.ts) that the manager reads *)

Module Config.

Record Tool := mkTool {
  executable : option jsstring;
  toolSkipPermissions : option bool;
  extraArgs : option (list jsstring)
}.

Record Cli := mkCli {
  default : option jsstring;
  env : option Adapter.Env;
  skipPermissions : option bool;
  messageFilters : option (list jsstring);
  claude : option Tool;
  opencode : option Tool
}.

Record MessageFilter := mkFilter {
  enabled : bool;
  minLength : Z
}.

Record SessionRoot := mkSession {
  maxSessions : Z;
  bufferSize : Z;
  messageFilter : option MessageFilter
}.

Record App := mkApp {
  cli : option Cli;
  session : SessionRoot
}.

End Config.

(** [a || b] on strings: the empty string and [undefined] are falsy. *)
Definition strOr (a : option jsstring) (b : jsstring) : jsstring :=
  match a with
  | Some (c :: r) => c :: r
  | _ => b
  end.

(** [a || b] on optional booleans. *)
Definition boolOr (a : option bool) (b : bool) : bool :=
  match a with
  | Some true => true
  | _ => b
  end.

(** ** session/manager.ts *)

Module SessionManager.

Record t := mk {
  sessions : JsMap.t Session.t;
  activeSession : option jsstring;
  config : Config.App;
  chatSessions : JsMap.t JsSet.t;
  chatActiveSession : JsMap.t jsstring
}.

(** [new SessionManager(config)] *)
Definition new (config : Config.App) : t :=
  {| sessions := JsMap.empty; activeSession := None; config := config;
     chatSessions := JsMap.empty; chatActiveSession := JsMap.empty |}.

(** [updateConfig(config)] *)
Definition updateConfig (m : t) (config : Config.App) : t :=
  mk (sessions m) (activeSession m) config (chatSessions m) (chatActiveSession m).

Definition withSessions (m : t) (ss : JsMap.t Session.t) : t :=
  mk ss (activeSession m) (config m) (chatSessions m) (chatActiveSession m).

(** The tool named by [cliTool || cliConfig?.default || 'claude']. *)
Definition toolOf (config : Config.App) (cliTool : option jsstring) : jsstring :=
  strOr cliTool
        (strOr (match Config.cli config with
                | Some c => Config.default c
                | None => None
                end) (js "claude")).

(** [currentCliConfig] *)
Definition currentCliConfig (config : Config.App) (tool : jsstring)
  : option Config.Tool :=
  match Config.cli config with
  | None => None
  | Some c =>
    if JS.eqb tool (js "opencode") then Config.opencode c else Config.claude c
  end.

(** [currentCliConfig?.executable || defaultCliTool] *)
Definition executableOf (config : Config.App) (tool : jsstring) : jsstring :=
  strOr (match currentCliConfig config tool with
         | Some tc => Config.executable tc
         | None => None
         end) tool.

(** [cliConfig?.env || {}] *)
Definition cliEnv (config : Config.App) : Adapter.Env :=
  match Config.cli config with
  | Some c => match Config.env c with Some e => e | None => [] end
  | None => []
  end.

(** The options of the session that [createSession] constructs. *)
Definition sessionOptions (config : Config.App) (name workDir tool : jsstring)
  : Session.Options :=
  let cliConfig := Config.cli config in
  let current := currentCliConfig config tool in
  let skipPermissions :=
    if JS.eqb tool (js "claude") then
      boolOr (match current with
              | Some tc => Config.toolSkipPermissions tc
              | None => None
              end)
             (boolOr (match cliConfig with
                      | Some c => Config.skipPermissions c
                      | None => None
                      end) false)
    else false in
  let extraArgs :=
    match current with
    | Some tc => match Config.extraArgs tc with Some l => l | None => [] end
    | None => []
    end in
  {| Session.optName := name;
     Session.optWorkDir := workDir;
     Session.bufferSize := Config.bufferSize (Config.session config);
     Session.optSkipPermissions := Some skipPermissions;
     Session.optExtraArgs := Some extraArgs;
     Session.optMessageFilters :=
       match cliConfig with Some c => Config.messageFilters c | None => None end;
     Session.optMessageFilterEnabled :=
       option_map Config.enabled (Config.messageFilter (Config.session config));
     Session.optMessageFilterMinLength :=
       option_map Config.minLength (Config.messageFilter (Config.session config)) |}.

(** [createSession(name, workDir, chatId, cliTool)] *)
Definition createSession (m : t) (name workDir chatId : jsstring)
           (cliTool : option jsstring) (launch : Launch) (now : Z)
  : result * t * list Event :=
  if JsMap.size (sessions m) >=? Config.maxSessions (Config.session (config m))
  then (Throw (CapacityExceeded (Config.maxSessions (Config.session (config m)))),
        m, [])
  else if JsMap.has (sessions m) name
  then (Throw (AlreadyExists name), m, [])
  else
    let defaultCliTool := toolOf (config m) cliTool in
    let session :=
      Session.new (sessionOptions (config m) name workDir defaultCliTool) now in
    let chatSessions1 :=
      if JsMap.has (chatSessions m) chatId then chatSessions m
      else JsMap.set (chatSessions m) chatId JsSet.empty in
    let chatSessions2 :=
      match JsMap.get chatSessions1 chatId with
      | Some set => JsMap.set chatSessions1 chatId (JsSet.add set name)
      | None => chatSessions1
      end in
    let m1 := {| sessions := JsMap.set (sessions m) name session;
                 activeSession := Some name;
                 config := config m;
                 chatSessions := chatSessions2;
                 chatActiveSession := JsMap.set (chatActiveSession m) chatId name |} in
    match Session.start session defaultCliTool
                        (executableOf (config m) defaultCliTool)
                        (cliEnv (config m)) launch now with
    | (Ok, session', evs) =>
      (Ok, withSessions m1 (JsMap.set (sessions m1) name session'),
       evs ++ [SessionCreated name chatId])
    | (Throw e, session', evs) =>
      (Throw e, withSessions m1 (JsMap.set (sessions m1) name session'), evs)
    end.

Definition getSession (m : t) (name : jsstring) : option Session.t :=
  JsMap.get (sessions m) name.

(** [getChatActiveSession(chatId)] *)
Definition getChatActiveSession (m : t) (chatId : jsstring) : option Session.t :=
  match JsMap.get (chatActiveSession m) chatId with
  | Some (c :: r) => JsMap.get (sessions m) (c :: r)
  | _ => None
  end.

(** [setChatActiveSession(chatId, name)] *)
Definition setChatActiveSession (m : t) (chatId name : jsstring)
  : result * t * list Event :=
  if negb (JsMap.has (sessions m) name) then (Throw (NotFound name), m, [])
  else
    match JsMap.get (chatSessions m) chatId with
    | Some set =>
      if JsSet.has set name then
        (Ok,
         mk (sessions m) (Some name) (config m) (chatSessions m)
            (JsMap.set (chatActiveSession m) chatId name),
         [SessionSwitched name chatId])
      else (Throw (NotInChat name chatId), m, [])
    | None => (Throw (NotInChat name chatId), m, [])
    end.

(** [addSessionToChat(name, chatId)] *)
Definition addSessionToChat (m : t) (name chatId : jsstring) : result * t :=
  if negb (JsMap.has (sessions m) name) then (Throw (NotFound name), m)
  else
    let set := match JsMap.get (chatSessions m) chatId with
               | Some set => set
               | None => JsSet.empty
               end in
    (Ok, mk (sessions m) (activeSession m) (config m)
            (JsMap.set (chatSessions m) chatId (JsSet.add set name))
            (chatActiveSession m)).

(** [restartSession(name)] *)
Definition restartSession (m : t) (name : jsstring) (launch : Launch) (now : Z)
  : result * t * list Event :=
  match JsMap.get (sessions m) name with
  | None => (Throw (NotFound name), m, [])
  | Some session =>
    match Session.status session with
    | SessionStatus.ERROR =>
      let defaultCliTool := toolOf (config m) None in
      let '(r, session', evs) :=
        Session.start session defaultCliTool
                      (executableOf (config m) defaultCliTool)
                      (cliEnv (config m)) launch now in
      (r, withSessions m (JsMap.set (sessions m) name session'), evs)
    | _ => (Throw (RestartRejected name), m, [])
    end
  end.

(** The loop [for (const [chatId, sessionSet] of this.chatSessions)] of
    [closeSession]: [name] leaves every set, and a chat whose active
    session it was gets the first remaining one, or none. *)
Fixpoint unbind (name : jsstring) (chats : JsMap.t JsSet.t)
         (active : JsMap.t jsstring) : JsMap.t JsSet.t * JsMap.t jsstring :=
  match chats with
  | [] => ([], active)
  | (chatId, sessionSet) :: rest =>
    let sessionSet' := JsSet.delete sessionSet name in
    let active' :=
      match JsMap.get active chatId with
      | Some current =>
        if JS.eqb current name then
          match JsSet.toArray sessionSet' with
          | first :: _ => JsMap.set active chatId first
          | [] => JsMap.delete active chatId
          end
        else active
      | None => active
      end in
    let '(rest', active'') := unbind name rest active' in
    ((chatId, sessionSet') :: rest', active'')
  end.

(** [findAnyActiveSession()] *)
Definition findAnyActiveSession (m : t) : option jsstring :=
  match chatActiveSession m with
  | (_, name) :: _ => Some name
  | [] => None
  end.

(** [closeSession(name)] *)
Definition closeSession (m : t) (name : jsstring) (shutdown : Shutdown)
  : result * t * list Event :=
  match JsMap.get (sessions m) name with
  | None => (Throw (NotFound name), m, [])
  | Some session =>
    let '(_, evs) := Session.close session shutdown in
    let '(chats, active) := unbind name (chatSessions m) (chatActiveSession m) in
    let m1 := mk (JsMap.delete (sessions m) name) (activeSession m) (config m)
                 chats active in
    let m2 :=
      match activeSession m1 with
      | Some a =>
        if JS.eqb a name
        then mk (sessions m1) (findAnyActiveSession m1) (config m1)
                (chatSessions m1) (chatActiveSession m1)
        else m1
      | None => m1
      end in
    (Ok, m2, evs ++ [SessionClosed name])
  end.

(** The loop of [closeChatSessions]: each [closeSession] is awaited
    before the next one starts; the loop stops at the first throw.
    [shutdowns] gives what the process of each session does while that
    session is closed. *)
Fixpoint closeEach (m : t) (names : list jsstring)
         (shutdowns : jsstring -> Shutdown) : result * t * list Event :=
  match names with
  | [] => (Ok, m, [])
  | name :: rest =>
    match closeSession m name (shutdowns name) with
    | (Ok, m', evs) =>
      let '(r, m'', evs') := closeEach m' rest shutdowns in (r, m'', evs ++ evs')
    | thrown => thrown
    end
  end.

(** [closeChatSessions(chatId)] *)
Definition closeChatSessions (m : t) (chatId : jsstring)
           (shutdowns : jsstring -> Shutdown) : result * t * list Event :=
  match JsMap.get (chatSessions m) chatId with
  | None => (Ok, m, [])
  | Some sessionSet =>
    match closeEach m (JsSet.toArray sessionSet) shutdowns with
    | (Ok, m', evs) =>
      (Ok,
       mk (sessions m') (activeSession m') (config m')
          (JsMap.delete (chatSessions m') chatId)
          (JsMap.delete (chatActiveSession m') chatId),
       evs)
    | thrown => thrown
    end
  end.

(** [closeAll()] starts the [closeSession] of every registered name
    before it awaits any of them ([map], then [Promise.all]), so the
    closes run interleaved. How far one gets before it first has to wait
    depends on the session: without an adapter, [session.close()] runs
    to its end inside the call that starts it; with an adapter that has
    no terminal, it goes on one promise job later; with a terminal, it
    goes on when the adapter's timer of one second fires. *)
Inductive Pace := Immediate | NextTick | AfterWait.

Definition paceOf (s : Session.t) : Pace :=
  match Session.adapter s with
  | None => Immediate
  | Some a =>
    match Adapter.pty a with
    | None => NextTick
    | Some _ => AfterWait
    end
  end.

(** The calls of [map]: the sessions that close at once emit their
    SessionClosed here. *)
Definition closesStarted (ss : JsMap.t Session.t) : list Event :=
  flat_map (fun entry =>
              match paceOf (snd entry) with
              | Immediate => [SessionClosed (Session.name (snd entry))]
              | _ => []
              end) ss.

(** The promise jobs that are ready when [map] returns, in the order
    they were queued: the rest of [closeSession] for a session that
    closed at once, the rest of [session.close()] for a session whose
    adapter has no terminal. *)
Definition firstJobs (ss : JsMap.t Session.t) : list Event :=
  flat_map (fun entry =>
              match paceOf (snd entry) with
              | Immediate => [SessionClosed (fst entry)]
              | NextTick => [SessionClosed (Session.name (snd entry))]
              | AfterWait => []
              end) ss.

(** The jobs that those make ready: the rest of [closeSession] for the
    sessions whose adapter has no terminal. *)
Definition secondJobs (ss : JsMap.t Session.t) : list Event :=
  flat_map (fun entry =>
              match paceOf (snd entry) with
              | NextTick => [SessionClosed (fst entry)]
              | _ => []
              end) ss.

(** The exits that reach sessions with a terminal while the timers run,
    in the order [exits] gives; a process exits once. *)
Fixpoint exitsDuringWait (ss : JsMap.t Session.t)
         (exits : list (jsstring * (Z * Z * Z))) : list Event :=
  match exits with
  | [] => []
  | (name, (code, signal, at_)) :: rest =>
    match JsMap.get ss name with
    | Some s =>
      match paceOf s with
      | AfterWait =>
        let '(s', evs) := Session.handleExit s code signal at_ in
        evs ++ exitsDuringWait (JsMap.set ss name s') rest
      | _ => exitsDuringWait ss rest
      end
    | None => exitsDuringWait ss rest
    end
  end.

(** The timers fire in the order they were set, and the promise jobs a
    timer makes ready run before the next timer (Node.js 11 and later):
    the rest of [session.close()], then the rest of [closeSession]. *)
Definition afterTimers (ss : JsMap.t Session.t) : list Event :=
  flat_map (fun entry =>
              match paceOf (snd entry) with
              | AfterWait =>
                [SessionClosed (Session.name (snd entry)); SessionClosed (fst entry)]
              | _ => []
              end) ss.

(** [closeAll()]. No [closeSession] throws: every name in the snapshot
    of the keys is registered when its call looks it up. *)
Definition closeAll (m : t) (exits : list (jsstring * (Z * Z * Z)))
  : t * list Event :=
  (mk JsMap.empty None (config m) JsMap.empty JsMap.empty,
   closesStarted (sessions m) ++ firstJobs (sessions m)
   ++ secondJobs (sessions m) ++ exitsDuringWait (sessions m) exits
   ++ afterTimers (sessions m)).

Definition hasSession (m : t) (name : jsstring) : bool := JsMap.has (sessions m) name.
Definition getSessionCount (m : t) : Z := JsMap.size (sessions m).

(** [getSessionChatId(sessionName)] *)
Definition getSessionChatId (m : t) (sessionName : jsstring) : option jsstring :=
  option_map fst
    (find (fun entry => JsSet.has (snd entry) sessionName) (chatSessions m)).

(** What the application can do with a manager: call its methods, and
    use a session object it handed out (or have that session's process
    produce output, go idle or exit). *)
Inductive op :=
| CreateSession (name workDir chatId : jsstring) (cliTool : option jsstring)
                (launch : Launch)
| SetChatActiveSession (chatId name : jsstring)
| AddSessionToChat (name chatId : jsstring)
| RestartSession (name : jsstring) (launch : Launch)
| CloseSession (name : jsstring) (shutdown : Shutdown)
| CloseChatSessions (chatId : jsstring) (shutdowns : jsstring -> Shutdown)
| CloseAll (exits : list (jsstring * (Z * Z * Z)))
| UpdateConfig (config : Config.App)
| OnSession (name : jsstring) (o : Session.op).

Definition step (m : t) (o : op) (now : Z) : t :=
  match o with
  | CreateSession name workDir chatId cliTool launch =>
    snd (fst (createSession m name workDir chatId cliTool launch now))
  | SetChatActiveSession chatId name => snd (fst (setChatActiveSession m chatId name))
  | AddSessionToChat name chatId => snd (addSessionToChat m name chatId)
  | RestartSession name launch => snd (fst (restartSession m name launch now))
  | CloseSession name shutdown => snd (fst (closeSession m name shutdown))
  | CloseChatSessions chatId shutdowns =>
    snd (fst (closeChatSessions m chatId shutdowns))
  | CloseAll exits => fst (closeAll m exits)
  | UpdateConfig config => updateConfig m config
  | OnSession name o =>
    match JsMap.get (sessions m) name with
    | Some session =>
      withSessions m (JsMap.set (sessions m) name (Session.step session o now))
    | None => m
    end
  end.

Definition run (config : Config.App) (history : list (op * Z)) : t :=
  fold_left (fun m '(o, now) => step m o now) history (new config).

(** [session.getInfo().status] of a registered session. *)
Definition statusOf (m : t) (name : jsstring) : option SessionStatus.t :=
  option_map Session.status (JsMap.get (sessions m) name).

(** The sessions bound to a chat. *)
Definition boundTo (m : t) (chatId : jsstring) : list jsstring :=
  match JsMap.get (chatSessions m) chatId with
  | Some set => JsSet.toArray set
  | None => []
  end.

End SessionManager.

(* ================================================================== *)
(** * Part II. The vocabulary of the properties

    Predicates on states that the theorems are stated with, and the
    concrete states and chunks that they are tried on. *)
(* ================================================================== *)

Module OutputBufferSpec.
Import OutputBuffer.

(** A block of 65437 characters: with the 100 of overhead its estimated
    size is one more than the default cap of 65536. *)
Definition oversized : OutputBlock :=
  createOutputBlock OutputType.NORMAL (repeat 120%N (N.to_nat 65437)) 0.

End OutputBufferSpec.

Module SessionSpec.
Import Session.

(** The half of the invariant that holds: a waiting session has a record. *)
Definition waitingHasPending (s : t) : Prop :=
  status s = SessionStatus.WAITING_CONFIRM -> pendingConfirm s <> None.

(** The options of a session of the default configuration. *)
Definition demoOptions : Options :=
  {| optName := js "a"; optWorkDir := js "/work"; bufferSize := 65536;
     optSkipPermissions := None; optExtraArgs := None;
     optMessageFilters := None; optMessageFilterEnabled := None;
     optMessageFilterMinLength := None |}.

(** The units that the parser makes of the chunk "[Y/N]". *)
Definition askYN : list OutputBlock := OutputParser.parse (js "[Y/N]") 10 10.

(** The session is started and its process prints "[Y/N]". *)
Definition waiting : list (op * Z) :=
  (Start (js "claude") (js "claude") [] Survives, 1)
    :: List.map (fun b => (Output b, 10)) askYN.

End SessionSpec.

Module SessionManagerSpec.
Import SessionManager.

(** The default configuration ([DEFAULT_CONFIG] of core/config.ts, as far
    as the manager reads it). *)
Definition demoConfig : Config.App :=
  {| Config.cli :=
       Some {| Config.default := Some (js "claude");
               Config.env := None;
               Config.skipPermissions := Some false;
               Config.messageFilters := None;
               Config.claude :=
                 Some {| Config.executable := Some (js "claude");
                         Config.toolSkipPermissions := None;
                         Config.extraArgs := None |};
               Config.opencode :=
                 Some {| Config.executable := Some (js "opencode");
                         Config.toolSkipPermissions := None;
                         Config.extraArgs := None |} |};
     Config.session :=
       {| Config.maxSessions := 10; Config.bufferSize := 65536;
          Config.messageFilter :=
            Some {| Config.enabled := true; Config.minLength := 5 |} |} |}.

(** Session "a" is created for chat "c1", and its process later exits
    with code 1. *)
Definition crashed : t :=
  run demoConfig
      [(CreateSession (js "a") (js "/work") (js "c1") None Survives, 1);
       (OnSession (js "a") (Session.ProcessExit 1 0), 2)].

(** The session object registered as "a" in [crashed]. *)
Definition crashedSession : Session.t :=
  match getSession crashed (js "a") with
  | Some s => s
  | None => Session.new SessionSpec.demoOptions 0
  end.

(** A registry of capacity one that holds session "a". *)
Definition full : t :=
  updateConfig crashed
    {| Config.cli := Config.cli demoConfig;
       Config.session := {| Config.maxSessions := 1; Config.bufferSize := 65536;
                            Config.messageFilter := None |} |}.

(** Chat "c1" gets the sessions "a" and "b", "b" being the active one
    as the last created; chat "c2" gets "c" alone. *)
Definition twoChats : list (op * Z) :=
  [(CreateSession (js "a") (js "/work/a") (js "c1") None Survives, 1);
   (CreateSession (js "b") (js "/work/b") (js "c1") None Survives, 2);
   (CreateSession (js "c") (js "/work/c") (js "c2") None Survives, 3)].

(** The active session of chat [c] once [name] has been unbound from the
    chats [chats], [active] being the map before. *)
Definition activeAfter (name : jsstring) (chats : JsMap.t JsSet.t)
           (active : JsMap.t jsstring) (c : jsstring) : option jsstring :=
  match JsMap.get active c with
  | None => None
  | Some n =>
    if JS.eqb n name then
      match JsMap.get chats c with
      | Some set => hd_error (JsSet.delete set name)
      | None => Some n
      end
    else Some n
  end.

(** The launch of a session as [createSession] performs it for a session
    asked for with the tool [cliTool]: the session's [start] with the
    tool that [cliTool] names (the configured default when it names
    none), that tool's executable and the configured environment. *)
Definition originalLaunch (config : Config.App) (cliTool : option jsstring)
           (s : Session.t) (launch : Launch) (now : Z)
  : result * Session.t * list Event :=
  let tool := toolOf config cliTool in
  Session.start s tool (executableOf config tool) (cliEnv config) launch now.

(** The active session of a chat is one of the sessions bound to it. *)
Definition activeIsBound (m : t) : Prop :=
  forall c n,
    JsMap.get (chatActiveSession m) c = Some n ->
    exists set, JsMap.get (chatSessions m) c = Some set /\ In n set.

End SessionManagerSpec.

Module OutputParserSpec.
Import JS Regex OutputParser.

(** A unit made from an interactive selection is recognised by the
    confirmation id that [detectInteractiveSelect] gives it. *)
Definition isInteractiveUnit (b : OutputBlock) : bool :=
  match confirmId b with
  | Some i => startsWith i (js "interactive_")
  | None => false
  end.

(** [lines.join('\n')] *)
Fixpoint join_nl (lines : list jsstring) : jsstring :=
  match lines with
  | [] => []
  | [l] => l
  | l :: rest => l ++ nl ++ join_nl rest
  end.

(** A line holds no line feed. *)
Definition singleLine (l : jsstring) : bool := negb (existsb (N.eqb 10) l).

(** A line that is blank or is neither an arrow line nor a numbered one. *)
Definition plainLine (l : jsstring) : bool :=
  negb (truthy (trim l))
  || negb (matches arrowPattern (trim l)) && negb (matches numberedPattern (trim l)).

(** A line fit to be the prompt: not blank, and not itself an option. *)
Definition promptLine (l : jsstring) : bool :=
  truthy (trim l)
  && negb (matches arrowPattern (trim l)) && negb (matches numberedPattern (trim l)).

(** A line that adds no option once an arrow has been seen: blank, or
    neither an arrow line nor a numbered one and, when indented by two or
    more, a hint line. *)
Definition inertLine (l : jsstring) : bool :=
  negb (truthy (trim l))
  || negb (matches arrowPattern (trim l)) && negb (matches numberedPattern (trim l))
     && negb (matches indented l && negb (test flag_i hintLine (trim l))).

(** A prompt in bold type, the two options, a blank line and the line
    of key hints. *)
Definition proceedPrompt : jsstring :=
  [27%N] ++ js "[1mDo you want to proceed?" ++ [27%N] ++ js "[0m" ++ nl
  ++ js "❯ Yes, proceed" ++ nl
  ++ js "  No, abort" ++ nl
  ++ nl
  ++ js "Enter to confirm · Esc to cancel".

(** The two options above a free-text-input hint. *)
Definition cyclePrompt : jsstring :=
  js "❯ Yes, proceed" ++ nl ++ js "  No, abort" ++ nl
  ++ js "(shift+tab to cycle)".

End OutputParserSpec.

Module SessionIOSpec.
Import Session.

(** What has been written to the terminal of the session's adapter, if
    the session holds an adapter that holds a terminal. *)
Definition terminal (s : t) : option (list jsstring) :=
  match adapter s with
  | Some a => Adapter.pty a
  | None => None
  end.

(** The writes that a list of inputs amounts to: each input, then a
    carriage return. *)
Definition terminated (inputs : list jsstring) : list jsstring :=
  flat_map (fun input => [input; Adapter.CR]) inputs.

(** [sendInput] called for each input of a list, at the given times. *)
Definition sendInputs (s : t) (inputs : list (jsstring * Z)) : t :=
  fold_left (fun s '(input, now) => snd (sendInput s input now)) inputs s.

(** A session started under the claude adapter whose process is up. *)
Definition started : t :=
  run SessionSpec.demoOptions 0
      [(Start (js "claude") (js "claude") [] Survives, 1)].

End SessionIOSpec.

Module RegistrySpec.
Import SessionManager.

(** [getActiveSession()] *)
Definition getActiveSession (m : t) : option Session.t :=
  match activeSession m with
  | Some (c :: r) => JsMap.get (sessions m) (c :: r)
  | _ => None
  end.

(** The shape of the manager's maps: a [Map] has each key once and a
    [Set] each element once; the sessions bound to a chat are registered;
    so is the session that is globally active. *)
Definition wellFormed (m : t) : Prop :=
  NoDup (JsMap.keys (sessions m)) /\
  NoDup (JsMap.keys (chatSessions m)) /\
  NoDup (JsMap.keys (chatActiveSession m)) /\
  Forall (fun entry => NoDup (snd entry)) (chatSessions m) /\
  (forall c n, In n (boundTo m c) -> JsMap.has (sessions m) n = true) /\
  (forall n, activeSession m = Some n -> JsMap.has (sessions m) n = true).

(** [m'] routes as [m] does, and differs from it at most in the state of
    the session [name]. *)
Definition sameRouting (name : jsstring) (m m' : t) : Prop :=
  chatSessions m' = chatSessions m /\
  chatActiveSession m' = chatActiveSession m /\
  activeSession m' = activeSession m /\
  getSessionChatId m' = getSessionChatId m /\
  (forall n, hasSession m' n = hasSession m n) /\
  (forall n, n <> name -> getSession m' n = getSession m n).

(** Two chats and three sessions, as [SessionManagerSpec.twoChats],
    and then session "c" of chat "c2" is also bound to chat "c1". *)
Definition shared : t :=
  run SessionManagerSpec.demoConfig
      (SessionManagerSpec.twoChats ++ [(AddSessionToChat (js "c") (js "c1"), 4)]).

(** Every registered session carries the name it is registered under. *)
Definition namesAgree (m : t) : Prop :=
  forall n s, JsMap.get (sessions m) n = Some s -> Session.name s = n.

(** The two SessionClosed events of each close: the session's own and the
    manager's. *)
Definition closedTwice (names : list jsstring) : list Event :=
  flat_map (fun n => [SessionClosed n; SessionClosed n]) names.

(** The SessionClosed events among the events of a call. *)
Definition isSessionClosed (e : Event) : bool :=
  match e with
  | SessionClosed _ => true
  | _ => false
  end.

(** The session registered as [n] holds an adapter. *)
Definition holdsAdapter (m : t) (n : jsstring) : bool :=
  match JsMap.get (sessions m) n with
  | Some s => match Session.adapter s with Some _ => true | None => false end
  | None => false
  end.

(** The session registered as [n] holds an adapter with a terminal: a
    [close] of it waits for the process. *)
Definition holdsTerminal (m : t) (n : jsstring) : bool :=
  match JsMap.get (sessions m) n with
  | Some s =>
    match SessionIOSpec.terminal s with Some _ => true | None => false end
  | None => false
  end.

End RegistrySpec.

Module StripAnsiSpec.
Import JS Regex OutputParser.

(** The characters of the class [[\x00-\x08\x0b\x0c\x0e-\x1f]] that
    [stripAnsi] removes last; the escape character is one of them. *)
Definition isControl (c : char16) : bool :=
  (between 0 8 c || (c =? 11) || (c =? 12) || between 14 31 c)%N.

(** Text without control characters. *)
Definition plain (text : jsstring) : Prop :=
  Forall (fun c => isControl c = false) text.

(** A pattern whose first item is the literal character [c]. *)
Fixpoint beginsWith (c : char16) (r : re) : bool :=
  match r with
  | Chr c' => (c' =? c)%N
  | Seq r1 _ => beginsWith c r1
  | Group _ r1 => beginsWith c r1
  | _ => false
  end.

(** Text in which the character [c] does not occur. *)
Definition without (c : char16) (text : jsstring) : Prop :=
  Forall (fun x => x <> c) text.

(** Text made of white space only. *)
Definition blank (text : jsstring) : bool := forallb isSpace text.

End StripAnsiSpec.

Module InteractiveResponseSpec.
Import JS.

(** Lower-casing of the ASCII letters, for the examples. *)
Definition asciiLower (s : jsstring) : jsstring :=
  List.map (fun c => if ((65 <=? c) && (c <=? 90))%N then (c + 32)%N else c) s.

(** The first character, if any, is not a digit. *)
Definition endsNumber (rest : jsstring) : bool :=
  match rest with
  | [] => true
  | c :: _ => negb (isDigit c)
  end.

End InteractiveResponseSpec.

Module ClaudeOutputSpec.

(** The options of an adapter with no filter list and the defaults. *)
Definition defaults : Adapter.Options :=
  {| Adapter.executable := js "claude";
     Adapter.cwd := js "/work";
     Adapter.env := [];
     Adapter.skipPermissions := false;
     Adapter.extraArgs := [];
     Adapter.messageFilters := None;
     Adapter.messageFilterEnabled := None;
     Adapter.messageFilterMinLength := None |}.

End ClaudeOutputSpec.

Module MessageHistorySpec.
Import MessageHistoryManager.

(** The number of records held, over a list of histories. *)
Definition recordCount (l : list ChatHistory.t) : Z :=
  fold_right (fun history total =>
                Z.of_nat (List.length (ChatHistory.records history)) + total)
             0 l.

(** Every chat is in the map once, under the id its history carries. *)
Definition wellKeyed (hs : JsMap.t ChatHistory.t) : Prop :=
  NoDup (JsMap.keys hs) /\
  Forall (fun entry => ChatHistory.chatId (snd entry) = fst entry) hs.

(** Every chat in the map holds at least one record and at most [cap]. *)
Definition withinCap (cap : Z) (hs : JsMap.t ChatHistory.t) : Prop :=
  Forall (fun entry =>
            1 <= Z.of_nat (List.length (ChatHistory.records (snd entry))) <= cap)
         hs.

(** The number of records of one history, and of the chat [k]. *)
Definition len (h : ChatHistory.t) : Z :=
  Z.of_nat (List.length (ChatHistory.records h)).

Definition lenAt (hs : JsMap.t ChatHistory.t) (k : jsstring) : Z :=
  match JsMap.get hs k with
  | Some h => len h
  | None => 0
  end.

(** The invariant of the manager. *)
Definition bounded (m : t) : Prop :=
  wellKeyed (histories m) /\
  getTotalRecordCount m <= Z.max 0 (maxTotalRecords (config m)) /\
  (0 < maxRecordsPerChat (config m) ->
   withinCap (maxRecordsPerChat (config m)) (histories m)).

(** A user message, for the examples. *)
Definition hello (chat : string) : IncomingMessage.t :=
  {| IncomingMessage.chatId := js chat;
     IncomingMessage.userId := js "u1";
     IncomingMessage.content := js "hello";
     IncomingMessage.type := MessageType.TEXT;
     IncomingMessage.messageId := None;
     IncomingMessage.timestamp := 0 |}.

End MessageHistorySpec.

(* ================================================================== *)
(** * Part III. Properties *)
(* ================================================================== *)

Module OutputBufferFacts.
Import OutputBuffer OutputBufferSpec.

Lemma sizeOf_app l1 l2 : sizeOf (l1 ++ l2) = sizeOf l1 + sizeOf l2.
Proof.
  induction l1 as [|x l1 IH]; simpl; [reflexivity|].
  fold (sizeOf (l1 ++ l2)) (sizeOf l1). rewrite IH. lia.
Qed.

Lemma estimateSize_ge block : 100 <= estimateSize block.
Proof. unfold estimateSize, JS.length. lia. Qed.

Lemma sizeOf_nonneg l : 0 <= sizeOf l.
Proof.
  induction l as [|x l IH]; simpl; [lia|].
  fold (sizeOf l). pose proof (estimateSize_ge x). lia.
Qed.

(** What the eviction loop does, provided the running total is the sum of
    the sizes held: it splits the buffer into an evicted prefix and a kept
    suffix, the total follows, the loop stops because the block fits or
    nothing is left, and it evicted nothing it did not have to. *)
Lemma evict_spec bs cap buf :
  let '(kept, total) := evict bs cap buf (sizeOf buf) in
  exists evicted,
    buf = evicted ++ kept /\
    total = sizeOf kept /\
    (sizeOf kept + bs <= cap \/ kept = []) /\
    (forall e pre, evicted = pre ++ [e] -> sizeOf (e :: kept) + bs > cap).
Proof.
  induction buf as [|x buf IH]; simpl.
  - exists []. repeat split; auto.
    intros e pre H. destruct pre; discriminate.
  - fold (sizeOf buf).
    destruct (estimateSize x + sizeOf buf + bs >? cap) eqn:E.
    + replace (estimateSize x + sizeOf buf - estimateSize x) with (sizeOf buf) by lia.
      destruct (evict bs cap buf (sizeOf buf)) as [kept total].
      destruct IH as (ev & Hb & Ht & Hs & Hm).
      exists (x :: ev). subst buf. repeat split; auto.
      intros e pre H.
      destruct pre as [|p pre]; simpl in H.
      * injection H as -> Hev. subst ev. simpl in *.
        fold (sizeOf kept). apply Z.gtb_lt in E. lia.
      * injection H as _ Hev. apply (Hm e pre Hev).
    + exists []. simpl. fold (sizeOf buf). repeat split; auto.
      * left. rewrite Z.gtb_ltb, Z.ltb_ge in E. lia.
      * intros e pre H. destruct pre; discriminate.
Qed.

(** The bookkeeping field [totalSize] is the sum of the sizes held, and
    the cap never changes. *)
Lemma run_invariant cap ops :
  totalSize (run cap ops) = sizeOf (buffer (run cap ops)) /\
  maxSize (run cap ops) = cap.
Proof.
  unfold run. induction ops as [|o ops IH] using rev_ind; simpl; auto.
  rewrite fold_left_app. simpl.
  destruct IH as [Ht Hm].
  set (b := fold_left step ops (new cap)) in *.
  destruct o; simpl; auto.
  unfold append. rewrite Ht.
  pose proof (evict_spec (estimateSize block) (maxSize b) (buffer b)) as H.
  destruct (evict _ _ _ _) as [kept total].
  destruct H as (ev & _ & Htot & _). simpl.
  rewrite sizeOf_app. simpl. split; [lia | assumption].
Qed.

(** C1, as stated, fails: appending one block whose estimated size exceeds
    the cap to the fresh buffer leaves a total above the cap. *)
Lemma append_oversized_exceeds_cap :
  ~ (totalSize (run 65536 [Append oversized]) <= 65536) /\
  ~ (sizeOf (buffer (run 65536 [Append oversized])) <= 65536).
Proof. split; vm_compute; intro H; apply H; reflexivity. Qed.

(** C1, amended. After any run of operations on a buffer of cap [cap],
    [append] keeps the bookkeeping total equal to the sum of the sizes
    held; the blocks it drops are a prefix of the old buffer (oldest
    first) and none is dropped that did not have to be; the total stays
    within the cap whenever the appended block alone fits within it; and a
    block that alone exceeds the cap empties the buffer and is then held
    alone. *)
Theorem append_evicts_oldest_first cap ops block :
  let b := run cap ops in
  let b' := append b block in
  totalSize b' = sizeOf (buffer b') /\
  (exists evicted kept,
      buffer b = evicted ++ kept /\
      buffer b' = kept ++ [block] /\
      (forall e pre, evicted = pre ++ [e] ->
                     sizeOf (e :: kept) + estimateSize block > cap)) /\
  (estimateSize block <= cap -> totalSize b' <= cap) /\
  (cap < estimateSize block ->
     buffer b' = [block] /\ totalSize b' = estimateSize block).
Proof.
  intros b b'. subst b'. unfold append.
  destruct (run_invariant cap ops) as [Ht Hm]. fold b in Ht, Hm.
  rewrite Ht, Hm.
  pose proof (evict_spec (estimateSize block) cap (buffer b)) as H.
  destruct (evict _ _ _ _) as [kept total].
  destruct H as (ev & Hb & Htot & Hstop & Hmin). simpl. subst total.
  pose proof (sizeOf_nonneg kept) as Hk.
  repeat split.
  - rewrite sizeOf_app. simpl. lia.
  - exists ev, kept. auto.
  - intros Hfit. destruct Hstop as [Hstop | ->]; simpl; lia.
  - destruct Hstop as [Hstop | ->]; [lia | reflexivity].
  - destruct Hstop as [Hstop | ->]; simpl; lia.
Qed.

End OutputBufferFacts.

Module SessionFacts.
Import Session SessionSpec.

(** Whatever total it starts from, the eviction loop returns a suffix of
    the buffer. *)
Lemma evict_suffix bs cap buf total :
  exists evicted,
    buf = evicted ++ fst (OutputBuffer.evict bs cap buf total).
Proof.
  revert total. induction buf as [|x buf IH]; intros total; simpl.
  - exists []. reflexivity.
  - destruct (total + bs >? cap).
    + destruct (IH (total - OutputBuffer.estimateSize x)) as [ev Hev].
      exists (x :: ev). simpl. congruence.
    + exists []. reflexivity.
Qed.

Lemma append_suffix b block :
  exists evicted kept,
    OutputBuffer.buffer b = evicted ++ kept /\
    OutputBuffer.buffer (OutputBuffer.append b block) = kept ++ [block].
Proof.
  unfold OutputBuffer.append.
  destruct (evict_suffix (OutputBuffer.estimateSize block) (OutputBuffer.maxSize b)
                         (OutputBuffer.buffer b) (OutputBuffer.totalSize b))
    as [ev Hev].
  destruct (OutputBuffer.evict _ _ _ _) as [kept total]; simpl in *.
  exists ev, kept. auto.
Qed.

(** C4. For any session and any exit notification: the adapter reference
    is cleared; with exit code 0 the status becomes [IDLE] and the buffer
    is untouched; with any other code the status becomes [ERROR] and the
    buffer is the old one (less what the cap evicts from its front)
    followed by one new block, of type [ERROR]. *)
Theorem handleExit_sets_status_and_buffers_error s code signal now :
  let s' := fst (handleExit s code signal now) in
  adapter s' = None /\
  if code =? 0
  then status s' = SessionStatus.IDLE /\ buffer s' = buffer s
  else status s' = SessionStatus.ERROR /\
       exists evicted kept errorBlock,
         OutputBuffer.buffer (buffer s) = evicted ++ kept /\
         OutputBuffer.buffer (buffer s') = kept ++ [errorBlock] /\
         errorBlock = createOutputBlock OutputType.ERROR (exitMessage code) now /\
         type errorBlock = OutputType.ERROR.
Proof.
  unfold handleExit; simpl. split; [reflexivity|].
  destruct (code =? 0); simpl.
  - split; reflexivity.
  - split; [reflexivity|].
    destruct (append_suffix (buffer s)
                (createOutputBlock OutputType.ERROR (exitMessage code) now))
      as (ev & kept & H1 & H2).
    exists ev, kept, (createOutputBlock OutputType.ERROR (exitMessage code) now).
    auto.
Qed.

Ltac split_cases :=
  repeat match goal with
         | |- context [match ?x with _ => _ end] => destruct x eqn:?; simpl in *
         | |- context [if ?x then _ else _] => destruct x eqn:?; simpl in *
         end.

Lemma step_keeps_waitingHasPending s o now :
  waitingHasPending s -> waitingHasPending (step s o now).
Proof.
  unfold waitingHasPending. intros H.
  destruct o; simpl;
    unfold start, startAdapter, sendInput, processInputQueue, sendRawInput,
           sendConfirmResponse, getBufferedOutput, close, handleOutput,
           handleExit, handleIdle, OutputBuffer.fetchAndClear;
    simpl;
    try match goal with |- context [type ?b] => destruct (type b) end;
    simpl; split_cases; simpl; try assumption; try discriminate;
    try (intros _; discriminate);
    try (intros Hw; specialize (H Hw); congruence);
    try (intros Hw; congruence);
    try (intros _; apply H; reflexivity).
Qed.

Lemma run_waitingHasPending o created history :
  waitingHasPending (run o created history).
Proof.
  unfold run. induction history as [|[op now] history IH] using rev_ind; simpl.
  - unfold waitingHasPending; simpl; discriminate.
  - rewrite fold_left_app. simpl. apply step_keeps_waitingHasPending, IH.
Qed.

(** C2, as stated, fails: a session that is waiting for a confirmation
    when its process exits keeps the record, with status [ERROR]; the
    same happens with status [PROCESSING] when input is sent instead. *)
Lemma pending_confirm_outlives_waiting :
  let s := run demoOptions 0 (waiting ++ [(ProcessExit 1 0, 20)]) in
  let s' := run demoOptions 0 (waiting ++ [(SendInput (js "hello"), 20)]) in
  ~ (pendingConfirm s <> None <-> status s = SessionStatus.WAITING_CONFIRM) /\
  ~ (pendingConfirm s' <> None <-> status s' = SessionStatus.WAITING_CONFIRM).
Proof.
  split; vm_compute; intros [H _];
    (assert (Hs : forall A (x : A), Some x <> None) by discriminate);
    specialize (H (Hs _ _)); discriminate H.
Qed.

(** C2, amended. In every state a session reaches, status
    [WAITING_CONFIRM] implies that a pending confirmation is held;
    handling a [CONFIRM] block sets both; a confirm response that is
    sent clears the record and makes the status [PROCESSING] (and a
    response that throws changes nothing); process exit, [sendInput] and
    [close] leave the record as it is. *)
Theorem waiting_confirm_has_pending o created history :
  let s := run o created history in
  (status s = SessionStatus.WAITING_CONFIRM -> pendingConfirm s <> None) /\
  (forall block now,
      type block = OutputType.CONFIRM ->
      let s' := fst (handleOutput s block now) in
      status s' = SessionStatus.WAITING_CONFIRM /\ pendingConfirm s' <> None) /\
  (forall response now,
      match sendConfirmResponse s response now with
      | (Ok, s', _) =>
        pendingConfirm s' = None /\
        (pendingConfirm s <> None -> status s' = SessionStatus.PROCESSING)
      | (Throw _, s', _) => s' = s
      end) /\
  (forall code signal now,
      pendingConfirm (fst (handleExit s code signal now)) = pendingConfirm s) /\
  (forall input now,
      pendingConfirm (snd (sendInput s input now)) = pendingConfirm s) /\
  (forall shutdown,
      pendingConfirm (fst (close s shutdown)) = pendingConfirm s).
Proof.
  assert (Hexit : forall s code signal now,
             pendingConfirm (fst (handleExit s code signal now)) = pendingConfirm s).
  { intros s0 code signal now. unfold handleExit. destruct (code =? 0); reflexivity. }
  intros s. split; [apply run_waitingHasPending|].
  split; [|split; [|split; [|split]]].
  - intros block now Hty. unfold handleOutput. rewrite Hty. simpl.
    split; [reflexivity | discriminate].
  - intros response now. unfold sendConfirmResponse.
    destruct (pendingConfirm s) eqn:Hp; simpl.
    + destruct (adapter s) as [a|]; simpl.
      * destruct (Adapter.sendConfirmResponse a response); simpl; auto.
      * auto.
    + split; [assumption | intros H; congruence].
  - intros code signal now. apply Hexit.
  - intros input now. unfold sendInput, processInputQueue.
    split_cases; reflexivity.
  - intros shutdown. unfold close.
    destruct (adapter s) as [a|]; [|reflexivity].
    destruct (Adapter.pty a); [|reflexivity].
    destruct shutdown as [code signal at_|]; [|reflexivity].
    specialize (Hexit s code signal at_).
    destruct (handleExit s code signal at_) as [s1 evs]. exact Hexit.
Qed.

(** The invariant at work: after the chunk "[Y/N]" the session waits,
    and holds the options of the prompt. *)
Lemma waiting_confirm_has_pending_witness :
  status (run demoOptions 0 waiting) = SessionStatus.WAITING_CONFIRM /\
  pendingConfirm (run demoOptions 0 waiting) <> None.
Proof.
  assert (H : status (run demoOptions 0 waiting) = SessionStatus.WAITING_CONFIRM)
    by reflexivity.
  split; [exact H|].
  exact (proj1 (waiting_confirm_has_pending demoOptions 0 waiting) H).
Defined.

End SessionFacts.

Module JsMapFacts.

Lemma eqb_refl a : JS.eqb a a = true.
Proof. induction a as [|x a IH]; simpl; [reflexivity|]. now rewrite N.eqb_refl. Qed.

Lemma eqb_eq a b : JS.eqb a b = true <-> a = b.
Proof.
  split; [|intros ->; apply eqb_refl].
  revert b. induction a as [|x a IH]; destruct b as [|y b]; simpl;
    try discriminate; auto.
  intros H. apply andb_prop in H. destruct H as [Hx Hr].
  apply N.eqb_eq in Hx. f_equal; auto.
Qed.

Lemma eqb_neq a b : JS.eqb a b = false <-> a <> b.
Proof.
  split.
  - intros H E. apply eqb_eq in E. congruence.
  - intros H. destruct (JS.eqb a b) eqn:E; [apply eqb_eq in E; contradiction | reflexivity].
Qed.

Lemma eqb_sym a b : JS.eqb a b = JS.eqb b a.
Proof.
  destruct (JS.eqb a b) eqn:E.
  - apply eqb_eq in E. subst. symmetry. apply eqb_refl.
  - symmetry. apply eqb_neq. apply eqb_neq in E. congruence.
Qed.

Section Lookup.
Context {V : Type}.
Implicit Types (m : JsMap.t V) (k : jsstring) (v : V).

Lemma get_set_same m k v : JsMap.get (JsMap.set m k v) k = Some v.
Proof.
  induction m as [|[k' v'] m IH]; simpl.
  - now rewrite eqb_refl.
  - destruct (JS.eqb k' k) eqn:E; simpl; rewrite E; auto.
Qed.

Lemma get_set_other m k k' v :
  k <> k' -> JsMap.get (JsMap.set m k v) k' = JsMap.get m k'.
Proof.
  intros Hne. induction m as [|[k0 v0] m IH]; simpl.
  - apply eqb_neq in Hne. now rewrite Hne.
  - destruct (JS.eqb k0 k) eqn:E; simpl.
    + apply eqb_eq in E. subst k0.
      apply eqb_neq in Hne. now rewrite Hne.
    + now rewrite IH.
Qed.

Lemma get_delete_same m k : JsMap.get (JsMap.delete m k) k = None.
Proof.
  induction m as [|[k0 v0] m IH]; simpl; [reflexivity|].
  destruct (JS.eqb k0 k) eqn:E; simpl; [assumption|].
  now rewrite E.
Qed.

Lemma get_delete_other m k k' :
  k <> k' -> JsMap.get (JsMap.delete m k) k' = JsMap.get m k'.
Proof.
  intros Hne. induction m as [|[k0 v0] m IH]; simpl; [reflexivity|].
  destruct (JS.eqb k0 k) eqn:E; simpl.
  - apply eqb_eq in E. subst k0.
    apply eqb_neq in Hne. now rewrite Hne.
  - now rewrite IH.
Qed.

End Lookup.
End JsMapFacts.

Module JsSetFacts.
Import JsMapFacts.

Lemma has_In s x : JsSet.has s x = true <-> In x s.
Proof.
  unfold JsSet.has. rewrite existsb_exists. split.
  - intros (y & Hy & E). apply eqb_eq in E. now subst.
  - intros H. exists x. split; [assumption | apply eqb_refl].
Qed.

Lemma In_add_same s x : In x (JsSet.add s x).
Proof.
  unfold JsSet.add. destruct (JsSet.has s x) eqn:E.
  - now apply has_In.
  - apply in_or_app. right. now left.
Qed.

Lemma In_add_old s x y : In y s -> In y (JsSet.add s x).
Proof.
  unfold JsSet.add. destruct (JsSet.has s x); auto.
  intros H. apply in_or_app. now left.
Qed.

Lemma In_delete s n x : In x (JsSet.delete s n) <-> In x s /\ x <> n.
Proof.
  unfold JsSet.delete. rewrite filter_In. split; intros [H1 H2]; split; auto.
  - apply eqb_neq. now destruct (JS.eqb x n).
  - apply eqb_neq in H2. now rewrite H2.
Qed.

End JsSetFacts.

Module SessionManagerFacts.
Import SessionManager SessionManagerSpec JsMapFacts JsSetFacts.

(** C3, as stated, fails: a session in status [ERROR] is restarted, the
    new process exits during the warm-up, and [restartSession] throws. *)
Lemma restart_fails_when_process_exits_again :
  statusOf crashed (js "a") = Some SessionStatus.ERROR /\
  fst (fst (restartSession crashed (js "a") (ExitsDuringWarmup 1 0) 3))
    = Throw (StartupFailure 1).
Proof. split; vm_compute; reflexivity. Qed.

(** [createSession], once past its two guards, launches the session it
    has registered by [originalLaunch]. *)
Lemma createSession_runs_originalLaunch m name workDir chatId cliTool launch now :
  (JsMap.size (sessions m) >=? Config.maxSessions (Config.session (config m)))
    = false ->
  JsMap.has (sessions m) name = false ->
  let session :=
    Session.new (sessionOptions (config m) name workDir (toolOf (config m) cliTool))
                now in
  let started := originalLaunch (config m) cliTool session launch now in
  fst (fst (createSession m name workDir chatId cliTool launch now))
    = fst (fst started) /\
  getSession (snd (fst (createSession m name workDir chatId cliTool launch now))) name
    = Some (snd (fst started)).
Proof.
  intros Hroom Hfresh session started. subst started session.
  unfold createSession, originalLaunch, getSession. rewrite Hroom, Hfresh.
  match goal with
  | |- context [Session.start ?s ?a ?b ?c ?d ?e] =>
    destruct (Session.start s a b c d e) as [[r s'] evs]
  end.
  destruct r; cbn [fst snd withSessions sessions]; split;
    try reflexivity; apply get_set_same.
Qed.

(** C3, amended. For a registered session: when its status is not
    [ERROR], [restartSession] throws RestartRejected and the manager is
    unchanged. When its status is [ERROR] and the tool [cliTool] it was
    created for is the one the configuration names as default,
    [restartSession] is the launch that [createSession] performed,
    [originalLaunch], and returns what that returns: it succeeds, with
    status [IDLE], when the session holds no adapter and the process
    survives the warm-up; and it throws StartupFailure, with status
    [ERROR], when the process of the claude adapter exits during it. *)
Theorem restartSession_only_from_error m name s cliTool launch now :
  JsMap.get (sessions m) name = Some s ->
  let out := restartSession m name launch now in
  let tool := toolOf (config m) cliTool in
  (Session.status s <> SessionStatus.ERROR ->
     out = (Throw (RestartRejected name), m, [])) /\
  (Session.status s = SessionStatus.ERROR ->
   tool = toolOf (config m) None ->
     let started := originalLaunch (config m) cliTool s launch now in
     out = (fst (fst started),
            withSessions m (JsMap.set (sessions m) name (snd (fst started))),
            snd started) /\
     (Session.adapter s = None ->
      tool = js "claude" \/ tool = js "opencode" ->
      launch = Survives ->
      fst (fst out) = Ok /\
      statusOf (snd (fst out)) name = Some SessionStatus.IDLE) /\
     (Session.adapter s = None ->
      tool = js "claude" ->
      forall code signal,
        launch = ExitsDuringWarmup code signal ->
        fst (fst out) = Throw (StartupFailure code) /\
        statusOf (snd (fst out)) name = Some SessionStatus.ERROR)).
Proof.
  intros Hget out tool. subst out. unfold restartSession. rewrite Hget.
  split.
  - intros Hst. destruct (Session.status s); try reflexivity. contradiction.
  - intros Hst Hdefault. rewrite Hst. unfold originalLaunch. fold tool.
    rewrite <- Hdefault.
    destruct (Session.start s tool (executableOf (config m) tool)
                            (cliEnv (config m)) launch now)
      as [[r s'] evs] eqn:Hstart.
    simpl. split; [reflexivity|].
    unfold statusOf; simpl. rewrite get_set_same. simpl.
    unfold Session.start in Hstart.
    split.
    + intros Had Htool ->. rewrite Had in Hstart.
      destruct Htool as [Ht | Ht]; rewrite Ht in Hstart;
        vm_compute in Hstart; injection Hstart as <- <- _; auto.
    + intros Had Ht code signal ->. rewrite Had, Ht in Hstart.
      simpl in Hstart. injection Hstart as <- <- _. auto.
Qed.

(** The crashed session "a", created for the default tool, is restarted
    and its process stays up. *)
Lemma restartSession_only_from_error_witness :
  fst (fst (restartSession crashed (js "a") Survives 3)) = Ok /\
  statusOf (snd (fst (restartSession crashed (js "a") Survives 3))) (js "a")
    = Some SessionStatus.IDLE.
Proof.
  destruct (restartSession_only_from_error crashed (js "a") crashedSession None
              Survives 3 eq_refl) as [_ H].
  destruct (H eq_refl eq_refl) as (_ & Hok & _).
  apply Hok; [reflexivity | left; reflexivity | reflexivity].
Defined.

(** Two further ways in which a restart from status [ERROR] does not
    bring the session back as it was created; the amended claim leaves
    both out. When the first start failed in spawning, the session still
    holds the adapter it created, and [start] refuses to run again. *)
Lemma restart_after_spawn_failure_is_refused :
  let m := run demoConfig
               [(CreateSession (js "a") (js "/work") (js "c1") None SpawnThrows, 1)] in
  statusOf m (js "a") = Some SessionStatus.ERROR /\
  fst (fst (restartSession m (js "a") Survives 2)) = Throw AlreadyStarted.
Proof. split; vm_compute; reflexivity. Qed.

(** And [restartSession] drops the [cliTool ||] of [createSession]: a
    session created for the tool "opencode" comes back under the
    configured default tool, here "claude". *)
Lemma restart_launches_the_default_tool :
  let created :=
    run demoConfig
        [(CreateSession (js "a") (js "/work") (js "c1") (Some (js "opencode"))
                        Survives, 1)] in
  let restarted :=
    step (step created (OnSession (js "a") (Session.ProcessExit 1 0)) 2)
         (RestartSession (js "a") Survives) 3 in
  option_map Adapter.kind
             (match getSession created (js "a") with
              | Some s => Session.adapter s
              | None => None
              end) = Some Adapter.OpenCode /\
  option_map Adapter.kind
             (match getSession restarted (js "a") with
              | Some s => Session.adapter s
              | None => None
              end) = Some Adapter.Claude.
Proof. split; vm_compute; reflexivity. Qed.

(** C8. With room left in the registry, [createSession] under a name
    that is already registered throws AlreadyExists, and the manager (its
    three maps and the sessions in them) is exactly what it was. *)
Theorem createSession_duplicate_name m name workDir chatId cliTool launch now :
  JsMap.has (sessions m) name = true ->
  JsMap.size (sessions m) < Config.maxSessions (Config.session (config m)) ->
  createSession m name workDir chatId cliTool launch now
    = (Throw (AlreadyExists name), m, []).
Proof.
  intros Hhas Hroom. unfold createSession.
  replace (JsMap.size (sessions m) >=? _) with false
    by (symmetry; rewrite Z.geb_leb; apply Z.leb_gt; exact Hroom).
  now rewrite Hhas.
Qed.

Lemma createSession_duplicate_name_witness :
  createSession crashed (js "a") (js "/other") (js "c2") None Survives 3
    = (Throw (AlreadyExists (js "a")), crashed, []).
Proof.
  apply createSession_duplicate_name; [reflexivity | vm_compute; reflexivity].
Defined.

(** C10. With the registry at (or above) the configured maximum,
    [createSession] throws CapacityExceeded whatever the name, a
    registered one included, and the manager is exactly what it was. *)
Theorem createSession_full_registry m name workDir chatId cliTool launch now :
  Config.maxSessions (Config.session (config m)) <= JsMap.size (sessions m) ->
  createSession m name workDir chatId cliTool launch now
    = (Throw (CapacityExceeded (Config.maxSessions (Config.session (config m)))),
       m, []).
Proof.
  intros Hfull. unfold createSession.
  replace (JsMap.size (sessions m) >=? _) with true
    by (symmetry; rewrite Z.geb_leb; apply Z.leb_le; exact Hfull).
  reflexivity.
Qed.

Lemma createSession_full_registry_witness :
  JsMap.has (sessions full) (js "a") = true /\
  createSession full (js "a") (js "/work") (js "c1") None Survives 3
    = (Throw (CapacityExceeded 1), full, []).
Proof.
  split; [reflexivity|].
  apply (createSession_full_registry full (js "a")). vm_compute. discriminate.
Defined.

(** *** Closing a session *)

(** What the loop of [closeSession] leaves in the two chat maps. *)
Lemma unbind_chats name chats active c :
  JsMap.get (fst (unbind name chats active)) c
    = option_map (fun set => JsSet.delete set name) (JsMap.get chats c).
Proof.
  revert active. induction chats as [|[chatId set] rest IH]; intros active; simpl.
  - reflexivity.
  - match goal with
    | |- context [unbind name rest ?a] =>
      specialize (IH a); destruct (unbind name rest a) as [rest' active'']
    end.
    simpl in *. destruct (JS.eqb chatId c); auto.
Qed.

Lemma hd_delete_neq set name first rest :
  JsSet.delete set name = first :: rest -> JS.eqb first name = false.
Proof.
  intros H. apply eqb_neq.
  assert (Hin : In first (JsSet.delete set name)) by (rewrite H; now left).
  now apply In_delete in Hin.
Qed.

Lemma unbind_active name chats active c :
  JsMap.get (snd (unbind name chats active)) c = activeAfter name chats active c.
Proof.
  revert active. induction chats as [|[chatId set] rest IH]; intros active.
  - simpl. unfold activeAfter. simpl.
    destruct (JsMap.get active c) as [n|]; [|reflexivity].
    now destruct (JS.eqb n name).
  - simpl.
    match goal with
    | |- context [unbind name rest ?a] =>
      specialize (IH a); destruct (unbind name rest a) as [rest' active'']
    end.
    simpl in *. rewrite IH. clear IH. unfold activeAfter. simpl.
    destruct (JS.eqb chatId c) eqn:Ec.
    + apply eqb_eq in Ec. subst c.
      destruct (JsMap.get active chatId) as [n|] eqn:Hact.
      * destruct (JS.eqb n name) eqn:En.
        -- unfold JsSet.toArray.
           destruct (JsSet.delete set name) as [|first others] eqn:Hdel.
           ++ now rewrite get_delete_same.
           ++ rewrite get_set_same.
              now rewrite (hd_delete_neq _ _ _ _ Hdel).
        -- rewrite Hact. now rewrite En.
      * now rewrite Hact.
    + assert (Hne : chatId <> c) by now apply eqb_neq.
      destruct (JsMap.get active chatId) as [n|] eqn:Hact; [|reflexivity].
      destruct (JS.eqb n name); [|reflexivity].
      unfold JsSet.toArray.
      destruct (JsSet.delete set name) as [|first others].
      * now rewrite (get_delete_other _ _ _ Hne).
      * now rewrite (get_set_other _ _ _ _ Hne).
Qed.

(** [closeSession] on a registered name, spelled out. *)
Lemma closeSession_maps m name m' evs {shutdown} :
  closeSession m name shutdown = (Ok, m', evs) ->
  sessions m' = JsMap.delete (sessions m) name /\
  chatSessions m' = fst (unbind name (chatSessions m) (chatActiveSession m)) /\
  chatActiveSession m' = snd (unbind name (chatSessions m) (chatActiveSession m)).
Proof.
  unfold closeSession.
  destruct (JsMap.get (sessions m) name) as [session|]; [|discriminate].
  destruct (Session.close session shutdown) as [closed closing].
  destruct (unbind name (chatSessions m) (chatActiveSession m)) as [chats active].
  simpl. destruct (activeSession m) as [a|]; [destruct (JS.eqb a name)|];
    intros H; injection H as <- _; simpl; auto.
Qed.

Lemma closeSession_throw_unchanged m name e m' evs {shutdown} :
  closeSession m name shutdown = (Throw e, m', evs) -> m' = m.
Proof.
  unfold closeSession.
  destruct (JsMap.get (sessions m) name) as [session|].
  - destruct (Session.close session shutdown) as [closed closing].
    destruct (unbind name (chatSessions m) (chatActiveSession m)).
    simpl. discriminate.
  - intros H. now injection H as _ <- _.
Qed.

(** *** The invariant of the chat maps *)

Lemma activeIsBound_maps m m' :
  chatSessions m' = chatSessions m ->
  chatActiveSession m' = chatActiveSession m ->
  activeIsBound m -> activeIsBound m'.
Proof.
  unfold activeIsBound. intros Hc Ha H c n. rewrite Hc, Ha. apply H.
Qed.

Lemma closeSession_keeps_activeIsBound m name shutdown :
  activeIsBound m -> activeIsBound (snd (fst (closeSession m name shutdown))).
Proof.
  intros Hinv.
  destruct (closeSession m name shutdown) as [[r m'] evs] eqn:Hclose. simpl.
  destruct r as [|e].
  - apply closeSession_maps in Hclose. destruct Hclose as (_ & Hc & Ha).
    intros c n. rewrite Hc, Ha, unbind_active, unbind_chats.
    unfold activeAfter.
    destruct (JsMap.get (chatActiveSession m) c) as [n0|] eqn:Hact; [|discriminate].
    destruct (Hinv c n0 Hact) as (set & Hset & Hin). rewrite Hset. simpl.
    destruct (JS.eqb n0 name) eqn:En.
    + intros Hhd. exists (JsSet.delete set name). split; [reflexivity|].
      destruct (JsSet.delete set name); [discriminate|].
      injection Hhd as ->. now left.
    + intros Hn. injection Hn as <-.
      exists (JsSet.delete set name). split; [reflexivity|].
      apply In_delete. split; [assumption | now apply eqb_neq].
  - apply closeSession_throw_unchanged in Hclose. now subst.
Qed.

Lemma closeEach_keeps_activeIsBound names shutdowns m :
  activeIsBound m -> activeIsBound (snd (fst (closeEach m names shutdowns))).
Proof.
  revert m. induction names as [|name names IH]; intros m Hinv; simpl; auto.
  pose proof (closeSession_keeps_activeIsBound m name (shutdowns name) Hinv) as H1.
  destruct (closeSession m name (shutdowns name)) as [[r m1] evs1]. simpl in H1.
  destruct r; [|assumption].
  specialize (IH m1 H1).
  destruct (closeEach m1 names shutdowns) as [[r2 m2] evs2]. assumption.
Qed.

Lemma step_keeps_activeIsBound m o now :
  activeIsBound m -> activeIsBound (step m o now).
Proof.
  intros Hinv. destruct o; simpl.
  - (* createSession *)
    unfold createSession.
    destruct (_ >=? _); [assumption|].
    destruct (JsMap.has (sessions m) name); [assumption|].
    match goal with
    | |- context [Session.start ?s ?a ?b ?c ?d ?e] =>
      destruct (Session.start s a b c d e) as [[r s'] evs]
    end.
    assert (Hgoal : forall ss,
      activeIsBound
        (withSessions
           {| sessions := JsMap.set (sessions m) name
                (Session.new (sessionOptions (config m) name workDir
                                (toolOf (config m) cliTool)) now);
              activeSession := Some name;
              config := config m;
              chatSessions :=
                match JsMap.get (if JsMap.has (chatSessions m) chatId
                                 then chatSessions m
                                 else JsMap.set (chatSessions m) chatId JsSet.empty)
                                chatId with
                | Some set =>
                  JsMap.set (if JsMap.has (chatSessions m) chatId
                             then chatSessions m
                             else JsMap.set (chatSessions m) chatId JsSet.empty)
                            chatId (JsSet.add set name)
                | None => if JsMap.has (chatSessions m) chatId
                          then chatSessions m
                          else JsMap.set (chatSessions m) chatId JsSet.empty
                end;
              chatActiveSession := JsMap.set (chatActiveSession m) chatId name |}
           ss)).
    { intros ss c n. simpl.
      set (chats1 := if JsMap.has (chatSessions m) chatId then chatSessions m
                     else JsMap.set (chatSessions m) chatId JsSet.empty).
      assert (H1 : exists set0, JsMap.get chats1 chatId = Some set0 /\
                                forall x, In x (boundTo m chatId) -> In x set0).
      { subst chats1. unfold JsMap.has, boundTo.
        destruct (JsMap.get (chatSessions m) chatId) as [set0|] eqn:E.
        - exists set0. rewrite E. auto.
        - exists JsSet.empty. rewrite get_set_same. split; [reflexivity|].
          intros x []. }
      assert (H2 : forall c', chatId <> c' ->
                              JsMap.get chats1 c' = JsMap.get (chatSessions m) c').
      { intros c' Hne. subst chats1.
        destruct (JsMap.has (chatSessions m) chatId); [reflexivity|].
        now apply get_set_other. }
      destruct H1 as (set0 & Hset0 & Hold). rewrite Hset0.
      destruct (JS.eqb chatId c) eqn:Ec.
      - apply eqb_eq in Ec. subst c. rewrite !get_set_same.
        intros Hn. injection Hn as <-.
        exists (JsSet.add set0 name). split; [reflexivity | apply In_add_same].
      - apply eqb_neq in Ec.
        rewrite (get_set_other _ _ _ _ Ec), (get_set_other _ _ _ _ Ec), (H2 _ Ec).
        apply Hinv. }
    destruct r; simpl; apply Hgoal.
  - (* setChatActiveSession *)
    unfold setChatActiveSession.
    destruct (negb (JsMap.has (sessions m) name)); [assumption|].
    destruct (JsMap.get (chatSessions m) chatId) as [set|] eqn:Hset; [|assumption].
    destruct (JsSet.has set name) eqn:Hhas; [|assumption].
    simpl. intros c n. simpl.
    destruct (JS.eqb chatId c) eqn:Ec.
    + apply eqb_eq in Ec. subst c. rewrite get_set_same.
      intros Hn. injection Hn as <-. exists set. split; [assumption|].
      now apply has_In.
    + apply eqb_neq in Ec. rewrite (get_set_other _ _ _ _ Ec). apply Hinv.
  - (* addSessionToChat *)
    unfold addSessionToChat.
    destruct (negb (JsMap.has (sessions m) name)); [assumption|].
    simpl. intros c n. simpl. intros Hact.
    destruct (Hinv c n Hact) as (set & Hset & Hin).
    destruct (JS.eqb chatId c) eqn:Ec.
    + apply eqb_eq in Ec. subst c. rewrite get_set_same, Hset.
      eexists. split; [reflexivity|]. now apply In_add_old.
    + apply eqb_neq in Ec. rewrite (get_set_other _ _ _ _ Ec). eauto.
  - (* restartSession *)
    unfold restartSession.
    destruct (JsMap.get (sessions m) name) as [s|]; [|assumption].
    destruct (Session.status s); try assumption.
    destruct (Session.start _ _ _ _ _ _) as [[r s'] evs]. simpl.
    eapply activeIsBound_maps; [| |exact Hinv]; reflexivity.
  - (* closeSession *)
    now apply closeSession_keeps_activeIsBound.
  - (* closeChatSessions *)
    unfold closeChatSessions.
    destruct (JsMap.get (chatSessions m) chatId) as [set|]; [|assumption].
    pose proof (closeEach_keeps_activeIsBound (JsSet.toArray set) shutdowns m Hinv) as H.
    destruct (closeEach m (JsSet.toArray set) shutdowns) as [[r m'] evs]. simpl in H.
    destruct r; [|assumption].
    simpl. intros c n. simpl.
    destruct (JS.eqb chatId c) eqn:Ec.
    + apply eqb_eq in Ec. subst c. rewrite get_delete_same. discriminate.
    + apply eqb_neq in Ec.
      rewrite (get_delete_other _ _ _ Ec), (get_delete_other _ _ _ Ec). apply H.
  - (* closeAll *)
    unfold closeAll. cbn [fst]. intros c n. simpl. discriminate.
  - (* updateConfig *)
    eapply activeIsBound_maps; [| |exact Hinv]; reflexivity.
  - (* a session operation *)
    destruct (JsMap.get (sessions m) name); [|assumption].
    eapply activeIsBound_maps; [| |exact Hinv]; reflexivity.
Qed.

Lemma run_activeIsBound config history : activeIsBound (run config history).
Proof.
  unfold run. induction history as [|[o now] history IH] using rev_ind; simpl.
  - intros c n. simpl. discriminate.
  - rewrite fold_left_app. simpl. now apply step_keeps_activeIsBound.
Qed.

(** C9. In a state the manager reaches, let [name] be the active session
    of chat [chatId] and let [closeSession name] succeed. Afterwards the
    sessions bound to the chat are the former ones without [name], in
    their order; if any is left, the first of them is the chat's active
    session, otherwise the chat has none; and [name] is bound to no chat,
    active for no chat, and no longer registered. *)
Theorem closeSession_promotes_or_clears
        config history name chatId shutdown m' evs :
  let m := run config history in
  JsMap.get (chatActiveSession m) chatId = Some name ->
  closeSession m name shutdown = (Ok, m', evs) ->
  let remaining := JsSet.delete (boundTo m chatId) name in
  boundTo m' chatId = remaining /\
  (remaining <> [] ->
     exists promoted,
       JsMap.get (chatActiveSession m') chatId = Some promoted /\
       In promoted (boundTo m' chatId) /\ promoted <> name /\
       hd_error remaining = Some promoted) /\
  (remaining = [] -> JsMap.get (chatActiveSession m') chatId = None) /\
  (forall c, ~ In name (boundTo m' c)) /\
  (forall c, JsMap.get (chatActiveSession m') c <> Some name) /\
  getSession m' name = None.
Proof.
  intros m Hactive Hclose remaining.
  pose proof (run_activeIsBound config history) as Hinv. fold m in Hinv.
  apply closeSession_maps in Hclose. destruct Hclose as (Hs & Hc & Ha).
  assert (Hbound : forall c, boundTo m' c = JsSet.delete (boundTo m c) name).
  { intros c. unfold boundTo. rewrite Hc, unbind_chats.
    now destruct (JsMap.get (chatSessions m) c). }
  assert (Hact : JsMap.get (chatActiveSession m') chatId = hd_error remaining).
  { rewrite Ha, unbind_active. unfold activeAfter. rewrite Hactive, eqb_refl.
    destruct (Hinv _ _ Hactive) as (set & Hset & _).
    subst remaining. unfold boundTo. now rewrite Hset. }
  split; [apply Hbound|].
  split; [|split; [|split; [|split]]].
  - intros Hne. destruct remaining as [|first others] eqn:Hrem; [contradiction|].
    exists first. rewrite Hact, Hbound. fold remaining. rewrite Hrem.
    split; [reflexivity|]. split; [now left|]. split; [|reflexivity].
    apply eqb_neq. subst remaining. eapply hd_delete_neq. eassumption.
  - intros Hnil. rewrite Hact, Hnil. reflexivity.
  - intros c Hin. rewrite Hbound in Hin. apply In_delete in Hin.
    now destruct Hin.
  - intros c Hc'. rewrite Ha, unbind_active in Hc'. unfold activeAfter in Hc'.
    destruct (JsMap.get (chatActiveSession m) c) as [n|] eqn:Hn; [|discriminate].
    destruct (JS.eqb n name) eqn:En.
    + destruct (Hinv _ _ Hn) as (set & Hset & _). rewrite Hset in Hc'.
      destruct (JsSet.delete set name) as [|first others] eqn:Hdel; [discriminate|].
      simpl in Hc'. injection Hc' as ->.
      apply hd_delete_neq in Hdel. now rewrite eqb_refl in Hdel.
    + injection Hc' as ->. now rewrite eqb_refl in En.
  - unfold getSession. rewrite Hs. apply get_delete_same.
Qed.

(** Closing "b" promotes "a" in chat "c1"; closing "c" leaves chat "c2"
    without an active session. *)
Lemma closeSession_promotes_or_clears_witness :
  JsMap.get (chatActiveSession
               (snd (fst (closeSession (run demoConfig twoChats) (js "b")
                                       (ExitsOnClose 0 15 5)))))
            (js "c1") = Some (js "a") /\
  JsMap.get (chatActiveSession
               (snd (fst (closeSession (run demoConfig twoChats) (js "c")
                                       OutlivesClose))))
            (js "c2") = None.
Proof.
  split.
  - destruct (closeSession (run demoConfig twoChats) (js "b") (ExitsOnClose 0 15 5))
      as [[r m'] evs] eqn:E.
    assert (Hr : r = Ok) by (vm_compute in E; now injection E as <- _ _).
    subst r.
    destruct (closeSession_promotes_or_clears demoConfig twoChats (js "b") (js "c1")
                (ExitsOnClose 0 15 5) m' evs eq_refl E) as (_ & Hpromote & _).
    destruct Hpromote as (p & Hp & _ & _ & Hhd); [vm_compute; discriminate|].
    simpl. rewrite Hp. vm_compute in Hhd. now injection Hhd as <-.
  - destruct (closeSession (run demoConfig twoChats) (js "c") OutlivesClose)
      as [[r m'] evs] eqn:E.
    assert (Hr : r = Ok) by (vm_compute in E; now injection E as <- _ _).
    subst r.
    destruct (closeSession_promotes_or_clears demoConfig twoChats (js "c") (js "c2")
                OutlivesClose m' evs eq_refl E) as (_ & _ & Hclear & _).
    simpl. apply Hclear. reflexivity.
Defined.

End SessionManagerFacts.

Module OutputParserFacts.
Import JS Regex OutputParser OutputParserSpec.

(** C5. The chunk "[Y/N]" is classified as exactly one unit, a [CONFIRM]
    whose options are "Y" and "N"; the chunk "[2-4]" as exactly one unit,
    a [CONFIRM] whose options are "2", "3" and "4", in this order. *)
Theorem parse_bracketed_confirm now stamp :
  parse (js "[Y/N]") now stamp
    = [ {| type := OutputType.CONFIRM;
           content := js "[Y/N]";
           timestamp := stamp;
           requiresConfirm := Some true;
           confirmOptions := Some [js "Y"; js "N"];
           confirmId := Some (js "confirm_" ++ ofZ now) |} ] /\
  parse (js "[2-4]") now stamp
    = [ {| type := OutputType.CONFIRM;
           content := js "[2-4]";
           timestamp := stamp;
           requiresConfirm := Some true;
           confirmOptions := Some [js "2"; js "3"; js "4"];
           confirmId := Some (js "confirm_" ++ ofZ now) |} ].
Proof. split; vm_compute; reflexivity. Qed.

Lemma detectConfirmPrompt_id data now opts i :
  detectConfirmPrompt data now = Some (opts, i) -> i = js "confirm_" ++ ofZ now.
Proof.
  unfold detectConfirmPrompt.
  repeat match goal with
         | |- context [if ?c then _ else _] => destruct c
         | |- context [match exec ?f ?r ?s with _ => _ end] => destruct (exec f r s)
         end;
    intros H; try discriminate; now injection H as _ <-.
Qed.

(** What a successful detection guarantees, read off its last test. *)
Lemma detectInteractiveSelect_Some data now sel :
  detectInteractiveSelect data now = Some sel ->
  isInputSuggestion (stripAnsi data) = false /\
  options sel
    = scanOptions (scanLines (hasConfirmHint (stripAnsi data)) []
                             (split_nl (stripAnsi data)) scanStart) /\
  2 <= Z.of_nat (List.length (options sel)) /\
  (hasConfirmHint (stripAnsi data) = true \/
   hasConfirmKeywords (options sel) = true) /\
  id sel = js "interactive_" ++ ofZ now.
Proof.
  unfold detectInteractiveSelect.
  destruct (isInputSuggestion (stripAnsi data)); [discriminate|].
  match goal with
  | |- context [if ?c then _ else _] => destruct c eqn:Hc
  end; [|discriminate].
  intros H. injection H as <-. cbn [options id].
  apply andb_prop in Hc. destruct Hc as [Hlen Hwhy].
  apply Z.leb_le in Hlen. apply orb_prop in Hwhy.
  repeat split; try assumption; reflexivity.
Qed.

Lemma parse_interactive data now stamp sel :
  detectInteractiveSelect data now = Some sel ->
  parse data now stamp
    = [createBlock OutputType.CONFIRM (formatInteractiveSelect sel) stamp
                   (Some (options sel, id sel))].
Proof. intros H. unfold parse. rewrite H. reflexivity. Qed.

(** When the detector returns nothing, none of the units is an
    interactive selection: a bracketed confirmation is named
    "confirm_...", and the other units have no confirmation id. *)
Lemma parse_without_selection data now stamp :
  detectInteractiveSelect data now = None ->
  forall b, In b (parse data now stamp) -> isInteractiveUnit b = false.
Proof.
  intros Hnone b. unfold parse. rewrite Hnone.
  destruct (detectConfirmPrompt data now) as [[opts i]|] eqn:Hc.
  - intros [<- | []]. apply detectConfirmPrompt_id in Hc. subst i.
    unfold isInteractiveUnit, createBlock. cbn [confirmId option_map snd].
    vm_compute. reflexivity.
  - destruct (truthy (trim (stripAnsi data))).
    + intros [<- | []]. unfold isInteractiveUnit, createBlock.
      cbn [confirmId option_map]. reflexivity.
    + intros [].
Qed.

(** C6. For every chunk: a unit that [parse] emits is an interactive
    selection only if the detector collected at least two options (the
    unit's options) and either a hint phrase occurs in the normalised
    text or one of the options contains a confirm/cancel keyword; and
    when the normalised text contains a free-text-input hint, the detector
    returns nothing and no unit of the chunk is an interactive
    selection. *)
Theorem interactive_select_needs_two_options_and_a_reason data now stamp :
  (forall b,
      In b (parse data now stamp) -> isInteractiveUnit b = true ->
      exists sel,
        detectInteractiveSelect data now = Some sel /\
        parse data now stamp = [b] /\
        confirmOptions b = Some (options sel) /\
        options sel
          = scanOptions (scanLines (hasConfirmHint (stripAnsi data)) []
                                   (split_nl (stripAnsi data)) scanStart) /\
        2 <= Z.of_nat (List.length (options sel)) /\
        (hasConfirmHint (stripAnsi data) = true \/
         existsb (test flag_i confirmKeyword) (options sel) = true)) /\
  (isInputSuggestion (stripAnsi data) = true ->
     detectInteractiveSelect data now = None /\
     forall b, In b (parse data now stamp) -> isInteractiveUnit b = false).
Proof.
  split.
  - intros b Hin Hint.
    destruct (detectInteractiveSelect data now) as [sel|] eqn:Hsel.
    + exists sel.
      destruct (detectInteractiveSelect_Some _ _ _ Hsel)
        as (_ & Hopts & Hlen & Hwhy & _).
      rewrite (parse_interactive _ _ _ _ Hsel) in *.
      destruct Hin as [<- | []].
      split; [reflexivity|]. split; [reflexivity|].
      split; [reflexivity|].
      split; [exact Hopts|]. split; [exact Hlen | exact Hwhy].
    + rewrite (parse_without_selection _ _ _ Hsel b Hin) in Hint. discriminate.
  - intros Hsug.
    assert (Hnone : detectInteractiveSelect data now = None).
    { unfold detectInteractiveSelect. now rewrite Hsug. }
    split; [exact Hnone | exact (parse_without_selection _ _ _ Hnone)].
Qed.

(** *** An arrow selection, line by line *)

Lemma split_nl_single l : singleLine l = true -> split_nl l = [l].
Proof.
  unfold singleLine. induction l as [|c l IH]; [reflexivity|].
  cbn [existsb split_nl app]. destruct (N.eqb 10 c) eqn:E; cbn [orb negb].
  - discriminate.
  - intros H. rewrite N.eqb_sym, E. now rewrite (IH H).
Qed.

Lemma split_nl_app l rest :
  singleLine l = true -> split_nl (l ++ nl ++ rest) = l :: split_nl rest.
Proof.
  unfold singleLine. induction l as [|c l IH]; [reflexivity|].
  cbn [existsb split_nl app]. destruct (N.eqb 10 c) eqn:E; cbn [orb negb].
  - discriminate.
  - intros H. rewrite N.eqb_sym, E. now rewrite (IH H).
Qed.

Lemma split_join lines :
  lines <> [] -> forallb singleLine lines = true ->
  split_nl (join_nl lines) = lines.
Proof.
  induction lines as [|l lines IH]; [contradiction|].
  intros _ H. simpl in H. apply andb_prop in H. destruct H as [Hl Hrest].
  destruct lines as [|l' lines].
  - simpl. now apply split_nl_single.
  - change (join_nl (l :: l' :: lines)) with (l ++ nl ++ join_nl (l' :: lines)).
    rewrite (split_nl_app _ _ Hl). f_equal. apply IH; [discriminate | assumption].
Qed.

Lemma matches_false r s : matches r s = false -> exec noFlags r s = None.
Proof. unfold matches, test. now destruct (exec noFlags r s). Qed.

Lemma scanLine_plain hint prev l st :
  foundArrow st = false -> plainLine l = true -> scanLine hint prev l st = st.
Proof.
  intros Hfa Hplain. unfold scanLine, plainLine in *.
  destruct (truthy (trim l)); [|reflexivity].
  simpl in Hplain. apply andb_prop in Hplain. destruct Hplain as [Ha Hn].
  apply negb_true_iff in Ha, Hn.
  cbn [negb]. rewrite (matches_false _ _ Ha), Hfa, (matches_false _ _ Hn).
  now destruct hint.
Qed.

Lemma scanLines_plain hint before rest prev st :
  foundArrow st = false -> forallb plainLine before = true ->
  scanLines hint prev (before ++ rest) st
    = scanLines hint (rev before ++ prev) rest st.
Proof.
  revert prev. induction before as [|l before IH]; intros prev Hfa Hall.
  - reflexivity.
  - simpl in Hall. apply andb_prop in Hall. destruct Hall as [Hl Hall].
    cbn [app scanLines rev]. rewrite (scanLine_plain _ _ _ _ Hfa Hl).
    rewrite (IH (l :: prev) Hfa Hall). now rewrite <- app_assoc.
Qed.

Lemma scanLine_inert hint prev l st :
  foundArrow st = true -> inertLine l = true -> scanLine hint prev l st = st.
Proof.
  intros Hfa Hinert. unfold scanLine, inertLine in *.
  destruct (truthy (trim l)); [|reflexivity].
  simpl in Hinert. apply andb_prop in Hinert. destruct Hinert as [Han Hi].
  apply andb_prop in Han. destruct Han as [Ha Hn].
  apply negb_true_iff in Ha, Hn, Hi.
  cbn [negb andb]. cbn [andb] in Hi.
  rewrite (matches_false _ _ Ha), Hfa, (matches_false _ _ Hn), Hi.
  cbn [negb andb]. now rewrite andb_false_r.
Qed.

Lemma scanLines_inert hint lines prev st :
  foundArrow st = true -> forallb inertLine lines = true ->
  scanLines hint prev lines st = st.
Proof.
  revert prev. induction lines as [|l lines IH]; intros prev Hfa Hall.
  - reflexivity.
  - simpl in Hall. apply andb_prop in Hall. destruct Hall as [Hl Hall].
    cbn [scanLines]. rewrite (scanLine_inert _ _ _ _ Hfa Hl). now apply IH.
Qed.

Lemma findPrompt_nearest p prev :
  promptLine p = true -> findPrompt (p :: prev) = trim p.
Proof. intros H. cbn [findPrompt]. unfold promptLine in H. now rewrite H. Qed.

(** The arrow line opens the selection with its text as first option and
    the nearest preceding prompt line as prompt. *)
Lemma scanLine_yes hint prev :
  scanLine hint prev (js "❯ Yes, proceed") scanStart
    = {| scanOptions := [js "Yes, proceed"]; scanSelected := 0;
         promptText := findPrompt prev;
         foundInteractive := true; foundArrow := true |}.
Proof.
  unfold scanLine.
  replace (trim (js "❯ Yes, proceed")) with (js "❯ Yes, proceed")
    by (vm_compute; reflexivity).
  replace (truthy (js "❯ Yes, proceed")) with true by (vm_compute; reflexivity).
  cbn [negb].
  replace (exec noFlags arrowPattern (js "❯ Yes, proceed"))
    with (Some [(0%nat, js "❯ Yes, proceed"); (1%nat, js "Yes, proceed")])
    by (vm_compute; reflexivity).
  cbn [group Nat.eqb].
  replace (trim (js "Yes, proceed")) with (js "Yes, proceed")
    by (vm_compute; reflexivity).
  replace (exec noFlags numberPrefix (js "Yes, proceed")) with (@None captures)
    by (vm_compute; reflexivity).
  reflexivity.
Qed.

(** The indented line that follows adds its text as second option. *)
Lemma scanLine_no hint prev prompt :
  scanLine hint prev (js "  No, abort")
           {| scanOptions := [js "Yes, proceed"]; scanSelected := 0;
              promptText := prompt;
              foundInteractive := true; foundArrow := true |}
    = {| scanOptions := [js "Yes, proceed"; js "No, abort"]; scanSelected := 0;
         promptText := prompt;
         foundInteractive := true; foundArrow := true |}.
Proof.
  unfold scanLine.
  replace (trim (js "  No, abort")) with (js "No, abort")
    by (vm_compute; reflexivity).
  replace (truthy (js "No, abort")) with true by (vm_compute; reflexivity).
  cbn [negb andb].
  replace (exec noFlags arrowPattern (js "No, abort")) with (@None captures)
    by (vm_compute; reflexivity).
  cbn [foundArrow].
  replace (exec noFlags numberedPattern (js "No, abort")) with (@None captures)
    by (vm_compute; reflexivity).
  replace (matches indented (js "  No, abort")) with true
    by (vm_compute; reflexivity).
  replace (test flag_i hintLine (js "No, abort")) with false
    by (vm_compute; reflexivity).
  reflexivity.
Qed.

(** C7. Let the normalised text of a chunk consist of: any lines that
    are not options; a prompt line; the line "❯ Yes, proceed"; the line
    "  No, abort"; and any lines that add no option (such as a hint
    line); and let it contain no free-text-input hint. Then the chunk is
    classified as exactly one unit, a [CONFIRM] whose options are
    "Yes, proceed" and "No, abort" in this order, made from the
    selection whose prompt is the prompt line and whose highlighted
    option is the first. *)
Theorem parse_arrow_selection data before p trailing now stamp :
  stripAnsi data
    = join_nl (before ++ [p; js "❯ Yes, proceed"; js "  No, abort"] ++ trailing) ->
  forallb singleLine (before ++ [p] ++ trailing) = true ->
  forallb plainLine before = true ->
  promptLine p = true ->
  forallb inertLine trailing = true ->
  isInputSuggestion (stripAnsi data) = false ->
  let select :=
    {| id := js "interactive_" ++ ofZ now;
       prompt := trim p;
       options := [js "Yes, proceed"; js "No, abort"];
       selectedIndex := 0 |} in
  exists b,
    parse data now stamp = [b] /\
    type b = OutputType.CONFIRM /\
    confirmOptions b = Some [js "Yes, proceed"; js "No, abort"] /\
    b = createBlock OutputType.CONFIRM (formatInteractiveSelect select) stamp
                    (Some (options select, id select)).
Proof.
  intros Hclean Hsingle Hbefore Hprompt Htrailing Hsug select.
  assert (Hsel : detectInteractiveSelect data now = Some select).
  { unfold detectInteractiveSelect. rewrite Hsug, Hclean.
    rewrite split_join.
    - assert (Hplain : plainLine p = true).
      { unfold plainLine. unfold promptLine in Hprompt.
        apply andb_prop in Hprompt. destruct Hprompt as [Hp1 Hp2].
        apply andb_prop in Hp1. destruct Hp1 as [_ Hp1].
        rewrite Hp1, Hp2. apply orb_true_r. }
      set (hint := hasConfirmHint _).
      rewrite (scanLines_plain hint before); [|reflexivity|assumption].
      cbn [app scanLines].
      rewrite (scanLine_plain hint _ p scanStart); [|reflexivity|assumption].
      rewrite scanLine_yes, scanLine_no.
      rewrite scanLines_inert; [|reflexivity|assumption].
      rewrite (findPrompt_nearest _ _ Hprompt).
      cbn [scanOptions scanSelected promptText].
      replace (hasConfirmKeywords [js "Yes, proceed"; js "No, abort"]) with true
        by (vm_compute; reflexivity).
      rewrite orb_true_r.
      unfold promptLine in Hprompt. apply andb_prop in Hprompt.
      destruct Hprompt as [Hp _]. apply andb_prop in Hp. destruct Hp as [Hp _].
      rewrite Hp. reflexivity.
    - destruct before; discriminate.
    - rewrite forallb_app in *. cbn [forallb app] in *.
      apply andb_prop in Hsingle. destruct Hsingle as [H1 H2].
      apply andb_prop in H2. destruct H2 as [H2 H3].
      rewrite H1, H2, H3. reflexivity. }
  eexists. split; [apply (parse_interactive _ _ _ _ Hsel)|].
  repeat split.
Qed.

(** The chunk [proceedPrompt] has this shape. *)
Lemma parse_arrow_selection_witness :
  exists b,
    parse proceedPrompt 1700 1701 = [b] /\
    confirmOptions b = Some [js "Yes, proceed"; js "No, abort"].
Proof.
  destruct (parse_arrow_selection proceedPrompt []
              (js "Do you want to proceed?")
              [[]; js "Enter to confirm · Esc to cancel"] 1700 1701)
    as (b & Hb & _ & Hopts & _);
    try (vm_compute; reflexivity).
  exists b. split; assumption.
Defined.

(** The chunk [proceedPrompt] yields a unit that is an interactive
    selection, of two options; [cyclePrompt] shows the exclusion. *)
Lemma interactive_select_needs_two_options_and_a_reason_witness :
  (exists sel,
      detectInteractiveSelect proceedPrompt 1700 = Some sel /\
      2 <= Z.of_nat (List.length (options sel))) /\
  detectInteractiveSelect cyclePrompt 1700 = None.
Proof.
  split.
  - destruct (proj1 (interactive_select_needs_two_options_and_a_reason
                       proceedPrompt 1700 1701)
                    (hd (createBlock OutputType.NORMAL [] 0 None)
                        (parse proceedPrompt 1700 1701)))
      as (sel & Hsel & _ & _ & _ & Hlen & _).
    + vm_compute. left. reflexivity.
    + vm_compute. reflexivity.
    + exists sel. split; assumption.
  - apply (proj2 (interactive_select_needs_two_options_and_a_reason
                    cyclePrompt 1700 1701)).
    vm_compute. reflexivity.
Defined.

End OutputParserFacts.

(* ================================================================== *)
(** * Part IV. Further properties of the same code *)
(* ================================================================== *)

Module OutputBufferDrainFacts.
Import OutputBuffer OutputBufferFacts.

Lemma evict_nothing bs cap buf total :
  total + bs <= cap -> evict bs cap buf total = (buf, total).
Proof.
  intros H. destruct buf as [|x buf]; [reflexivity|].
  cbn [evict]. replace (total + bs >? cap) with false; [reflexivity|].
  symmetry. rewrite Z.gtb_ltb. apply Z.ltb_ge. exact H.
Qed.

Lemma appendAll_fits blocks :
  forall b,
    totalSize b = sizeOf (buffer b) ->
    sizeOf (buffer b) + sizeOf blocks <= maxSize b ->
    buffer (fold_left append blocks b) = buffer b ++ blocks /\
    totalSize (fold_left append blocks b) = sizeOf (buffer b ++ blocks) /\
    maxSize (fold_left append blocks b) = maxSize b.
Proof.
  induction blocks as [|blk blocks IH]; intros b Ht Hfit.
  - cbn [fold_left]. rewrite app_nil_r. auto.
  - cbn [fold_left]. cbn [sizeOf fold_right] in Hfit. fold (sizeOf blocks) in Hfit.
    pose proof (sizeOf_nonneg blocks) as Hnn.
    assert (Hone : append b blk
                   = {| buffer := buffer b ++ [blk];
                        totalSize := totalSize b + estimateSize blk;
                        maxSize := maxSize b |}).
    { unfold append. rewrite evict_nothing by lia. reflexivity. }
    rewrite Hone.
    match goal with |- context [fold_left append blocks ?x] => set (b1 := x) end.
    assert (Hb1 : buffer b1 = buffer b ++ [blk]) by reflexivity.
    destruct (IH b1) as (H1 & H2 & H3).
    + subst b1. cbn [totalSize buffer]. rewrite sizeOf_app, Ht.
      cbn [sizeOf fold_right]. lia.
    + rewrite Hb1, sizeOf_app. cbn [sizeOf fold_right]. subst b1.
      cbn [maxSize]. lia.
    + rewrite H1, H2, H3, Hb1, <- app_assoc. auto.
Qed.

(** X1. Blocks that fit beside what the buffer holds are all kept, in
    their order, and the next [fetchAndClear] hands out the whole content
    oldest first and leaves the buffer empty, with size 0. *)
Theorem fetchAndClear_returns_what_fits cap ops blocks :
  let b := run cap ops in
  sizeOf (buffer b ++ blocks) <= cap ->
  let b' := fold_left append blocks b in
  fst (fetchAndClear b') = buffer b ++ blocks /\
  getAll b' = buffer b ++ blocks /\
  isEmpty (snd (fetchAndClear b')) = true /\
  getSize (snd (fetchAndClear b')) = 0 /\
  fst (fetchAndClear (snd (fetchAndClear b'))) = [].
Proof.
  intros b Hfit b'.
  destruct (run_invariant cap ops) as [Ht Hm]. fold b in Ht, Hm.
  destruct (appendAll_fits blocks b Ht) as (H1 & _ & _).
  - rewrite Hm. rewrite sizeOf_app in Hfit. exact Hfit.
  - subst b'. unfold fetchAndClear, getAll, isEmpty, getSize.
    cbn [fst snd buffer totalSize]. rewrite H1. auto.
Qed.

Lemma fetchAndClear_returns_what_fits_witness :
  let blk := createOutputBlock OutputType.NORMAL (js "hello") 0 in
  fst (fetchAndClear (fold_left append [blk; blk] (run 65536 [Append blk])))
    = [blk; blk; blk].
Proof.
  intros blk.
  apply (fetchAndClear_returns_what_fits 65536 [Append blk] [blk; blk]).
  vm_compute. discriminate.
Defined.

Lemma sizeOf_length l : 100 * Z.of_nat (List.length l) <= sizeOf l.
Proof.
  induction l as [|x l IH]; [cbn; lia|].
  cbn [sizeOf fold_right List.length]. fold (sizeOf l).
  pose proof (estimateSize_ge x). lia.
Qed.

Lemma run_within_cap_or_single cap ops :
  sizeOf (buffer (run cap ops)) <= cap \/
  (List.length (buffer (run cap ops)) <= 1)%nat.
Proof.
  induction ops as [|o ops IH] using rev_ind.
  - right. cbn. lia.
  - unfold run in *. rewrite fold_left_app. cbn [fold_left].
    destruct (run_invariant cap ops) as [Ht Hm]. unfold run in Ht, Hm.
    set (b := fold_left step ops (new cap)) in *.
    destruct o; cbn [step fetchAndClear clear snd buffer List.length];
      [|right; lia|right; lia].
    unfold append. rewrite Ht, Hm.
    pose proof (evict_spec (estimateSize block) cap (buffer b)) as H.
    destruct (evict _ _ _ _) as [kept total].
    destruct H as (ev & _ & _ & [Hfit | ->] & _); cbn [buffer].
    + left. rewrite sizeOf_app. cbn [sizeOf fold_right]. lia.
    + right. cbn. lia.
Qed.

(** X2. In every state a buffer reaches: the size it reports is the sum
    of the estimated sizes of the blocks it holds; it is within the cap
    unless the buffer holds a single block; the number of blocks is at
    most the cap divided by the overhead of 100, and never forced below
    one; and the buffer is empty exactly when its size is 0. *)
Theorem buffer_size_and_length_bounds cap ops :
  let b := run cap ops in
  getSize b = sizeOf (buffer b) /\
  (getSize b <= cap \/ getLength b <= 1) /\
  getLength b <= Z.max 1 (cap / 100) /\
  (isEmpty b = true <-> getSize b = 0).
Proof.
  intros b. destruct (run_invariant cap ops) as [Ht _]. fold b in Ht.
  pose proof (run_within_cap_or_single cap ops) as Hcap. fold b in Hcap.
  pose proof (sizeOf_length (buffer b)) as Hlen.
  unfold getSize, getLength, isEmpty. rewrite Ht.
  split; [reflexivity|]. split; [|split].
  - destruct Hcap as [H | H]; [left; exact H | right; lia].
  - destruct Hcap as [H | H]; [|lia].
    assert (Z.of_nat (List.length (buffer b)) <= cap / 100).
    { apply Z.div_le_lower_bound; lia. }
    lia.
  - destruct (buffer b) as [|x l] eqn:E.
    + split; reflexivity.
    + split; [discriminate|]. intros H.
      cbn [List.length] in Hlen. lia.
Qed.

Lemma skipn_front {A} (l : list A) k :
  exists front, l = front ++ skipn k l.
Proof. exists (firstn k l). symmetry. apply firstn_skipn. Qed.

(** X3. [getLast n] for a positive [n] is the last [n] blocks of the
    buffer, or all of them when fewer are held; [getLast 0] is the whole
    buffer, not the empty list. *)
Theorem getLast_is_a_suffix b n :
  (0 < n ->
   exists front,
     buffer b = front ++ getLast b n /\
     Z.of_nat (List.length (getLast b n)) = Z.min n (getLength b)) /\
  getLast b 0 = buffer b.
Proof.
  unfold getLast, getLength. split.
  - intros Hn.
    destruct (n >=? Z.of_nat (List.length (buffer b))) eqn:E.
    + exists []. split; [reflexivity|]. rewrite Z.geb_leb in E.
      apply Z.leb_le in E. lia.
    + rewrite Z.geb_leb in E. apply Z.leb_gt in E.
      replace (n =? 0) with false by (symmetry; apply Z.eqb_neq; lia).
      replace (n <? 0) with false by (symmetry; apply Z.ltb_ge; lia).
      destruct (skipn_front (buffer b)
                  (Z.to_nat (Z.of_nat (List.length (buffer b)) - n)))
        as [front Hfront].
      exists front. split; [exact Hfront|].
      rewrite length_skipn. lia.
  - destruct (0 >=? Z.of_nat (List.length (buffer b))); reflexivity.
Qed.

Lemma getLast_is_a_suffix_witness :
  let b := run 65536 [Append (createOutputBlock OutputType.NORMAL (js "one") 0);
                      Append (createOutputBlock OutputType.NORMAL (js "two") 0);
                      Append (createOutputBlock OutputType.NORMAL (js "three") 0)] in
  0 < 2 /\
  exists front,
    buffer b = front ++ getLast b 2 /\
    Z.of_nat (List.length (getLast b 2)) = Z.min 2 (getLength b).
Proof.
  intros b. split; [lia|]. apply (proj1 (getLast_is_a_suffix b 2)). lia.
Defined.

End OutputBufferDrainFacts.

Module SessionIOFacts.
Import Session SessionIOSpec.

Lemma drainQueue_writes q :
  forall a w,
    Adapter.pty a = Some w ->
    exists a',
      drainQueue a q = Some a' /\
      Adapter.pty a' = Some (w ++ terminated q) /\
      Adapter.kind a' = Adapter.kind a /\
      Adapter.options a' = Adapter.options a.
Proof.
  induction q as [|input q IH]; intros a w Hw.
  - exists a. cbn. rewrite app_nil_r. auto.
  - cbn [drainQueue]. unfold Adapter.sendInput, Adapter.write. rewrite Hw.
    match goal with |- context [drainQueue ?x q] => set (a1 := x) end.
    destruct (IH a1 (w ++ [input; Adapter.CR]) eq_refl) as (a' & H1 & H2 & H3 & H4).
    exists a'. rewrite H1, H2, H3, H4. cbn [terminated flat_map app].
    rewrite <- app_assoc. auto.
Qed.

(** One [sendInput] on a session with a terminal whose queue worker is
    not marked busy. *)
Lemma sendInput_writes s input now w :
  terminal s = Some w ->
  isProcessingInput s = false ->
  let s' := snd (sendInput s input now) in
  fst (sendInput s input now) = Ok /\
  terminal s' = Some (w ++ terminated (inputQueue s ++ [input])) /\
  inputQueue s' = [] /\
  isProcessingInput s' = false /\
  status s' = SessionStatus.PROCESSING /\
  buffer s' = buffer s /\ pendingConfirm s' = pendingConfirm s.
Proof.
  unfold terminal. intros Hw Hflag.
  destruct (adapter s) as [a|] eqn:Ha; [|discriminate].
  unfold sendInput. rewrite Ha. cbn [fst snd].
  unfold processInputQueue.
  cbn [isProcessingInput withInputQueue inputQueue]. rewrite Hflag.
  rewrite length_app. cbn [List.length orb].
  replace (0 <? Z.of_nat (List.length (inputQueue s) + 1)) with true
    by (symmetry; apply Z.ltb_lt; lia).
  cbn [negb]. cbn [adapter withInputQueue withIsProcessingInput withStatus
                   updateActiveTime inputQueue]. rewrite Ha.
  destruct (drainQueue_writes (inputQueue s ++ [input]) a w Hw)
    as (a' & H1 & H2 & _).
  rewrite H1. cbn. rewrite H2. auto 10.
Qed.

(** X4. On a session that holds a terminal and whose queue worker is
    idle, any sequence of [sendInput] calls returns normally and makes
    the terminal receive, after what it had received and after what was
    still queued, the inputs in the order of the calls, each followed by
    exactly one carriage return; nothing stays queued. *)
Theorem sendInput_preserves_order inputs :
  forall s w,
    terminal s = Some w ->
    isProcessingInput s = false ->
    let s' := sendInputs s inputs in
    terminal s'
      = Some (w ++ terminated (match inputs with
                               | [] => []
                               | _ => inputQueue s ++ List.map fst inputs
                               end)) /\
    isProcessingInput s' = false /\
    (inputs <> [] -> inputQueue s' = [] /\ status s' = SessionStatus.PROCESSING).
Proof.
  induction inputs as [|[input now] inputs IH]; intros s w Hw Hflag.
  - cbn. rewrite app_nil_r. split; [assumption|]. split; [assumption|].
    intros Hne. now contradiction Hne.
  - unfold sendInputs. cbn [fold_left].
    destruct (sendInput_writes s input now w Hw Hflag)
      as (_ & Hw1 & Hq1 & Hf1 & Hs1 & _).
    set (s1 := snd (sendInput s input now)) in *.
    specialize (IH s1 _ Hw1 Hf1). unfold sendInputs in IH.
    destruct IH as (IHw & IHf & IHq).
    split; [|split].
    + rewrite IHw. f_equal. rewrite <- app_assoc. f_equal.
      unfold terminated. rewrite <- flat_map_app. f_equal.
      destruct inputs as [|i inputs].
      * cbn. now rewrite app_nil_r.
      * rewrite Hq1. cbn [app List.map fst]. now rewrite <- app_assoc.
    + exact IHf.
    + intros _. destruct inputs as [|i inputs]; [auto | apply IHq; discriminate].
Qed.

Lemma sendInput_preserves_order_witness :
  terminal (sendInputs started [(js "ls", 2); (js "pwd", 3)])
    = Some ([[27%N] ++ js "[9999;1R"] ++ [js "ls"; Adapter.CR; js "pwd"; Adapter.CR]).
Proof.
  destruct (sendInput_preserves_order [(js "ls", 2); (js "pwd", 3)] started
              [[27%N] ++ js "[9999;1R"] eq_refl eq_refl) as (H & _).
  exact H.
Defined.

(** X5. What a session does with a classified unit. A NORMAL or ERROR
    unit goes to the end of the output buffer (behind what the cap lets
    stay) and changes neither status nor pending confirmation; a CONFIRM
    unit is not buffered: it makes the session wait and stores the
    unit's options; a SYSTEM unit changes nothing. The last event is
    always OutputReceived for the unit, and an ERROR event is emitted
    for ERROR units only. *)
Theorem handleOutput_buffers_all_but_confirm s block now :
  let s' := fst (handleOutput s block now) in
  let evs := snd (handleOutput s block now) in
  (exists earlier, evs = earlier ++ [OutputReceived (name s) block]) /\
  (In (ErrorOutput (name s) block) evs <-> type block = OutputType.ERROR) /\
  match type block with
  | OutputType.NORMAL | OutputType.ERROR =>
    (exists evicted kept,
        OutputBuffer.buffer (buffer s) = evicted ++ kept /\
        OutputBuffer.buffer (buffer s') = kept ++ [block]) /\
    status s' = status s /\ pendingConfirm s' = pendingConfirm s
  | OutputType.CONFIRM =>
    buffer s' = buffer s /\
    status s' = SessionStatus.WAITING_CONFIRM /\
    option_map options (pendingConfirm s')
      = Some (match confirmOptions block with Some o => o | None => [] end)
  | OutputType.SYSTEM => s' = s
  end.
Proof.
  unfold handleOutput.
  destruct (type block) eqn:Hty; cbn [fst snd app].
  - split; [exists []; reflexivity|]. split.
    + split; [intros [H | []]; discriminate | discriminate].
    + split; [apply SessionFacts.append_suffix | split; reflexivity].
  - split; [eexists [_; _]; reflexivity|]. split.
    + split; [intros [H | [H | [H | []]]]; discriminate | discriminate].
    + repeat split.
  - split; [eexists [_]; reflexivity|]. split.
    + split; [reflexivity | intros _; now left].
    + split; [apply SessionFacts.append_suffix | split; reflexivity].
  - split; [exists []; reflexivity|]. split.
    + split; [intros [H | []]; discriminate | discriminate].
    + now destruct s.
Qed.

(** *** [close] *)

Lemma close_without_terminal s shutdown :
  terminal s = None ->
  close s shutdown
    = (withStatus (withAdapter s None) SessionStatus.IDLE,
       [SessionClosed (name s)]).
Proof.
  unfold terminal, close. destruct (adapter s) as [a|]; [|reflexivity].
  intros ->. reflexivity.
Qed.

Lemma close_with_exit s w code signal at_ :
  terminal s = Some w ->
  close s (ExitsOnClose code signal at_)
    = (withStatus (withAdapter (fst (handleExit s code signal at_)) None)
                  SessionStatus.IDLE,
       [EmitExit code signal; SessionClosed (name s)]).
Proof.
  unfold terminal, close. destruct (adapter s) as [a|]; [|discriminate].
  intros ->. reflexivity.
Qed.

Lemma close_without_exit s :
  close s OutlivesClose
    = (withStatus (withAdapter s None) SessionStatus.IDLE,
       [SessionClosed (name s)]).
Proof.
  unfold close. destruct (adapter s) as [a|]; [|reflexivity].
  now destruct (Adapter.pty a).
Qed.

Lemma close_cases s shutdown :
  close s shutdown
    = (withStatus (withAdapter s None) SessionStatus.IDLE,
       [SessionClosed (name s)])
  \/ exists w code signal at_,
      terminal s = Some w /\ shutdown = ExitsOnClose code signal at_ /\
      close s shutdown
        = (withStatus (withAdapter (fst (handleExit s code signal at_)) None)
                      SessionStatus.IDLE,
           [EmitExit code signal; SessionClosed (name s)]).
Proof.
  destruct shutdown as [code signal at_|]; [|left; apply close_without_exit].
  destruct (terminal s) as [w|] eqn:Hw.
  - right. exists w, code, signal, at_. split; [reflexivity|].
    split; [reflexivity|]. now apply close_with_exit with (w := w).
  - left. now apply close_without_terminal.
Qed.

(** X6. [close] ends with status IDLE and no adapter, and SessionClosed
    is its last event, whatever the process does while the adapter is
    shut down. When the process exits within that wait, the exit is
    handled inside [close]: the exit event is emitted and, for an exit
    code other than 0, the ERROR unit of the exit goes to the end of the
    buffer. A session without a terminal closes without waiting, and a
    second [close] changes nothing more. Once closed, or once the
    process has exited, [sendInput] and [sendRawInput] throw NotStarted
    and change nothing. *)
Theorem close_is_idempotent_and_stops_input s shutdown :
  let closed := fst (close s shutdown) in
  status closed = SessionStatus.IDLE /\
  adapter closed = None /\
  (exists earlier, snd (close s shutdown) = earlier ++ [SessionClosed (name s)]) /\
  (forall w code signal at_,
      terminal s = Some w -> shutdown = ExitsOnClose code signal at_ ->
      In (EmitExit code signal) (snd (close s shutdown)) /\
      (code <> 0 ->
       exists kept,
         OutputBuffer.buffer (buffer closed)
           = kept ++ [createOutputBlock OutputType.ERROR (exitMessage code) at_])) /\
  (terminal s = None ->
   close s shutdown
     = (withStatus (withAdapter s None) SessionStatus.IDLE,
        [SessionClosed (name s)])) /\
  (forall again, close closed again = (closed, [SessionClosed (name s)])) /\
  (forall input now,
      sendInput closed input now = (Throw NotStarted, closed) /\
      sendRawInput closed input now = (Throw NotStarted, closed)) /\
  (forall code signal at_ input now,
      let exited := fst (handleExit s code signal at_) in
      sendInput exited input now = (Throw NotStarted, exited) /\
      sendRawInput exited input now = (Throw NotStarted, exited)).
Proof.
  cbn zeta.
  assert (Hname : forall code signal at_,
             name (fst (handleExit s code signal at_)) = name s).
  { intros code signal at_. unfold handleExit. now destruct (negb (code =? 0)). }
  split; [|split; [|split; [|split; [|split; [|split; [|split]]]]]].
  - destruct (close_cases s shutdown) as [-> | (w & c & sg & t & _ & _ & ->)];
      reflexivity.
  - destruct (close_cases s shutdown) as [-> | (w & c & sg & t & _ & _ & ->)];
      reflexivity.
  - destruct (close_cases s shutdown) as [-> | (w & c & sg & t & _ & _ & ->)];
      cbn [snd].
    + now exists [].
    + now exists [EmitExit c sg].
  - intros w code signal at_ Hw ->.
    rewrite (close_with_exit s w code signal at_ Hw). cbn [fst snd].
    split; [now left|]. intros Hcode.
    unfold handleExit. cbn [fst].
    replace (negb (code =? 0)) with true
      by (symmetry; apply negb_true_iff; now apply Z.eqb_neq).
    cbn [withAdapter withStatus withBuffer buffer].
    destruct (SessionFacts.append_suffix
                (buffer s)
                (createOutputBlock OutputType.ERROR (exitMessage code) at_))
      as (evicted & kept & _ & Hkept).
    exists kept. exact Hkept.
  - apply close_without_terminal.
  - intros again.
    destruct (close_cases s shutdown) as [-> | (w & c & sg & t & _ & _ & ->)];
      cbn [fst]; rewrite close_without_terminal by reflexivity;
      cbn [withAdapter withStatus name status adapter]; try rewrite Hname;
      reflexivity.
  - intros input now.
    destruct (close_cases s shutdown) as [-> | (w & c & sg & t & _ & _ & ->)];
      split; reflexivity.
  - intros code signal at_ input now. split; reflexivity.
Qed.

Lemma create_cases tool o :
  (tool = js "claude" /\
   Adapter.create tool o = Some (Adapter.mk Adapter.Claude o None false)) \/
  (tool <> js "claude" /\ tool = js "opencode" /\
   Adapter.create tool o = Some (Adapter.mk Adapter.OpenCode o None false)) \/
  (Adapter.create tool o = None /\ tool <> js "claude" /\ tool <> js "opencode").
Proof.
  unfold Adapter.create.
  destruct (JS.eqb tool (js "claude")) eqn:E1.
  - left. apply JsMapFacts.eqb_eq in E1. auto.
  - apply JsMapFacts.eqb_neq in E1.
    destruct (JS.eqb tool (js "opencode")) eqn:E2.
    + right. left. apply JsMapFacts.eqb_eq in E2. auto.
    + right. right. apply JsMapFacts.eqb_neq in E2. auto.
Qed.

(** X7. How [start] ends, for every session and every behaviour of the
    process: a session that holds an adapter refuses with AlreadyStarted
    and is unchanged; otherwise a normal return leaves status IDLE and
    emits SessionStarted last, and a throw leaves status ERROR, no
    terminal to write to, and emits no SessionStarted. A process that
    survives the warm-up of a registered tool gives a normal return with
    a terminal; a process that exits during the warm-up makes the claude
    adapter throw StartupFailure with the exit code, while under the
    opencode adapter [start] returns normally with no adapter held. *)
Theorem start_outcomes s cliTool executable env launch now :
  let out := start s cliTool executable env launch now in
  let s' := snd (fst out) in
  match adapter s with
  | Some _ => out = (Throw AlreadyStarted, s, [])
  | None =>
    match fst (fst out) with
    | Ok =>
      status s' = SessionStatus.IDLE /\
      exists earlier, snd out = earlier ++ [SessionStarted (name s) (workDir s)]
    | Throw e =>
      status s' = SessionStatus.ERROR /\ SessionIOSpec.terminal s' = None /\
      ~ In (SessionStarted (name s) (workDir s)) (snd out)
    end /\
    (launch = Survives ->
     cliTool = js "claude" \/ cliTool = js "opencode" ->
     fst (fst out) = Ok /\ SessionIOSpec.terminal s' <> None) /\
    (forall code signal,
        launch = ExitsDuringWarmup code signal ->
        adapter s' = None /\
        (cliTool = js "claude" -> fst (fst out) = Throw (StartupFailure code)) /\
        (cliTool = js "opencode" -> fst (fst out) = Ok))
  end.
Proof.
  unfold start. destruct (adapter s) as [a|] eqn:Ha; [reflexivity|].
  cbn zeta.
  match goal with
  | |- context [Adapter.create cliTool ?o] =>
    destruct (create_cases cliTool o) as [[Ht Hc] | [(Hn & Ht & Hc) | (Hc & Hn1 & Hn2)]]
  end.
  all: destruct launch as [| |code signal|]; rewrite ?Hc;
    cbn [startAdapter Adapter.kind fst snd handleExit];
    unfold SessionIOSpec.terminal; cbn -[js]; rewrite ?Ha;
    (split; [|split; [intros Hl Htool | intros c sg Hl]]); try discriminate Hl.
  all: try (injection Hl as <- <-).
  all: try (destruct Htool as [Htool | Htool]).
  all: try contradiction.
  all: try (rewrite Htool in Ht; vm_compute in Ht; discriminate Ht).
  all: repeat split; try reflexivity; try discriminate.
  all: try (intros H; exact H).
  all: try (intros H; destruct H as [H | []]; discriminate H).
  all: try (intros H; contradiction).
  all: try (intros H; rewrite H in Ht; vm_compute in Ht; discriminate Ht).
  all: try (exists []; reflexivity).
  all: try (eexists [_]; reflexivity).
Qed.

Lemma start_outcomes_witness :
  fst (fst (start (new SessionSpec.demoOptions 0) (js "claude") (js "claude") []
                  (ExitsDuringWarmup 2 0) 1))
    = Throw (StartupFailure 2).
Proof.
  pose proof (start_outcomes (new SessionSpec.demoOptions 0) (js "claude")
                (js "claude") [] (ExitsDuringWarmup 2 0) 1) as H.
  cbn [adapter new] in H. destruct H as (_ & _ & H).
  destruct (H 2 0 eq_refl) as (_ & Hclaude & _).
  apply Hclaude. reflexivity.
Defined.

(** X8. Answering a prompt. On a session that holds a pending
    confirmation and a terminal, [sendConfirmResponse] writes the
    response and one carriage return to the terminal, clears the
    pending confirmation, makes the status PROCESSING and emits
    ConfirmResponse; a second response right after is a no-op: nothing
    more is written and no event is emitted. *)
Theorem sendConfirmResponse_writes_once s response now w p :
  pendingConfirm s = Some p ->
  terminal s = Some w ->
  let out := sendConfirmResponse s response now in
  let s' := snd (fst out) in
  fst (fst out) = Ok /\
  terminal s' = Some (w ++ [response; Adapter.CR]) /\
  pendingConfirm s' = None /\
  status s' = SessionStatus.PROCESSING /\
  snd out = [ConfirmResponse (name s) response] /\
  forall response' now', sendConfirmResponse s' response' now' = (Ok, s', []).
Proof.
  unfold terminal. intros Hp Hw.
  destruct (adapter s) as [a|] eqn:Ha; [|discriminate].
  unfold sendConfirmResponse. rewrite Hp, Ha.
  unfold Adapter.sendConfirmResponse, Adapter.write. rewrite Hw.
  cbn. auto 10.
Qed.

Lemma sendConfirmResponse_writes_once_witness :
  let s := run SessionSpec.demoOptions 0 SessionSpec.waiting in
  status (snd (fst (sendConfirmResponse s (js "Y") 20))) = SessionStatus.PROCESSING.
Proof.
  intros s.
  destruct (sendConfirmResponse_writes_once s (js "Y") 20
              [[27%N] ++ js "[9999;1R"]
              {| id := js "confirm_10"; options := [js "Y"; js "N"] |}
              eq_refl eq_refl) as (_ & _ & _ & H & _).
  exact H.
Defined.

(** *** What [start] and the other operations leave alone *)

Lemma start_status_events s cliTool executable env launch now :
  adapter s = None ->
  let out := start s cliTool executable env launch now in
  status (snd (fst out))
    = match fst (fst out) with
      | Ok => SessionStatus.IDLE
      | Throw _ => SessionStatus.ERROR
      end /\
  forall n c, ~ In (SessionCreated n c) (snd out).
Proof.
  intros Ha. unfold start. rewrite Ha. cbn zeta.
  match goal with
  | |- context [Adapter.create cliTool ?o] =>
    destruct (create_cases cliTool o) as [[Ht Hc] | [(Hn & Ht & Hc) | (Hc & Hn1 & Hn2)]]
  end.
  all: destruct launch as [| |code signal|]; rewrite ?Hc;
    cbn [startAdapter Adapter.kind fst snd handleExit];
    cbn -[js]; (split; [reflexivity|]); intros n c H;
    repeat (destruct H as [H | H]; [discriminate H|]); exact H.
Qed.

Lemma start_keeps_name s cliTool executable env launch now :
  name (snd (fst (start s cliTool executable env launch now))) = name s.
Proof.
  unfold start. destruct (adapter s); [reflexivity|].
  match goal with
  | |- context [Adapter.create cliTool ?o] =>
    destruct (Adapter.create cliTool o) as [a|]
  end.
  - destruct launch as [| |code signal|]; try reflexivity.
    cbn [startAdapter handleExit].
    now destruct (Adapter.kind a), (negb (code =? 0)).
  - now destruct launch.
Qed.

Lemma step_keeps_name s o now : name (step s o now) = name s.
Proof.
  destruct o; cbn [step].
  - apply start_keeps_name.
  - unfold sendInput. destruct (adapter s); [|reflexivity]. cbn [snd].
    unfold processInputQueue.
    match goal with |- context [if ?c then _ else _] => destruct c end;
      [reflexivity|].
    cbn [withIsProcessingInput withStatus updateActiveTime adapter inputQueue
         withInputQueue withAdapter name].
    destruct (adapter s) as [a|]; [|reflexivity].
    match goal with |- context [drainQueue ?x ?q] => destruct (drainQueue x q) end;
      reflexivity.
  - unfold sendRawInput. destruct (adapter s) as [a|]; [|reflexivity].
    now destruct (Adapter.sendRawInput a data).
  - unfold sendConfirmResponse. destruct (pendingConfirm s); [|reflexivity].
    destruct (adapter s) as [a|]; [|reflexivity].
    now destruct (Adapter.sendConfirmResponse a response).
  - unfold getBufferedOutput. now destruct (OutputBuffer.fetchAndClear (buffer s)).
  - destruct (close_cases s shutdown) as [-> | (w & c & sg & t & _ & _ & ->)];
      cbn [fst withAdapter withStatus name]; [reflexivity|].
    unfold handleExit. now destruct (negb (c =? 0)).
  - unfold handleOutput. now destruct (type block).
  - unfold handleExit. now destruct (negb (code =? 0)).
  - unfold handleIdle. now destruct (status s).
Qed.

End SessionIOFacts.

Module JsMapShapeFacts.
Import JsMapFacts.

Section Shape.
Context {V : Type}.
Implicit Types (m : JsMap.t V) (k : jsstring) (v : V).

Lemma has_In_keys m k : JsMap.has m k = true <-> In k (JsMap.keys m).
Proof.
  unfold JsMap.has, JsMap.keys.
  induction m as [|[k0 v0] m IH]; cbn [JsMap.get List.map fst In].
  - split; [discriminate | contradiction].
  - destruct (JS.eqb k0 k) eqn:E.
    + apply eqb_eq in E. split; auto.
    + apply eqb_neq in E. rewrite IH. split; [auto | intros [H | H]; [contradiction | assumption]].
Qed.

Lemma keys_set m k v :
  JsMap.keys (JsMap.set m k v)
    = if JsMap.has m k then JsMap.keys m else JsMap.keys m ++ [k].
Proof.
  unfold JsMap.has, JsMap.keys.
  induction m as [|[k0 v0] m IH]; cbn [JsMap.set JsMap.get List.map fst app].
  - reflexivity.
  - destruct (JS.eqb k0 k) eqn:E; cbn [List.map fst].
    + reflexivity.
    + rewrite IH. destruct (JsMap.get m k); reflexivity.
Qed.

Lemma NoDup_keys_set m k v :
  NoDup (JsMap.keys m) -> NoDup (JsMap.keys (JsMap.set m k v)).
Proof.
  intros H. rewrite keys_set. destruct (JsMap.has m k) eqn:E; [assumption|].
  apply NoDup_app; [assumption | repeat constructor; intros [] |].
  intros x Hx [<- | []]. apply has_In_keys in Hx. congruence.
Qed.

Lemma keys_delete m k :
  JsMap.keys (JsMap.delete m k)
    = filter (fun k' => negb (JS.eqb k' k)) (JsMap.keys m).
Proof.
  unfold JsMap.keys, JsMap.delete.
  induction m as [|[k0 v0] m IH]; cbn [filter List.map fst]; [reflexivity|].
  destruct (negb (JS.eqb k0 k)); cbn [List.map fst]; now rewrite IH.
Qed.

Lemma NoDup_keys_delete m k :
  NoDup (JsMap.keys m) -> NoDup (JsMap.keys (JsMap.delete m k)).
Proof. intros H. rewrite keys_delete. now apply NoDup_filter. Qed.

Lemma has_set m k v k' :
  JsMap.has (JsMap.set m k v) k' = JS.eqb k k' || JsMap.has m k'.
Proof.
  unfold JsMap.has. destruct (JS.eqb k k') eqn:E.
  - apply eqb_eq in E. subst. now rewrite get_set_same.
  - apply eqb_neq in E. now rewrite (get_set_other _ _ _ _ E).
Qed.

Lemma has_delete m k k' :
  JsMap.has (JsMap.delete m k) k' = negb (JS.eqb k k') && JsMap.has m k'.
Proof.
  unfold JsMap.has. destruct (JS.eqb k k') eqn:E.
  - apply eqb_eq in E. subst. now rewrite get_delete_same.
  - apply eqb_neq in E. now rewrite (get_delete_other _ _ _ E).
Qed.

Lemma size_set_new m k v :
  JsMap.has m k = false -> JsMap.size (JsMap.set m k v) = JsMap.size m + 1.
Proof.
  intros H. unfold JsMap.size.
  rewrite <- (length_map fst (JsMap.set m k v)), <- (length_map fst m).
  fold (JsMap.keys (JsMap.set m k v)) (JsMap.keys m).
  rewrite keys_set, H, length_app. cbn. lia.
Qed.

Lemma size_set_old m k v :
  JsMap.has m k = true -> JsMap.size (JsMap.set m k v) = JsMap.size m.
Proof.
  intros H. unfold JsMap.size.
  rewrite <- (length_map fst (JsMap.set m k v)), <- (length_map fst m).
  fold (JsMap.keys (JsMap.set m k v)) (JsMap.keys m).
  now rewrite keys_set, H.
Qed.

Lemma length_filter_NoDup (l : list jsstring) k :
  NoDup l -> In k l ->
  S (List.length (filter (fun k' => negb (JS.eqb k' k)) l)) = List.length l.
Proof.
  induction l as [|x l IH]; intros Hnd Hin; [contradiction|].
  inversion Hnd as [|? ? Hx Hl]; subst.
  cbn [filter List.length]. destruct (JS.eqb x k) eqn:E; cbn [negb List.length].
  - apply eqb_eq in E. subst x. f_equal.
    clear IH Hin Hnd Hl. induction l as [|y l IH]; [reflexivity|].
    cbn [filter]. destruct (JS.eqb y k) eqn:Ey.
    + apply eqb_eq in Ey. subst. exfalso. apply Hx. now left.
    + cbn [negb List.length]. f_equal. apply IH. intros H. apply Hx. now right.
  - f_equal. apply IH; [assumption|].
    destruct Hin as [-> | H]; [now rewrite eqb_refl in E | assumption].
Qed.

Lemma size_delete m k :
  NoDup (JsMap.keys m) -> JsMap.has m k = true ->
  JsMap.size (JsMap.delete m k) = JsMap.size m - 1.
Proof.
  intros Hnd Hhas. unfold JsMap.size.
  rewrite <- (length_map fst (JsMap.delete m k)), <- (length_map fst m).
  fold (JsMap.keys (JsMap.delete m k)) (JsMap.keys m).
  rewrite keys_delete.
  pose proof (length_filter_NoDup (JsMap.keys m) k Hnd
                (proj1 (has_In_keys m k) Hhas)).
  lia.
Qed.

Lemma Forall_set (P : jsstring * V -> Prop) m k v :
  (forall k', P (k', v)) -> Forall P m -> Forall P (JsMap.set m k v).
Proof.
  intros Hv H. induction m as [|[k0 v0] m IH]; cbn [JsMap.set].
  - constructor; [apply Hv | constructor].
  - inversion H; subst. destruct (JS.eqb k0 k); constructor; auto.
Qed.

Lemma Forall_get (P : jsstring * V -> Prop) m k v :
  Forall P m -> JsMap.get m k = Some v -> exists k', P (k', v).
Proof.
  intros H. induction m as [|[k0 v0] m IH]; cbn [JsMap.get]; [discriminate|].
  inversion H; subst. destruct (JS.eqb k0 k).
  - intros E. injection E as <-. eauto.
  - auto.
Qed.

Lemma Forall_delete (P : jsstring * V -> Prop) m k :
  Forall P m -> Forall P (JsMap.delete m k).
Proof.
  unfold JsMap.delete. intros H. apply Forall_forall. intros x Hx.
  apply filter_In in Hx. destruct Hx as [Hx _].
  rewrite Forall_forall in H. auto.
Qed.

End Shape.

Lemma NoDup_add s x : NoDup s -> NoDup (JsSet.add s x).
Proof.
  intros H. unfold JsSet.add. destruct (JsSet.has s x) eqn:E; [assumption|].
  apply NoDup_app; [assumption | repeat constructor; intros [] |].
  intros y Hy [<- | []]. apply JsSetFacts.has_In in Hy. congruence.
Qed.

Lemma NoDup_delete s x : NoDup s -> NoDup (JsSet.delete s x).
Proof. intros H. unfold JsSet.delete. now apply NoDup_filter. Qed.

Lemma In_add s x y : In y (JsSet.add s x) -> y = x \/ In y s.
Proof.
  unfold JsSet.add. destruct (JsSet.has s x); [auto|].
  intros H. apply in_app_or in H. destruct H as [H | [H | []]]; auto.
Qed.

End JsMapShapeFacts.

Module RegistryFacts.
Import SessionManager SessionManagerSpec RegistrySpec.
Import JsMapFacts JsSetFacts JsMapShapeFacts SessionManagerFacts.

(** *** The loop of [closeSession] and the shape of the maps *)

Lemma unbind_keys name chats active :
  JsMap.keys (fst (unbind name chats active)) = JsMap.keys chats.
Proof.
  revert active. induction chats as [|[chatId set] rest IH]; intros active.
  - reflexivity.
  - cbn [unbind].
    match goal with
    | |- context [unbind name rest ?a] =>
      specialize (IH a); destruct (unbind name rest a) as [rest' active'']
    end.
    cbn [fst] in *. unfold JsMap.keys in *. cbn [List.map fst]. now rewrite IH.
Qed.

Lemma unbind_sets name chats active :
  Forall (fun entry : jsstring * JsSet.t => NoDup (snd entry)) chats ->
  Forall (fun entry : jsstring * JsSet.t => NoDup (snd entry))
         (fst (unbind name chats active)).
Proof.
  revert active. induction chats as [|[chatId set] rest IH]; intros active H.
  - constructor.
  - inversion H; subst. cbn [unbind].
    match goal with
    | |- context [unbind name rest ?a] =>
      specialize (IH a); destruct (unbind name rest a) as [rest' active'']
    end.
    cbn [fst] in *. constructor; [now apply NoDup_delete | auto].
Qed.

Lemma unbind_active_keys name chats active :
  NoDup (JsMap.keys active) ->
  NoDup (JsMap.keys (snd (unbind name chats active))).
Proof.
  revert active. induction chats as [|[chatId set] rest IH]; intros active H.
  - exact H.
  - cbn [unbind].
    match goal with
    | |- context [unbind name rest ?a] =>
      assert (Ha : NoDup (JsMap.keys a));
        [| specialize (IH a Ha); destruct (unbind name rest a) as [rest' active'']]
    end.
    + destruct (JsMap.get active chatId) as [current|]; [|assumption].
      destruct (JS.eqb current name); [|assumption].
      destruct (JsSet.toArray (JsSet.delete set name)).
      * now apply NoDup_keys_delete.
      * now apply NoDup_keys_set.
    + exact IH.
Qed.

Lemma closeSession_boundTo m name m' evs c {shutdown} :
  closeSession m name shutdown = (Ok, m', evs) ->
  boundTo m' c = JsSet.delete (boundTo m c) name.
Proof.
  intros H. apply closeSession_maps in H. destruct H as (_ & Hc & _).
  unfold boundTo. rewrite Hc, unbind_chats.
  now destruct (JsMap.get (chatSessions m) c).
Qed.

Lemma closeSession_registered m name shutdown :
  (exists m' evs, closeSession m name shutdown = (Ok, m', evs)) <->
  JsMap.has (sessions m) name = true.
Proof.
  unfold closeSession, JsMap.has.
  destruct (JsMap.get (sessions m) name) as [session|].
  - destruct (Session.close session shutdown) as [closed closing].
    destruct (unbind name (chatSessions m) (chatActiveSession m)).
    cbn. split; [reflexivity | intros _; eauto].
  - split; [intros (m' & evs & H); discriminate | discriminate].
Qed.

Lemma closeSession_activeSession m name m' evs {shutdown} :
  closeSession m name shutdown = (Ok, m', evs) ->
  activeSession m'
    = match activeSession m with
      | Some a =>
        if JS.eqb a name
        then match chatActiveSession m' with
             | (_, n) :: _ => Some n
             | [] => None
             end
        else Some a
      | None => None
      end.
Proof.
  unfold closeSession.
  destruct (JsMap.get (sessions m) name) as [session|]; [|discriminate].
  destruct (Session.close session shutdown) as [closed closing].
  destruct (unbind name (chatSessions m) (chatActiveSession m)) as [chats active].
  cbn. destruct (activeSession m) as [a|]; [destruct (JS.eqb a name)|];
    intros H; injection H as <- _; reflexivity.
Qed.

Lemma first_entry_get {V} (m : JsMap.t V) k v rest :
  m = (k, v) :: rest -> JsMap.get m k = Some v.
Proof. intros ->. cbn. now rewrite eqb_refl. Qed.

Lemma closeSession_keeps_wellFormed m name shutdown :
  wellFormed m -> activeIsBound m ->
  wellFormed (snd (fst (closeSession m name shutdown))).
Proof.
  intros (Hs & Hc & Ha & Hsets & Hreg & Hact) Hbound.
  pose proof (closeSession_keeps_activeIsBound m name shutdown Hbound) as Hbound'.
  destruct (closeSession m name shutdown) as [[r m'] evs] eqn:Hclose.
  cbn [fst snd] in *.
  destruct r as [|e];
    [|apply closeSession_throw_unchanged in Hclose; subst; repeat split; assumption].
  pose proof (closeSession_activeSession _ _ _ _ Hclose) as Hglobal.
  pose proof (fun c => closeSession_boundTo _ _ _ _ c Hclose) as Hb.
  destruct (closeSession_maps _ _ _ _ Hclose) as (Es & Ec & Ea).
  assert (Hreg' : forall c n, In n (boundTo m' c) -> JsMap.has (sessions m') n = true).
  { intros c n Hin. rewrite Hb in Hin. apply In_delete in Hin.
    destruct Hin as [Hin Hne]. rewrite Es, has_delete, (Hreg c n Hin).
    replace (JS.eqb name n) with false; [reflexivity|].
    symmetry. apply eqb_neq. congruence. }
  repeat split.
  - rewrite Es. now apply NoDup_keys_delete.
  - rewrite Ec, unbind_keys. assumption.
  - rewrite Ea. now apply unbind_active_keys.
  - rewrite Ec. now apply unbind_sets.
  - exact Hreg'.
  - intros n Hn. rewrite Hglobal in Hn.
    destruct (activeSession m) as [a|] eqn:Hglob; [|discriminate].
    destruct (JS.eqb a name) eqn:En.
    + destruct (chatActiveSession m') as [|[c n0] rest] eqn:Hfirst; [discriminate|].
      injection Hn as ->.
      destruct (Hbound' c n (first_entry_get _ _ _ _ Hfirst)) as (set & Hset & Hin).
      apply (Hreg' c). unfold boundTo. now rewrite Hset.
    + injection Hn as <-. rewrite Es, has_delete, (Hact a eq_refl).
      replace (JS.eqb name a) with false; [reflexivity|].
      symmetry. rewrite eqb_sym. exact En.
Qed.

Lemma closeEach_keeps_wellFormed names shutdowns :
  forall m,
    wellFormed m -> activeIsBound m ->
    wellFormed (snd (fst (closeEach m names shutdowns))) /\
    activeIsBound (snd (fst (closeEach m names shutdowns))).
Proof.
  induction names as [|name names IH]; intros m Hwf Hb; [split; assumption|].
  cbn [closeEach].
  pose proof (closeSession_keeps_wellFormed m name (shutdowns name) Hwf Hb) as H1.
  pose proof (closeSession_keeps_activeIsBound m name (shutdowns name) Hb) as H2.
  destruct (closeSession m name (shutdowns name)) as [[r m1] evs1].
  cbn [fst snd] in *.
  destruct r; [|split; assumption].
  specialize (IH m1 H1 H2).
  destruct (closeEach m1 names shutdowns) as [[r2 m2] evs2]. exact IH.
Qed.

Lemma boundTo_set_add m chats chatId set name c :
  JsMap.get chats chatId = Some set ->
  (forall c', chatId <> c' -> JsMap.get chats c' = JsMap.get (chatSessions m) c') ->
  (forall x, In x set -> In x (boundTo m chatId)) ->
  forall n,
    In n (match JsMap.get (JsMap.set chats chatId (JsSet.add set name)) c with
          | Some s => JsSet.toArray s
          | None => []
          end) ->
    n = name \/ In n (boundTo m c).
Proof.
  intros Hget Hother Hold n.
  destruct (JS.eqb chatId c) eqn:E.
  - apply eqb_eq in E. subst c. rewrite get_set_same.
    intros H. apply In_add in H. destruct H as [H | H]; auto.
  - apply eqb_neq in E. rewrite (get_set_other _ _ _ _ E), (Hother _ E).
    unfold boundTo. auto.
Qed.

Lemma step_keeps_wellFormed m o now :
  wellFormed m -> activeIsBound m -> wellFormed (step m o now).
Proof.
  intros Hwf Hb. pose proof Hwf as (Hs & Hc & Ha & Hsets & Hreg & Hact).
  destruct o; cbn [step].
  - (* createSession *)
    unfold createSession.
    destruct (_ >=? _); [assumption|].
    destruct (JsMap.has (sessions m) name) eqn:Hfresh; [assumption|].
    match goal with
    | |- context [Session.start ?s ?a ?b ?c ?d ?e] =>
      destruct (Session.start s a b c d e) as [[r s'] evs]
    end.
    set (chats1 := if JsMap.has (chatSessions m) chatId then chatSessions m
                   else JsMap.set (chatSessions m) chatId JsSet.empty).
    assert (H1 : exists set0, JsMap.get chats1 chatId = Some set0 /\
                              NoDup set0 /\
                              forall x, In x set0 -> In x (boundTo m chatId)).
    { subst chats1. unfold JsMap.has, boundTo.
      destruct (JsMap.get (chatSessions m) chatId) as [set0|] eqn:E.
      - exists set0. rewrite E. split; [reflexivity|]. split; [|auto].
        destruct (Forall_get _ _ _ _ Hsets E) as [k' Hk]. exact Hk.
      - exists JsSet.empty. rewrite get_set_same. split; [reflexivity|].
        split; [constructor | intros x []]. }
    assert (H2 : forall c', chatId <> c' ->
                            JsMap.get chats1 c' = JsMap.get (chatSessions m) c').
    { intros c' Hne. subst chats1.
      destruct (JsMap.has (chatSessions m) chatId); [reflexivity|].
      now apply get_set_other. }
    assert (H3 : NoDup (JsMap.keys chats1) /\
                 Forall (fun entry : jsstring * JsSet.t => NoDup (snd entry)) chats1).
    { subst chats1. destruct (JsMap.has (chatSessions m) chatId); [auto|].
      split; [now apply NoDup_keys_set|].
      apply Forall_set; [intros; constructor | assumption]. }
    destruct H1 as (set0 & Hset0 & Hnd0 & Hold). destruct H3 as [H3 H4].
    assert (Hgoal : forall ss,
      (forall n, JsMap.has ss n = true <->
                 n = name \/ JsMap.has (sessions m) n = true) ->
      NoDup (JsMap.keys ss) ->
      wellFormed
        {| sessions := ss; activeSession := Some name; config := config m;
           chatSessions := JsMap.set chats1 chatId (JsSet.add set0 name);
           chatActiveSession := JsMap.set (chatActiveSession m) chatId name |}).
    { intros ss Hss Hnd. unfold wellFormed. cbn [sessions activeSession chatSessions
                                                 chatActiveSession].
      split; [exact Hnd|]. split; [now apply NoDup_keys_set|].
      split; [now apply NoDup_keys_set|].
      split; [apply Forall_set; [intros; now apply NoDup_add | assumption]|].
      split.
      - intros c n Hin. unfold boundTo in Hin. cbn [chatSessions] in Hin.
        apply (boundTo_set_add m chats1 chatId set0 name c Hset0 H2 Hold) in Hin.
        apply Hss. destruct Hin as [-> | Hin]; [now left | right; eauto].
      - intros n Hn. injection Hn as <-. apply Hss. now left. }
    assert (Hss : forall s1 s2 n,
               JsMap.has (JsMap.set (JsMap.set (sessions m) name s1) name s2) n = true
               <-> n = name \/ JsMap.has (sessions m) n = true).
    { intros s1 s2 n. rewrite !has_set.
      destruct (JS.eqb name n) eqn:E; cbn [orb].
      - apply eqb_eq in E. split; auto.
      - apply eqb_neq in E. split; [auto | intros [H | H]; congruence]. }
    unfold withSessions. cbn [sessions activeSession chatSessions chatActiveSession
                              config fst snd].
    fold chats1. rewrite Hset0.
    destruct r; cbn [fst snd]; apply Hgoal; auto using NoDup_keys_set.
  - (* setChatActiveSession *)
    unfold setChatActiveSession.
    destruct (negb (JsMap.has (sessions m) name)) eqn:Hhas; [assumption|].
    destruct (JsMap.get (chatSessions m) chatId) as [set|]; [|assumption].
    destruct (JsSet.has set name); [|assumption].
    cbn [fst snd]. unfold wellFormed. cbn [sessions activeSession chatSessions
                                           chatActiveSession].
    repeat split; auto using NoDup_keys_set.
    intros n Hn. injection Hn as <-. now apply negb_false_iff in Hhas.
  - (* addSessionToChat *)
    unfold addSessionToChat.
    destruct (negb (JsMap.has (sessions m) name)) eqn:Hhas; [assumption|].
    apply negb_false_iff in Hhas.
    cbn [fst snd]. unfold wellFormed. cbn [sessions activeSession chatSessions
                                           chatActiveSession].
    assert (Hset : NoDup (match JsMap.get (chatSessions m) chatId with
                          | Some set => set
                          | None => JsSet.empty
                          end)).
    { destruct (JsMap.get (chatSessions m) chatId) as [set|] eqn:E; [|constructor].
      destruct (Forall_get _ _ _ _ Hsets E) as [k' Hk]. exact Hk. }
    repeat split; auto using NoDup_keys_set.
    + apply Forall_set; [intros; now apply NoDup_add | assumption].
    + intros c n. unfold boundTo. cbn [chatSessions].
      destruct (JS.eqb chatId c) eqn:E.
      * apply eqb_eq in E. subst c. rewrite get_set_same.
        intros Hin. apply In_add in Hin. destruct Hin as [-> | Hin]; [assumption|].
        apply (Hreg chatId). unfold boundTo.
        now destruct (JsMap.get (chatSessions m) chatId).
      * apply eqb_neq in E. rewrite (get_set_other _ _ _ _ E). apply Hreg.
  - (* restartSession *)
    unfold restartSession.
    destruct (JsMap.get (sessions m) name) as [s|] eqn:Hget; [|assumption].
    destruct (Session.status s); try assumption.
    destruct (Session.start _ _ _ _ _ _) as [[r s'] evs]. cbn [fst snd].
    unfold wellFormed, withSessions, boundTo.
    cbn [sessions activeSession chatSessions chatActiveSession].
    repeat split; auto using NoDup_keys_set.
    + intros c n Hin. rewrite has_set. rewrite (Hreg c n Hin). apply orb_true_r.
    + intros n Hn. rewrite has_set, (Hact n Hn). apply orb_true_r.
  - (* closeSession *)
    now apply closeSession_keeps_wellFormed.
  - (* closeChatSessions *)
    unfold closeChatSessions.
    destruct (JsMap.get (chatSessions m) chatId) as [set|]; [|assumption].
    destruct (closeEach_keeps_wellFormed (JsSet.toArray set) shutdowns m Hwf Hb)
      as [H _].
    destruct (closeEach m (JsSet.toArray set) shutdowns) as [[r m'] evs].
    cbn [fst snd] in *.
    destruct r; [|assumption].
    destruct H as (Hs' & Hc' & Ha' & Hsets' & Hreg' & Hact').
    unfold wellFormed, boundTo.
    cbn [fst snd sessions activeSession chatSessions chatActiveSession].
    repeat split; auto using NoDup_keys_delete, Forall_delete.
    intros c n. destruct (JS.eqb chatId c) eqn:E.
    + apply eqb_eq in E. subst c. rewrite get_delete_same. intros [].
    + apply eqb_neq in E. rewrite (get_delete_other _ _ _ E). apply Hreg'.
  - (* closeAll *)
    unfold closeAll. cbn [fst].
    unfold wellFormed, boundTo. cbn. repeat split; try constructor; try discriminate.
    intros c n [].
  - (* updateConfig *)
    exact Hwf.
  - (* a session operation *)
    destruct (JsMap.get (sessions m) name) as [s|]; [|assumption].
    unfold wellFormed, withSessions, boundTo.
    cbn [sessions activeSession chatSessions chatActiveSession].
    repeat split; auto using NoDup_keys_set.
    + intros c n Hin. rewrite has_set. rewrite (Hreg c n Hin). apply orb_true_r.
    + intros n Hn. rewrite has_set, (Hact n Hn). apply orb_true_r.
Qed.

Lemma run_wellFormed config history :
  wellFormed (run config history) /\ activeIsBound (run config history).
Proof.
  unfold run. induction history as [|[o now] history IH] using rev_ind.
  - split; [|intros c n; cbn; discriminate].
    unfold wellFormed, boundTo. cbn.
    repeat split; try constructor; try discriminate. intros c n [].
  - rewrite fold_left_app. cbn [fold_left]. destruct IH as [Hwf Hb].
    split; [now apply step_keeps_wellFormed | now apply step_keeps_activeIsBound].
Qed.

(** *** Entries of a map with distinct keys *)

Lemma NoDup_keys_get {V} (m : JsMap.t V) k v :
  NoDup (JsMap.keys m) -> In (k, v) m -> JsMap.get m k = Some v.
Proof.
  unfold JsMap.keys. induction m as [|[k0 v0] m IH]; intros Hnd Hin; [contradiction|].
  cbn [List.map fst] in Hnd. inversion Hnd as [|? ? Hk Hm]; subst.
  cbn [JsMap.get]. destruct Hin as [E | Hin].
  - injection E as -> ->. now rewrite eqb_refl.
  - destruct (JS.eqb k0 k) eqn:E; [|auto].
    apply eqb_eq in E. subst k0. exfalso. apply Hk.
    apply in_map_iff. exists (k, v). auto.
Qed.

Lemma get_In {V} (m : JsMap.t V) k v : JsMap.get m k = Some v -> In (k, v) m.
Proof.
  induction m as [|[k0 v0] m IH]; cbn [JsMap.get]; [discriminate|].
  destruct (JS.eqb k0 k) eqn:E.
  - apply eqb_eq in E. intros H. injection H as <-. subst. now left.
  - intros H. right. auto.
Qed.

Lemma set_same {V} (m : JsMap.t V) k v :
  JsMap.get m k = Some v -> JsMap.set m k v = m.
Proof.
  induction m as [|[k0 v0] m IH]; cbn [JsMap.get JsMap.set]; [discriminate|].
  destruct (JS.eqb k0 k) eqn:E.
  - intros H. now injection H as ->.
  - intros H. now rewrite IH.
Qed.

Lemma has_get {V} (m : JsMap.t V) k :
  JsMap.has m k = true <-> exists v, JsMap.get m k = Some v.
Proof.
  unfold JsMap.has. destruct (JsMap.get m k) as [v|].
  - split; eauto.
  - split; [discriminate | intros [v H]; discriminate].
Qed.

(** X9. In every state the manager reaches, lookups do not dangle: a
    session bound to a chat is registered; the active session of a chat
    is bound to that chat and registered, and [getChatActiveSession]
    returns it (unless its name is the empty string, which the lookup
    treats as no name); the globally active session is registered. *)
Theorem registry_lookups_do_not_dangle config history :
  let m := run config history in
  (forall c n, In n (boundTo m c) -> exists s, getSession m n = Some s) /\
  (forall c n,
      JsMap.get (chatActiveSession m) c = Some n ->
      In n (boundTo m c) /\
      exists s, getSession m n = Some s /\
                (n <> [] -> getChatActiveSession m c = Some s)) /\
  (forall n,
      activeSession m = Some n ->
      exists s, getSession m n = Some s /\
                (n <> [] -> getActiveSession m = Some s)).
Proof.
  intros m. destruct (run_wellFormed config history) as [Hwf Hb]. fold m in Hwf, Hb.
  destruct Hwf as (_ & _ & _ & _ & Hreg & Hact).
  assert (H1 : forall c n, In n (boundTo m c) -> exists s, getSession m n = Some s).
  { intros c n Hin. apply has_get. eauto. }
  split; [exact H1|]. split.
  - intros c n Hn. destruct (Hb c n Hn) as (set & Hset & Hin).
    assert (Hin' : In n (boundTo m c)) by (unfold boundTo; now rewrite Hset).
    split; [exact Hin'|].
    destruct (H1 c n Hin') as [s Hs]. exists s. split; [exact Hs|].
    intros Hne. unfold getChatActiveSession. rewrite Hn.
    destruct n; [contradiction | exact Hs].
  - intros n Hn. destruct (proj1 (has_get _ _) (Hact n Hn)) as [s Hs].
    exists s. split; [exact Hs|].
    intros Hne. unfold getActiveSession. rewrite Hn.
    destruct n; [contradiction | exact Hs].
Qed.

Lemma registry_lookups_do_not_dangle_witness :
  exists s, getChatActiveSession shared (js "c1") = Some s.
Proof.
  destruct (proj1 (proj2 (registry_lookups_do_not_dangle
                            demoConfig
                            (twoChats ++ [(AddSessionToChat (js "c") (js "c1"), 4)])))
                  (js "c1") (js "b") eq_refl) as (_ & s & _ & Hs).
  exists s. apply Hs. discriminate.
Defined.

(** X17. Neither a restart nor anything that happens to a session
    object (input, output, idle, exit, its own [close]) changes the
    routing state: the bindings of chats to sessions, the active
    sessions and the set of registered names stay as they are, and so
    does every other session. *)
Theorem restart_and_session_events_keep_routing m name launch o now :
  sameRouting name m (snd (fst (restartSession m name launch now))) /\
  sameRouting name m (step m (OnSession name o) now).
Proof.
  assert (Hset : forall s',
             JsMap.has (sessions m) name = true ->
             sameRouting name m (withSessions m (JsMap.set (sessions m) name s'))).
  { intros s' Hhas. unfold sameRouting, hasSession, getSession.
    cbn [withSessions sessions chatSessions chatActiveSession activeSession].
    repeat split.
    - intros n. rewrite has_set. destruct (JS.eqb name n) eqn:E; [|reflexivity].
      apply eqb_eq in E. subst n. cbn [orb]. now symmetry.
    - intros n Hne. apply get_set_other. congruence. }
  assert (Hrefl : sameRouting name m m) by (unfold sameRouting; now repeat split).
  split.
  - unfold restartSession.
    destruct (JsMap.get (sessions m) name) as [s|] eqn:Hget; [|exact Hrefl].
    destruct (Session.status s); try exact Hrefl.
    destruct (Session.start _ _ _ _ _ _) as [[r s'] evs]. cbn [fst snd].
    apply Hset. apply has_get. eauto.
  - cbn [step].
    destruct (JsMap.get (sessions m) name) as [s|] eqn:Hget; [|exact Hrefl].
    apply Hset. apply has_get. eauto.
Qed.

(** *** Reverse lookup *)

Lemma find_none_all {A} (P : A -> bool) l :
  (forall x, In x l -> P x = false) -> find P l = None.
Proof.
  induction l as [|x l IH]; intros H; [reflexivity|].
  cbn [find]. rewrite (H x (or_introl eq_refl)). apply IH.
  intros y Hy. apply H. now right.
Qed.

(** X11. The reverse lookup used to route output. In every state the
    manager reaches, [getSessionChatId] returns a chat that the session
    is bound to, and returns nothing exactly when the session is bound
    to no chat. *)
Theorem getSessionChatId_finds_a_binding config history sessionName :
  let m := run config history in
  (forall c, getSessionChatId m sessionName = Some c ->
             In sessionName (boundTo m c)) /\
  (getSessionChatId m sessionName = None <->
   forall c, ~ In sessionName (boundTo m c)).
Proof.
  intros m. destruct (run_wellFormed config history) as [Hwf _]. fold m in Hwf.
  destruct Hwf as (_ & Hc & _).
  unfold getSessionChatId, boundTo. split; [|split].
  - intros c H.
    destruct (find _ (chatSessions m)) as [[c0 set]|] eqn:Hfind; [|discriminate].
    injection H as <-. apply find_some in Hfind. destruct Hfind as [Hin Hhas].
    rewrite (NoDup_keys_get _ _ _ Hc Hin). now apply has_In.
  - intros H c Hin.
    destruct (find _ (chatSessions m)) as [e|] eqn:Hfind; [discriminate|].
    destruct (JsMap.get (chatSessions m) c) as [set|] eqn:Hget; [|contradiction].
    apply get_In in Hget.
    pose proof (find_none _ _ Hfind _ Hget) as Hno. cbn [snd] in Hno.
    apply has_In in Hin. unfold JsSet.toArray in Hin. congruence.
  - intros H. rewrite find_none_all; [reflexivity|].
    intros [c set] Hin. cbn [snd].
    destruct (JsSet.has set sessionName) eqn:E; [|reflexivity].
    exfalso. apply (H c). rewrite (NoDup_keys_get _ _ _ Hc Hin).
    now apply has_In.
Qed.

Lemma getSessionChatId_finds_a_binding_witness :
  In (js "c") (boundTo shared (js "c1")).
Proof.
  apply (proj1 (getSessionChatId_finds_a_binding
                  demoConfig
                  (twoChats ++ [(AddSessionToChat (js "c") (js "c1"), 4)])
                  (js "c"))).
  reflexivity.
Defined.

(** X12. [setChatActiveSession] switches a chat only to a session that
    is registered and bound to that chat. It then makes that session the
    chat's, and the global, active one and emits SessionSwitched, and
    touches nothing else. Otherwise it throws, NotFound for a name that
    is not registered and NotInChat for one not bound to the chat, and
    the manager is unchanged. *)
Theorem setChatActiveSession_needs_a_binding m chatId name :
  match setChatActiveSession m chatId name with
  | (Ok, m', evs) =>
    hasSession m name = true /\ In name (boundTo m chatId) /\
    JsMap.get (chatActiveSession m') chatId = Some name /\
    activeSession m' = Some name /\
    (forall c, c <> chatId ->
               JsMap.get (chatActiveSession m') c = JsMap.get (chatActiveSession m) c) /\
    sessions m' = sessions m /\ chatSessions m' = chatSessions m /\
    evs = [SessionSwitched name chatId]
  | (Throw e, m', evs) =>
    m' = m /\ evs = [] /\
    ((e = NotFound name /\ hasSession m name = false) \/
     (e = NotInChat name chatId /\ hasSession m name = true /\
      ~ In name (boundTo m chatId)))
  end.
Proof.
  unfold setChatActiveSession, hasSession, boundTo.
  destruct (JsMap.has (sessions m) name) eqn:Hhas; cbn [negb].
  - destruct (JsMap.get (chatSessions m) chatId) as [set|] eqn:Hset.
    + destruct (JsSet.has set name) eqn:Hin.
      * cbn [sessions chatSessions chatActiveSession activeSession].
        rewrite get_set_same. apply has_In in Hin.
        repeat split; auto.
        intros c Hne. apply get_set_other. congruence.
      * repeat split. right. repeat split.
        intros H. apply has_In in H. unfold JsSet.toArray in H. congruence.
    + repeat split. right. repeat split. intros [].
  - repeat split. left. auto.
Qed.

(** X13. Binding and then switching. For a registered session,
    [addSessionToChat] returns normally, binds the session to the chat
    beside the sessions already bound, and leaves the active sessions as
    they are; doing it again changes nothing; and a
    [setChatActiveSession] to that session then succeeds. For a name
    that is not registered it throws NotFound and changes nothing. *)
Theorem addSessionToChat_then_switch m name chatId :
  let out := addSessionToChat m name chatId in
  let m1 := snd out in
  if hasSession m name then
    fst out = Ok /\
    In name (boundTo m1 chatId) /\
    (forall n, In n (boundTo m chatId) -> In n (boundTo m1 chatId)) /\
    (forall n c, In n (boundTo m1 c) -> In n (boundTo m c) \/ (n = name /\ c = chatId)) /\
    chatActiveSession m1 = chatActiveSession m /\
    sessions m1 = sessions m /\
    addSessionToChat m1 name chatId = (Ok, m1) /\
    fst (fst (setChatActiveSession m1 chatId name)) = Ok
  else out = (Throw (NotFound name), m).
Proof.
  unfold addSessionToChat, hasSession.
  destruct (JsMap.has (sessions m) name) eqn:Hhas; cbn [negb fst snd];
    [|reflexivity].
  set (set0 := match JsMap.get (chatSessions m) chatId with
               | Some set => set
               | None => JsSet.empty
               end).
  assert (Hb : boundTo m chatId = set0).
  { unfold boundTo. subst set0. now destruct (JsMap.get (chatSessions m) chatId). }
  cbn [sessions chatSessions chatActiveSession activeSession config].
  assert (Hnew : JsMap.get (JsMap.set (chatSessions m) chatId (JsSet.add set0 name))
                           chatId = Some (JsSet.add set0 name))
    by apply get_set_same.
  split; [reflexivity|]. split.
  { unfold boundTo. cbn [chatSessions]. rewrite Hnew. apply In_add_same. }
  split.
  { intros n Hin. unfold boundTo at 1. cbn [chatSessions]. rewrite Hnew.
    apply In_add_old. now rewrite <- Hb. }
  split.
  { intros n c. unfold boundTo at 1. cbn [chatSessions].
    destruct (JS.eqb chatId c) eqn:E.
    - apply eqb_eq in E. subst c. rewrite Hnew. intros Hin.
      apply In_add in Hin. destruct Hin as [-> | Hin]; [now right|].
      left. now rewrite Hb.
    - apply eqb_neq in E. rewrite (get_set_other _ _ _ _ E). now left. }
  split; [reflexivity|]. split; [reflexivity|]. split.
  - rewrite Hhas. cbn [negb]. rewrite Hnew.
    assert (Hadd : JsSet.add (JsSet.add set0 name) name = JsSet.add set0 name).
    { unfold JsSet.add at 1.
      now rewrite (proj2 (has_In _ _) (In_add_same set0 name)). }
    rewrite Hadd. f_equal. f_equal. apply set_same. exact Hnew.
  - unfold setChatActiveSession. cbn [sessions chatSessions]. rewrite Hhas.
    cbn [negb]. rewrite Hnew.
    now rewrite (proj2 (has_In _ _) (In_add_same set0 name)).
Qed.


(** *** Sessions carry the name they are registered under *)

Lemma closeSession_keeps_namesAgree m name shutdown :
  namesAgree m -> namesAgree (snd (fst (closeSession m name shutdown))).
Proof.
  intros H. destruct (closeSession m name shutdown) as [[r m'] evs] eqn:Hclose.
  cbn [fst snd]. destruct r as [|e].
  - destruct (closeSession_maps _ _ _ _ Hclose) as (Es & _).
    intros n s. rewrite Es. destruct (JS.eqb name n) eqn:E.
    + apply eqb_eq in E. subst n. rewrite get_delete_same. discriminate.
    + apply eqb_neq in E. rewrite (get_delete_other _ _ _ E). apply H.
  - apply closeSession_throw_unchanged in Hclose. now subst.
Qed.

Lemma closeEach_keeps_namesAgree names shutdowns :
  forall m, namesAgree m -> namesAgree (snd (fst (closeEach m names shutdowns))).
Proof.
  induction names as [|name names IH]; intros m H; [exact H|].
  cbn [closeEach].
  pose proof (closeSession_keeps_namesAgree m name (shutdowns name) H) as H1.
  destruct (closeSession m name (shutdowns name)) as [[r m'] evs].
  cbn [fst snd] in H1.
  destruct r; [|exact H1].
  specialize (IH m' H1).
  now destruct (closeEach m' names shutdowns) as [[r' m''] evs'].
Qed.

Lemma namesAgree_set m name s ss :
  namesAgree m -> Session.name s = name ->
  (forall n, name <> n -> JsMap.get ss n = JsMap.get (sessions m) n) ->
  JsMap.get ss name = Some s ->
  forall n s', JsMap.get ss n = Some s' -> Session.name s' = n.
Proof.
  intros H Hs Hother Hsame n s' Hget.
  destruct (JS.eqb name n) eqn:E.
  - apply eqb_eq in E. subst n. congruence.
  - apply eqb_neq in E. rewrite (Hother _ E) in Hget. now apply H.
Qed.

Lemma step_keeps_namesAgree m o now : namesAgree m -> namesAgree (step m o now).
Proof.
  intros H. destruct o; cbn [step].
  - unfold createSession.
    destruct (_ >=? _); [assumption|].
    destruct (JsMap.has (sessions m) name); [assumption|].
    match goal with
    | |- context [Session.start ?s ?a ?b ?c ?d ?e] =>
      pose proof (SessionIOFacts.start_keeps_name s a b c d e) as Hname;
      destruct (Session.start s a b c d e) as [[r s'] evs]
    end.
    cbn [fst snd Session.new Session.name sessionOptions Session.optName] in Hname.
    unfold namesAgree, withSessions in *. cbn [sessions] in *.
    destruct r; cbn [fst snd sessions]; intros n s0 Hget;
      refine (namesAgree_set m name s' _ H Hname _ _ n s0 Hget);
      try apply get_set_same;
      intros n' Hne; now rewrite !(get_set_other _ _ _ _ Hne).
  - unfold setChatActiveSession.
    destruct (negb (JsMap.has (sessions m) name)); [assumption|].
    destruct (JsMap.get (chatSessions m) chatId) as [set|]; [|assumption].
    destruct (JsSet.has set name); assumption.
  - unfold addSessionToChat.
    destruct (negb (JsMap.has (sessions m) name)); assumption.
  - unfold restartSession.
    destruct (JsMap.get (sessions m) name) as [session|] eqn:Hget; [|assumption].
    destruct (Session.status session); try assumption.
    match goal with
    | |- context [Session.start ?s ?a ?b ?c ?d ?e] =>
      pose proof (SessionIOFacts.start_keeps_name s a b c d e) as Hname;
      destruct (Session.start s a b c d e) as [[r s'] evs]
    end.
    cbn [fst snd] in *. unfold namesAgree, withSessions. cbn [sessions].
    apply (namesAgree_set m name s'); auto using get_set_same.
    + rewrite Hname. now apply H.
    + intros n Hne. now apply get_set_other.
  - now apply closeSession_keeps_namesAgree.
  - unfold closeChatSessions.
    destruct (JsMap.get (chatSessions m) chatId) as [set|]; [|assumption].
    pose proof (closeEach_keeps_namesAgree (JsSet.toArray set) shutdowns m H) as H1.
    destruct (closeEach m (JsSet.toArray set) shutdowns) as [[r m'] evs].
    cbn [fst snd] in H1. destruct r; exact H1.
  - unfold closeAll. cbn [fst]. intros n s. cbn. discriminate.
  - assumption.
  - destruct (JsMap.get (sessions m) name) as [session|] eqn:Hget; [|assumption].
    unfold namesAgree, withSessions. cbn [sessions].
    apply (namesAgree_set m name (Session.step session o now));
      auto using get_set_same.
    + rewrite SessionIOFacts.step_keeps_name. now apply H.
    + intros n Hne. now apply get_set_other.
Qed.

Lemma run_namesAgree config history : namesAgree (run config history).
Proof.
  unfold run.
  assert (H0 : namesAgree (new config)) by (intros n s; cbn; discriminate).
  revert H0. generalize (new config).
  induction history as [|[o now] history IH]; intros m H; [exact H|].
  cbn [fold_left]. apply IH. now apply step_keeps_namesAgree.
Qed.

(** *** The events of a close *)

Lemma close_announces s shutdown :
  filter isSessionClosed (snd (Session.close s shutdown))
    = [SessionClosed (Session.name s)] /\
  (exists earlier,
      snd (Session.close s shutdown) = earlier ++ [SessionClosed (Session.name s)]) /\
  (SessionIOSpec.terminal s = None ->
   snd (Session.close s shutdown) = [SessionClosed (Session.name s)]).
Proof.
  destruct (SessionIOFacts.close_cases s shutdown)
    as [E | (w & c & sg & t & Hw & _ & E)]; rewrite E; cbn [snd].
  - split; [reflexivity|]. split; [now exists [] | reflexivity].
  - split; [reflexivity|]. split; [now exists [EmitExit c sg]|].
    intros H. congruence.
Qed.

Lemma closeSession_events m name session shutdown :
  JsMap.get (sessions m) name = Some session ->
  exists m',
    closeSession m name shutdown
      = (Ok, m', snd (Session.close session shutdown) ++ [SessionClosed name]) /\
    config m' = config m.
Proof.
  intros Hget. unfold closeSession. rewrite Hget.
  destruct (Session.close session shutdown) as [closed closing]. cbn [snd].
  destruct (unbind name (chatSessions m) (chatActiveSession m)) as [chats active].
  cbn [activeSession]. destruct (activeSession m) as [a|].
  - destruct (JS.eqb a name); eexists; split; reflexivity.
  - eexists; split; reflexivity.
Qed.

Lemma closeSession_announces m name session shutdown :
  JsMap.get (sessions m) name = Some session ->
  Session.name session = name ->
  exists m' evs,
    closeSession m name shutdown = (Ok, m', evs) /\
    config m' = config m /\
    filter isSessionClosed evs = [SessionClosed name; SessionClosed name] /\
    (exists earlier, evs = earlier ++ [SessionClosed name; SessionClosed name]) /\
    (holdsTerminal m name = false ->
     evs = [SessionClosed name; SessionClosed name]).
Proof.
  intros Hget Hname.
  destruct (closeSession_events m name session shutdown Hget) as (m' & Hclose & Hcfg).
  destruct (close_announces session shutdown) as (Hfilter & [earlier Hlast] & Hexact).
  rewrite Hname in Hfilter, Hlast, Hexact.
  exists m', (snd (Session.close session shutdown) ++ [SessionClosed name]).
  split; [exact Hclose|]. split; [exact Hcfg|]. split; [|split].
  - rewrite filter_app, Hfilter. reflexivity.
  - exists earlier. rewrite Hlast, <- app_assoc. reflexivity.
  - unfold holdsTerminal. rewrite Hget. intros Hterm. rewrite Hexact; [reflexivity|].
    now destruct (SessionIOSpec.terminal session).
Qed.

(** *** Closing several sessions *)

Lemma closeEach_all names shutdowns :
  forall m,
    NoDup names -> namesAgree m ->
    (forall n, In n names -> JsMap.has (sessions m) n = true) ->
    exists m' evs,
      closeEach m names shutdowns = (Ok, m', evs) /\
      filter isSessionClosed evs = closedTwice names /\
      ((forall n, In n names -> holdsTerminal m n = false) ->
       evs = closedTwice names) /\
      config m' = config m /\
      (forall n, In n names -> JsMap.get (sessions m') n = None) /\
      (forall n, ~ In n names ->
                 JsMap.get (sessions m') n = JsMap.get (sessions m) n) /\
      (forall c n, In n (boundTo m' c) <-> In n (boundTo m c) /\ ~ In n names).
Proof.
  induction names as [|name names IH]; intros m Hnd Hagree Hreg.
  - exists m, []. split; [reflexivity|]. split; [reflexivity|].
    split; [reflexivity|]. split; [reflexivity|].
    split; [intros n []|]. split; [reflexivity|].
    intros c n. split; [intros H; split; [exact H | intros []] | now intros [H _]].
  - inversion Hnd as [|? ? Hfresh Hnd']; subst.
    destruct (proj1 (has_get _ _) (Hreg name (or_introl eq_refl))) as [session Hget].
    destruct (closeSession_announces m name session (shutdowns name) Hget
                                     (Hagree _ _ Hget))
      as (m1 & evs1 & Hclose & Hcfg & Hfilter1 & _ & Hexact1).
    pose proof (closeSession_keeps_namesAgree m name (shutdowns name) Hagree)
      as Hagree1.
    rewrite Hclose in Hagree1. cbn [fst snd] in Hagree1.
    destruct (closeSession_maps _ _ _ _ Hclose) as (Es & _).
    assert (Hreg1 : forall n, In n names -> JsMap.has (sessions m1) n = true).
    { intros n Hin. rewrite Es, has_delete, (Hreg n (or_intror Hin)).
      replace (JS.eqb name n) with false; [reflexivity|].
      symmetry. apply eqb_neq. intros ->. contradiction. }
    destruct (IH m1 Hnd' Hagree1 Hreg1)
      as (m' & evs' & Heach & Hfilter & Hexact & Hcfg' & Hgone & Hkept & Hbound).
    exists m', (evs1 ++ evs'). cbn [closeEach]. rewrite Hclose, Heach.
    split; [reflexivity|]. split; [|split; [|split; [|split; [|split]]]].
    + rewrite filter_app, Hfilter1, Hfilter. reflexivity.
    + intros Hnone. rewrite (Hexact1 (Hnone name (or_introl eq_refl))).
      rewrite Hexact; [reflexivity|].
      intros n Hin. rewrite <- (Hnone n (or_intror Hin)).
      unfold holdsTerminal. rewrite Es, get_delete_other; [reflexivity|].
      intros ->. contradiction.
    + congruence.
    + intros n [<- | Hin]; [|auto].
      rewrite (Hkept _ Hfresh), Es. apply get_delete_same.
    + intros n Hn. rewrite Hkept by (intros Hin; apply Hn; now right).
      rewrite Es. apply get_delete_other. intros ->. apply Hn. now left.
    + intros c n. rewrite Hbound, (closeSession_boundTo _ _ _ _ c Hclose), In_delete.
      split.
      * intros [[H1 H2] H3]. split; [exact H1|]. intros [E | Hin]; [|contradiction].
        now subst.
      * intros [H1 H2]. split; [split; [exact H1|] |].
        -- intros ->. apply H2. now left.
        -- intros Hin. apply H2. now right.
Qed.

(** X14. In every state the manager reaches, [closeChatSessions] returns
    normally, whatever the processes do while they are shut down. It
    closes every session bound to the chat, one after the other in the
    order they were bound, also a session that is bound to another chat
    as well: the SessionClosed events it emits are two for each of these
    sessions, in that order, and they are all it emits when none of the
    sessions holds a terminal. Afterwards the chat has no bound and no
    active session, the sessions that were not bound to it are as
    before, and no chat is bound to a closed session. *)
Theorem closeChatSessions_closes_the_chat cfg history chatId shutdowns :
  let m := run cfg history in
  let out := closeChatSessions m chatId shutdowns in
  let m' := snd (fst out) in
  fst (fst out) = Ok /\
  filter isSessionClosed (snd out) = closedTwice (boundTo m chatId) /\
  ((forall n, In n (boundTo m chatId) -> holdsTerminal m n = false) ->
   snd out = closedTwice (boundTo m chatId)) /\
  boundTo m' chatId = [] /\
  JsMap.get (chatActiveSession m') chatId = None /\
  (forall n, In n (boundTo m chatId) -> hasSession m' n = false) /\
  (forall n, ~ In n (boundTo m chatId) -> getSession m' n = getSession m n) /\
  (forall c n, In n (boundTo m' c) ->
               In n (boundTo m c) /\ ~ In n (boundTo m chatId)).
Proof.
  intros m out m'.
  destruct (run_wellFormed cfg history) as [Hwf Hb]. fold m in Hwf, Hb.
  pose proof (run_namesAgree cfg history) as Hagree. fold m in Hagree.
  destruct Hwf as (_ & _ & _ & Hsets & Hreg & _).
  subst m' out. unfold closeChatSessions, hasSession, getSession.
  destruct (JsMap.get (chatSessions m) chatId) as [set|] eqn:Hset.
  - assert (Hb0 : boundTo m chatId = JsSet.toArray set)
      by (unfold boundTo; now rewrite Hset).
    rewrite Hb0.
    destruct (Forall_get _ _ _ _ Hsets Hset) as [k' Hnd]. cbn [snd] in Hnd.
    assert (Hreg' : forall n, In n (JsSet.toArray set) ->
                              JsMap.has (sessions m) n = true).
    { intros n Hin. apply (Hreg chatId). unfold boundTo. now rewrite Hset. }
    destruct (closeEach_all (JsSet.toArray set) shutdowns m Hnd Hagree Hreg')
      as (m1 & evs & Heach & Hfilter & Hexact & _ & Hgone & Hkept & Hbound).
    rewrite Heach. cbn [fst snd sessions chatSessions chatActiveSession].
    split; [reflexivity|]. split; [exact Hfilter|]. split; [exact Hexact|].
    split; [|split; [|split; [|split]]].
    + unfold boundTo. cbn [chatSessions]. now rewrite get_delete_same.
    + apply get_delete_same.
    + intros n Hin. unfold JsMap.has. now rewrite (Hgone n Hin).
    + exact Hkept.
    + intros c n. unfold boundTo at 1. cbn [chatSessions].
      destruct (JS.eqb chatId c) eqn:E.
      * apply eqb_eq in E. subst c. rewrite get_delete_same. intros [].
      * apply eqb_neq in E. rewrite (get_delete_other _ _ _ E).
        intros Hin. now apply Hbound.
  - assert (Hb0 : boundTo m chatId = [])
      by (unfold boundTo; now rewrite Hset).
    rewrite Hb0. cbn [fst snd closedTwice flat_map filter].
    split; [reflexivity|]. split; [reflexivity|]. split; [reflexivity|].
    split; [exact Hb0|]. split; [|split; [|split]].
    + destruct (JsMap.get (chatActiveSession m) chatId) as [n|] eqn:Hn;
        [|reflexivity].
      exfalso. destruct (Hb chatId n Hn) as (set & Hsome & _). congruence.
    + intros n [].
    + reflexivity.
    + intros c n Hin. split; [exact Hin | intros []].
Qed.

(** *** The events of [closeAll] *)

Lemma exits_announce_no_close exits :
  forall ss, filter isSessionClosed (exitsDuringWait ss exits) = [].
Proof.
  induction exits as [|[name [[code signal] at_]] exits IH]; intros ss;
    [reflexivity|].
  cbn [exitsDuringWait].
  destruct (JsMap.get ss name) as [s|]; [|apply IH].
  destruct (paceOf s); [apply IH | apply IH |].
  unfold Session.handleExit. cbn [app filter isSessionClosed]. apply IH.
Qed.

Lemma no_exits_without_terminal exits ss :
  Forall (fun entry => paceOf (snd entry) = Immediate) ss ->
  exitsDuringWait ss exits = [].
Proof.
  intros Hall. induction exits as [|[name [[code signal] at_]] exits IH];
    [reflexivity|].
  cbn [exitsDuringWait].
  destruct (JsMap.get ss name) as [s|] eqn:Hget; [|exact IH].
  apply get_In in Hget. rewrite Forall_forall in Hall.
  specialize (Hall _ Hget). cbn [snd] in Hall. rewrite Hall. exact IH.
Qed.

Lemma registered_under_own_name m :
  NoDup (JsMap.keys (sessions m)) -> namesAgree m ->
  Forall (fun entry => Session.name (snd entry) = fst entry) (sessions m).
Proof.
  intros Hnd Hagree. apply Forall_forall. intros [k v] Hin. cbn [fst snd].
  apply Hagree. now apply NoDup_keys_get.
Qed.

Lemma announcements_pass ss :
  filter isSessionClosed (closesStarted ss) = closesStarted ss /\
  filter isSessionClosed (firstJobs ss) = firstJobs ss /\
  filter isSessionClosed (secondJobs ss) = secondJobs ss /\
  filter isSessionClosed (afterTimers ss) = afterTimers ss.
Proof.
  induction ss as [|[k s] ss (H1 & H2 & H3 & H4)]; [repeat split|].
  unfold closesStarted, firstJobs, secondJobs, afterTimers in *.
  cbn [flat_map fst snd]. rewrite !filter_app, H1, H2, H3, H4.
  destruct (paceOf s); repeat split.
Qed.

Lemma closes_are_two_each ss :
  Forall (fun entry => Session.name (snd entry) = fst entry) ss ->
  Permutation (closesStarted ss ++ firstJobs ss ++ secondJobs ss ++ afterTimers ss)
              (closedTwice (JsMap.keys ss)).
Proof.
  induction 1 as [|[k s] ss Hname _ IH]; [constructor|].
  cbn [fst snd] in Hname.
  unfold closesStarted, firstJobs, secondJobs, afterTimers, closedTwice, JsMap.keys
    in *.
  cbn [flat_map List.map fst snd]. rewrite Hname.
  destruct (paceOf s); cbn [app].
  - apply perm_skip. symmetry. apply Permutation_cons_app. symmetry. exact IH.
  - symmetry. apply Permutation_cons_app. rewrite app_assoc.
    apply Permutation_cons_app. rewrite <- app_assoc. symmetry. exact IH.
  - symmetry. rewrite !app_assoc. apply Permutation_cons_app.
    apply Permutation_cons_app. rewrite <- !app_assoc. symmetry. exact IH.
Qed.

Lemma closes_without_adapter ss :
  Forall (fun entry => Session.name (snd entry) = fst entry) ss ->
  Forall (fun entry => paceOf (snd entry) = Immediate) ss ->
  closesStarted ss = List.map SessionClosed (JsMap.keys ss) /\
  firstJobs ss = List.map SessionClosed (JsMap.keys ss) /\
  secondJobs ss = [] /\ afterTimers ss = [].
Proof.
  induction 1 as [|[k s] ss Hname _ IH]; intros Hall; [repeat split|].
  inversion Hall as [|? ? Hpace Hrest]; subst.
  destruct (IH Hrest) as (H1 & H2 & H3 & H4). cbn [fst snd] in Hname, Hpace.
  unfold closesStarted, firstJobs, secondJobs, afterTimers, JsMap.keys in *.
  cbn [flat_map List.map fst snd]. rewrite Hpace, Hname, H1, H2, H3, H4.
  repeat split.
Qed.

Lemma closes_with_terminals ss :
  Forall (fun entry => Session.name (snd entry) = fst entry) ss ->
  Forall (fun entry => paceOf (snd entry) = AfterWait) ss ->
  closesStarted ss = [] /\ firstJobs ss = [] /\ secondJobs ss = [] /\
  afterTimers ss = closedTwice (JsMap.keys ss).
Proof.
  induction 1 as [|[k s] ss Hname _ IH]; intros Hall; [repeat split|].
  inversion Hall as [|? ? Hpace Hrest]; subst.
  destruct (IH Hrest) as (H1 & H2 & H3 & H4). cbn [fst snd] in Hname, Hpace.
  unfold closesStarted, firstJobs, secondJobs, afterTimers, closedTwice, JsMap.keys
    in *.
  cbn [flat_map List.map fst snd]. rewrite Hpace, Hname, H1, H2, H3, H4.
  repeat split.
Qed.

(** X15. In every state the manager reaches, [closeAll] leaves the
    manager as a new one with the same configuration, whatever processes
    exit meanwhile. Its closes run interleaved: among its events are two
    SessionClosed for every registered session, and no other
    SessionClosed. When no registered session holds an adapter, these
    are all its events, and every session's own SessionClosed, in the
    order of registration, comes before the first of the manager's. When
    every registered session holds a terminal, the two SessionClosed of
    a session come together, session by session in the order of
    registration. *)
Theorem closeAll_closes_every_session cfg history exits :
  let m := run cfg history in
  let names := JsMap.keys (sessions m) in
  let evs := snd (closeAll m exits) in
  fst (closeAll m exits) = new (config m) /\
  getSessionCount (fst (closeAll m exits)) = 0 /\
  Permutation (filter isSessionClosed evs) (closedTwice names) /\
  ((forall n, In n names -> holdsAdapter m n = false) ->
   evs = List.map SessionClosed names ++ List.map SessionClosed names) /\
  ((forall n, In n names -> holdsTerminal m n = true) ->
   filter isSessionClosed evs = closedTwice names).
Proof.
  intros m names evs.
  destruct (run_wellFormed cfg history) as [Hwf _]. fold m in Hwf.
  pose proof (run_namesAgree cfg history) as Hagree. fold m in Hagree.
  destruct Hwf as (Hs & _).
  pose proof (registered_under_own_name m Hs Hagree) as Hown.
  assert (Hfilter : filter isSessionClosed evs
                    = closesStarted (sessions m) ++ firstJobs (sessions m)
                      ++ secondJobs (sessions m) ++ afterTimers (sessions m)).
  { subst evs. unfold closeAll. cbn [snd].
    destruct (announcements_pass (sessions m)) as (H1 & H2 & H3 & H4).
    rewrite !filter_app, H1, H2, H3, H4, exits_announce_no_close. reflexivity. }
  assert (Hpace : forall (P : Session.t -> Prop),
             (forall n s, In n names -> JsMap.get (sessions m) n = Some s -> P s) ->
             Forall (fun entry => P (snd entry)) (sessions m)).
  { intros P HP. apply Forall_forall. intros [k v] Hin. cbn [snd].
    apply (HP k).
    - subst names. unfold JsMap.keys. apply in_map_iff. now exists (k, v).
    - now apply NoDup_keys_get. }
  split; [reflexivity|]. split; [reflexivity|]. split; [|split].
  - rewrite Hfilter. now apply closes_are_two_each.
  - intros Hnone.
    assert (Hall : Forall (fun entry => paceOf (snd entry) = Immediate) (sessions m)).
    { apply (Hpace (fun s => paceOf s = Immediate)). intros n s Hin Hget.
      specialize (Hnone n Hin). unfold holdsAdapter in Hnone. rewrite Hget in Hnone.
      unfold paceOf. now destruct (Session.adapter s). }
    destruct (closes_without_adapter _ Hown Hall) as (H1 & H2 & H3 & H4).
    subst evs. unfold closeAll. cbn [snd].
    rewrite H1, H2, H3, H4, (no_exits_without_terminal exits _ Hall).
    cbn [app]. now rewrite app_nil_r.
  - intros Hevery.
    assert (Hall : Forall (fun entry => paceOf (snd entry) = AfterWait) (sessions m)).
    { apply (Hpace (fun s => paceOf s = AfterWait)). intros n s Hin Hget.
      specialize (Hevery n Hin). unfold holdsTerminal in Hevery.
      rewrite Hget in Hevery. unfold SessionIOSpec.terminal in Hevery.
      unfold paceOf. destruct (Session.adapter s) as [a|]; [|discriminate].
      now destruct (Adapter.pty a). }
    destruct (closes_with_terminals _ Hown Hall) as (H1 & H2 & H3 & H4).
    rewrite Hfilter, H1, H2, H3, H4. reflexivity.
Qed.

(** X10. [createSession] registers before it starts. When the registry
    is full or the name is taken the manager is left unchanged. Otherwise
    the session is registered, bound to the chat beside the sessions
    already bound, and made the chat's and the global active session,
    whether or not the start succeeds; the other sessions and chats are
    untouched. A normal return leaves the new session IDLE and emits
    SessionCreated last; a throw leaves it registered with status ERROR
    and emits no SessionCreated. *)
Theorem createSession_registers_before_start
        m name workDir chatId cliTool launch now :
  let out := createSession m name workDir chatId cliTool launch now in
  let m' := snd (fst out) in
  if (JsMap.size (sessions m) >=? Config.maxSessions (Config.session (config m)))
     || hasSession m name
  then m' = m /\ snd out = []
  else
    getSessionCount m' = getSessionCount m + 1 /\
    boundTo m' chatId = JsSet.add (boundTo m chatId) name /\
    JsMap.get (chatActiveSession m') chatId = Some name /\
    activeSession m' = Some name /\
    (forall n, n <> name -> getSession m' n = getSession m n) /\
    (forall c, c <> chatId ->
               boundTo m' c = boundTo m c /\
               JsMap.get (chatActiveSession m') c = JsMap.get (chatActiveSession m) c) /\
    match fst (fst out) with
    | Ok =>
      statusOf m' name = Some SessionStatus.IDLE /\
      exists earlier, snd out = earlier ++ [SessionCreated name chatId]
    | Throw e =>
      statusOf m' name = Some SessionStatus.ERROR /\
      forall c, ~ In (SessionCreated name c) (snd out)
    end.
Proof.
  unfold createSession, hasSession.
  destruct (_ >=? _); cbn [orb]; [split; reflexivity|].
  destruct (JsMap.has (sessions m) name) eqn:Hfresh; [split; reflexivity|].
  match goal with
  | |- context [Session.start ?s ?a ?b ?c ?d ?e] =>
    pose proof (SessionIOFacts.start_status_events s a b c d e eq_refl)
      as [Hstatus Hevs];
    destruct (Session.start s a b c d e) as [[r s'] evs]
  end.
  cbn [fst snd] in Hstatus, Hevs.
  set (chats1 := if JsMap.has (chatSessions m) chatId then chatSessions m
                 else JsMap.set (chatSessions m) chatId JsSet.empty).
  assert (H1 : JsMap.get chats1 chatId = Some (boundTo m chatId)).
  { subst chats1. unfold JsMap.has, boundTo.
    destruct (JsMap.get (chatSessions m) chatId) as [set0|] eqn:E.
    - exact E.
    - apply get_set_same. }
  assert (H2 : forall c', chatId <> c' ->
                          JsMap.get chats1 c' = JsMap.get (chatSessions m) c').
  { intros c' Hne. subst chats1.
    destruct (JsMap.has (chatSessions m) chatId); [reflexivity|].
    now apply get_set_other. }
  rewrite H1.
  assert (Hmain : forall r0 evs0,
    let m' := snd (fst (r0 : result,
                    withSessions
                      {| sessions := JsMap.set (sessions m) name
                           (Session.new
                              (sessionOptions (config m) name workDir
                                              (toolOf (config m) cliTool)) now);
                         activeSession := Some name; config := config m;
                         chatSessions :=
                           JsMap.set chats1 chatId (JsSet.add (boundTo m chatId) name);
                         chatActiveSession :=
                           JsMap.set (chatActiveSession m) chatId name |}
                      (JsMap.set
                         (JsMap.set (sessions m) name
                            (Session.new
                               (sessionOptions (config m) name workDir
                                               (toolOf (config m) cliTool)) now))
                         name s'),
                    (evs0 : list Event))) in
    getSessionCount m' = getSessionCount m + 1 /\
    boundTo m' chatId = JsSet.add (boundTo m chatId) name /\
    JsMap.get (chatActiveSession m') chatId = Some name /\
    activeSession m' = Some name /\
    (forall n, n <> name -> getSession m' n = getSession m n) /\
    (forall c, c <> chatId ->
               boundTo m' c = boundTo m c /\
               JsMap.get (chatActiveSession m') c = JsMap.get (chatActiveSession m) c) /\
    statusOf m' name = Some (Session.status s')).
  { intros r0 evs0. cbn [fst snd]. unfold withSessions, getSessionCount, getSession,
                                    statusOf.
    cbn [sessions activeSession chatSessions chatActiveSession config].
    split.
    { rewrite size_set_old by (rewrite has_set, eqb_refl; reflexivity).
      now apply size_set_new. }
    split.
    { unfold boundTo at 1. cbn [chatSessions]. now rewrite get_set_same. }
    split; [apply get_set_same|]. split; [reflexivity|]. split.
    { intros n Hne.
      assert (Hne' : name <> n) by congruence.
      now rewrite !(get_set_other _ _ _ _ Hne'). }
    split.
    { intros c Hne. assert (Hne' : chatId <> c) by congruence. split.
      - unfold boundTo. cbn [chatSessions].
        now rewrite (get_set_other _ _ _ _ Hne'), (H2 _ Hne').
      - now apply get_set_other. }
    now rewrite get_set_same. }
  destruct r as [|e]; cbn [fst snd] in *;
    destruct (Hmain Ok evs) as (G1 & G2 & G3 & G4 & G5 & G6 & G7);
    cbn [fst snd] in G1, G2, G3, G4, G5, G6, G7;
    (split; [exact G1|]); (split; [exact G2|]); (split; [exact G3|]);
    (split; [exact G4|]); (split; [exact G5|]); (split; [exact G6|]);
    (split; [rewrite <- Hstatus; exact G7|]).
  - now exists evs.
  - intros c. apply Hevs.
Qed.

(** X16. Closing one session leaves the others alone. In a state the
    manager reaches, a successful [closeSession name] ends with the two
    SessionClosed events for that name (the session's, then the
    manager's) and emits no other SessionClosed; they are all it emits
    when the session holds no terminal. It lowers the session count by
    one, keeps every other session as it was and every chat whose active
    session is another one on that session, and a second
    [closeSession name] throws NotFound and changes nothing. *)
Theorem closeSession_leaves_the_rest config history name shutdown m' evs :
  let m := run config history in
  closeSession m name shutdown = (Ok, m', evs) ->
  (exists earlier, evs = earlier ++ [SessionClosed name; SessionClosed name]) /\
  filter isSessionClosed evs = [SessionClosed name; SessionClosed name] /\
  (holdsTerminal m name = false ->
   evs = [SessionClosed name; SessionClosed name]) /\
  getSessionCount m' = getSessionCount m - 1 /\
  (forall n, n <> name -> getSession m' n = getSession m n) /\
  (forall c n, JsMap.get (chatActiveSession m) c = Some n -> n <> name ->
               JsMap.get (chatActiveSession m') c = Some n) /\
  (forall c, JsMap.get (chatActiveSession m) c = None ->
             JsMap.get (chatActiveSession m') c = None) /\
  (forall again, closeSession m' name again = (Throw (NotFound name), m', [])).
Proof.
  intros m Hclose.
  destruct (run_wellFormed config history) as [Hwf _]. fold m in Hwf.
  destruct Hwf as (Hs & _).
  assert (Hhas : JsMap.has (sessions m) name = true)
    by (apply (closeSession_registered m name shutdown); eauto).
  destruct (closeSession_maps _ _ _ _ Hclose) as (Es & _ & Ea).
  assert (Hevs : (exists earlier,
                     evs = earlier ++ [SessionClosed name; SessionClosed name]) /\
                 filter isSessionClosed evs
                 = [SessionClosed name; SessionClosed name] /\
                 (holdsTerminal m name = false ->
                  evs = [SessionClosed name; SessionClosed name])).
  { destruct (proj1 (has_get _ _) Hhas) as [session Hget].
    destruct (closeSession_announces m name session shutdown Hget
                (run_namesAgree config history _ _ Hget))
      as (m0 & evs0 & Hev & _ & H1 & H2 & H3).
    rewrite Hev in Hclose. injection Hclose as _ <-. auto. }
  destruct Hevs as (H1 & H2 & H3).
  split; [exact H1|]. split; [exact H2|]. split; [exact H3|].
  unfold getSessionCount, getSession. rewrite Es.
  split; [now apply size_delete|]. split; [|split; [|split]].
  - intros n Hne. apply get_delete_other. congruence.
  - intros c n Hn Hne. rewrite Ea, unbind_active. unfold activeAfter. rewrite Hn.
    replace (JS.eqb n name) with false; [reflexivity|].
    symmetry. now apply eqb_neq.
  - intros c Hn. rewrite Ea, unbind_active. unfold activeAfter. now rewrite Hn.
  - intros again. unfold closeSession. rewrite Es, get_delete_same. reflexivity.
Qed.

(** Session "b" is closed, and its process exits on the first signal. *)
Lemma closeSession_leaves_the_rest_witness :
  let out := closeSession shared (js "b") (ExitsOnClose 0 15 5) in
  filter isSessionClosed (snd out)
    = [SessionClosed (js "b"); SessionClosed (js "b")] /\
  getSessionCount (snd (fst out)) = getSessionCount shared - 1.
Proof.
  intros out.
  assert (H : closeSession (run demoConfig
                                (twoChats ++ [(AddSessionToChat (js "c") (js "c1"), 4)]))
                           (js "b") (ExitsOnClose 0 15 5)
              = (Ok, snd (fst out), snd out))
    by (vm_compute; reflexivity).
  destruct (closeSession_leaves_the_rest
              demoConfig (twoChats ++ [(AddSessionToChat (js "c") (js "c1"), 4)])
              (js "b") (ExitsOnClose 0 15 5) (snd (fst out)) (snd out) H)
    as (_ & Hfilter & _ & Hcount & _).
  split; [exact Hfilter | exact Hcount].
Defined.

End RegistryFacts.

(** ** [stripAnsi] *)

Module StripAnsiFacts.
Import JS Regex OutputParser StripAnsiSpec.

Lemma m_first_char {A} ic ml c r :
  beginsWith c r = true ->
  forall before after caps (k : jsstring -> jsstring -> captures -> option A),
    match after with
    | [] => True
    | x :: _ => sameChar ic c x = false
    end ->
    m ic ml r before after caps k = None.
Proof.
  induction r; cbn [beginsWith]; try discriminate;
    intros Hb before after caps k Hafter; cbn [m].
  - apply N.eqb_eq in Hb. subst. destruct after; [reflexivity|]. now rewrite Hafter.
  - now apply IHr1.
  - now apply IHr.
Qed.

Lemma matchHere_first_char f c r before after :
  beginsWith c r = true ->
  match after with
  | [] => True
  | x :: _ => sameChar (ignoreCase f) c x = false
  end ->
  matchHere f r before after = None.
Proof. intros Hb H. unfold matchHere. now apply (m_first_char _ _ c). Qed.

Lemma replaceWith_first_char {St} f c r (cb : St -> captures -> jsstring * St) :
  beginsWith c r = true ->
  forall after fuel before st,
    Forall (fun x => sameChar (ignoreCase f) c x = false) after ->
    (List.length after < fuel)%nat ->
    replaceWith f r cb fuel before after st = after.
Proof.
  intros Hb. induction after as [|x a IH]; intros fuel before st Hall Hfuel;
    (destruct fuel as [|fuel]; [inversion Hfuel|]); cbn [replaceWith].
  - now rewrite (matchHere_first_char f c).
  - inversion Hall as [|? ? Hx Ha]; subst.
    rewrite (matchHere_first_char f c) by assumption.
    rewrite IH; [reflexivity | exact Ha | cbn [List.length] in Hfuel; lia].
Qed.

Lemma replaceAll_first_char {St} f c r (cb : St -> captures -> jsstring * St) s st :
  beginsWith c r = true ->
  Forall (fun x => sameChar (ignoreCase f) c x = false) s ->
  replaceAll f r cb s st = s.
Proof.
  intros Hb H. unfold replaceAll. apply (replaceWith_first_char f c); [exact Hb | exact H | lia].
Qed.

Lemma search_first_char f c r :
  beginsWith c r = true ->
  forall after before,
    Forall (fun x => sameChar (ignoreCase f) c x = false) after ->
    search f r before after = None.
Proof.
  intros Hb. induction after as [|x a IH]; intros before Hall; cbn [search].
  - now rewrite (matchHere_first_char f c).
  - inversion Hall as [|? ? Hx Ha]; subst.
    rewrite (matchHere_first_char f c) by assumption. now apply IH.
Qed.

Lemma exec_first_char f c r s :
  beginsWith c r = true ->
  Forall (fun x => sameChar (ignoreCase f) c x = false) s ->
  exec f r s = None.
Proof. intros Hb H. unfold exec. now apply (search_first_char f c). Qed.

Lemma test_first_char f c r s :
  beginsWith c r = true ->
  Forall (fun x => sameChar (ignoreCase f) c x = false) s ->
  test f r s = false.
Proof. intros Hb H. unfold test. now rewrite (exec_first_char f c). Qed.

Lemma replaceWith_class {St} f p (cb : St -> captures -> jsstring * St) :
  (forall st c, fst (cb st c) = []) ->
  forall after fuel before st,
    (List.length after < fuel)%nat ->
    replaceWith f (Class p) cb fuel before after st
      = filter (fun c => negb (p c)) after.
Proof.
  intros Hcb. induction after as [|x a IH]; intros fuel before st Hfuel;
    (destruct fuel as [|fuel]; [inversion Hfuel|]); cbn [replaceWith filter].
  - reflexivity.
  - cbn [List.length] in Hfuel. unfold matchHere. cbn [m].
    destruct (p x); cbn [negb].
    + match goal with |- context [cb st ?c] =>
        pose proof (Hcb st c) as Hrep; destruct (cb st c) as [rep st']
      end.
      cbn [fst] in Hrep. subst rep.
      replace (List.length a <? List.length (x :: a))%nat with true
        by (symmetry; apply Nat.ltb_lt; cbn [List.length]; lia).
      cbn [app]. apply IH. lia.
    + f_equal. apply IH. lia.
Qed.

Lemma remove_class p s : remove (Class p) s = filter (fun c => negb (p c)) s.
Proof.
  unfold remove, replaceAll. apply replaceWith_class; [reflexivity | lia].
Qed.

Lemma plain_no_escape text :
  plain text -> Forall (fun x => sameChar (ignoreCase noFlags) 27%N x = false) text.
Proof.
  apply Forall_impl. intros c Hc. cbn [noFlags ignoreCase sameChar].
  apply N.eqb_neq. intros <-. discriminate Hc.
Qed.

Lemma patterns_begin_with_escape :
  beginsWith 27%N cursorPosition = true /\
  (forall final, beginsWith 27%N (cursorCount final) = true) /\
  Forall (fun r => beginsWith 27%N r = true) ansiRegex.
Proof.
  split; [reflexivity|]. split; [reflexivity|]. repeat constructor.
Qed.

Lemma fold_remove_plain regexes :
  Forall (fun r => beginsWith 27%N r = true) regexes ->
  forall text, plain text ->
               fold_left (fun acc regex => remove regex acc) regexes text = text.
Proof.
  induction 1 as [|r rs Hr _ IH]; intros text Hp; [reflexivity|].
  cbn [fold_left]. unfold remove at 2.
  rewrite (replaceAll_first_char noFlags 27%N r _ text tt Hr (plain_no_escape _ Hp)).
  now apply IH.
Qed.

Lemma filter_plain text :
  plain text -> filter (fun c => negb (isControl c)) text = text.
Proof.
  induction 1 as [|c text Hc _ IH]; [reflexivity|].
  cbn [filter]. now rewrite Hc, IH.
Qed.

Lemma plain_forallb text :
  forallb (fun c => negb (isControl c)) text = true -> plain text.
Proof.
  intros H. unfold plain. apply Forall_forall. intros c Hc.
  rewrite forallb_forall in H. apply negb_true_iff. now apply H.
Qed.

Lemma stripAnsi_plain text : plain text -> stripAnsi text = text.
Proof.
  intros Hp. pose proof (plain_no_escape text Hp) as Hesc.
  destruct patterns_begin_with_escape as (E1 & Hcount & Hansi).
  unfold stripAnsi.
  rewrite (replaceAll_first_char noFlags 27%N cursorPosition onCursorPosition
                                 text 0 E1 Hesc).
  rewrite (replaceAll_first_char noFlags 27%N (cursorCount "C") (onCount 32%N)
                                 text tt (Hcount _) Hesc).
  rewrite (replaceAll_first_char noFlags 27%N (cursorCount "@") (onCount 32%N)
                                 text tt (Hcount _) Hesc).
  rewrite (replaceAll_first_char noFlags 27%N (cursorCount "B") (onCount 10%N)
                                 text tt (Hcount _) Hesc).
  rewrite (fold_remove_plain _ Hansi _ Hp).
  change controlChar with (Class isControl).
  rewrite remove_class. now apply filter_plain.
Qed.

Lemma stripAnsi_is_plain text : plain (stripAnsi text).
Proof.
  unfold stripAnsi. change controlChar with (Class isControl).
  rewrite remove_class. unfold plain. apply Forall_forall.
  intros c Hc. apply filter_In in Hc. destruct Hc as [_ Hc].
  now apply negb_true_iff in Hc.
Qed.

(** X18. What [stripAnsi] returns holds no escape character and no other
    control character of the class it removes last (tab, line feed and
    carriage return are not in that class), and stripping it again
    changes nothing. *)
Theorem stripAnsi_removes_control_characters text :
  plain (stripAnsi text) /\
  ~ In 27%N (stripAnsi text) /\
  stripAnsi (stripAnsi text) = stripAnsi text.
Proof.
  pose proof (stripAnsi_is_plain text) as Hp.
  split; [exact Hp|]. split.
  - intros Hin. unfold plain in Hp. rewrite Forall_forall in Hp.
    specialize (Hp _ Hin). discriminate Hp.
  - now apply stripAnsi_plain.
Qed.

(** X19. Text without control characters passes through [stripAnsi]
    unchanged: none of the cursor and escape patterns can match where
    there is no escape character. *)
Theorem stripAnsi_keeps_plain_text text :
  plain text -> stripAnsi text = text.
Proof. exact (stripAnsi_plain text). Qed.

Lemma stripAnsi_keeps_plain_text_witness :
  stripAnsi (js "Allow edit? [Y/N]") = js "Allow edit? [Y/N]".
Proof.
  apply stripAnsi_keeps_plain_text.
  apply plain_forallb. vm_compute. reflexivity.
Defined.

End StripAnsiFacts.

(** ** The shape of what [parse] returns *)

Module ParseShapeFacts.
Import JS Regex OutputParser OutputParserSpec StripAnsiSpec.
Import StripAnsiFacts.

(** *** [trim] *)

Lemma trimStart_head s c r : trimStart s = c :: r -> isSpace c = false.
Proof.
  induction s as [|x s IH]; cbn [trimStart]; [discriminate|].
  destruct (isSpace x) eqn:E; [exact IH|].
  intros H. injection H as <- _. exact E.
Qed.

Lemma trimStart_fixed s :
  match s with [] => True | c :: _ => isSpace c = false end -> trimStart s = s.
Proof. destruct s as [|c s]; [reflexivity|]. cbn [trimStart]. now intros ->. Qed.

Lemma trimStart_idem s : trimStart (trimStart s) = trimStart s.
Proof.
  apply trimStart_fixed. destruct (trimStart s) as [|c r] eqn:E; [exact I|].
  exact (trimStart_head _ _ _ E).
Qed.

Lemma trimStart_snoc l c :
  isSpace c = false -> trimStart (l ++ [c]) = trimStart l ++ [c].
Proof.
  intros Hc. induction l as [|x l IH]; cbn [app trimStart].
  - now rewrite Hc.
  - now destruct (isSpace x).
Qed.

Lemma trimEnd_idem s : trimEnd (trimEnd s) = trimEnd s.
Proof. unfold trimEnd. now rewrite rev_involutive, trimStart_idem. Qed.

Lemma trim_idem s : trim (trim s) = trim s.
Proof.
  unfold trim. set (t := trimStart s).
  assert (H : trimStart (trimEnd t) = trimEnd t).
  { destruct t as [|c r] eqn:E; [reflexivity|].
    pose proof (trimStart_head _ _ _ E) as Hc.
    unfold trimEnd. cbn [rev]. rewrite (trimStart_snoc _ _ Hc), rev_app_distr.
    cbn [rev app]. cbn [trimStart]. now rewrite Hc. }
  rewrite H. apply trimEnd_idem.
Qed.

Lemma trimStart_blank s : blank s = true -> trimStart s = [].
Proof.
  unfold blank. induction s as [|c s IH]; [reflexivity|].
  cbn [forallb trimStart]. intros H. apply andb_prop in H. destruct H as [-> H].
  now apply IH.
Qed.

Lemma trimStart_nil s : trimStart s = [] -> blank s = true.
Proof.
  unfold blank. induction s as [|c s IH]; [reflexivity|].
  cbn [forallb trimStart]. destruct (isSpace c); [exact IH | discriminate].
Qed.

Lemma trim_blank s : blank s = true -> trim s = [].
Proof. intros H. unfold trim. now rewrite (trimStart_blank _ H). Qed.

Lemma trim_nil s : trim s = [] -> blank s = true.
Proof.
  unfold trim, trimEnd. intros H. apply trimStart_nil.
  destruct (trimStart s) as [|c r] eqn:E; [reflexivity|].
  pose proof (trimStart_head _ _ _ E) as Hc. exfalso.
  cbn [rev] in H. rewrite (trimStart_snoc _ _ Hc) in H.
  apply (f_equal (@List.length _)) in H.
  rewrite length_rev, length_app in H. cbn [List.length] in H. lia.
Qed.

Lemma split_nl_blank s :
  blank s = true -> forallb blank (split_nl s) = true.
Proof.
  unfold blank. induction s as [|c s IH]; [reflexivity|].
  cbn [forallb split_nl]. intros H. apply andb_prop in H. destruct H as [Hc H].
  specialize (IH H). destruct (c =? 10)%N.
  - exact IH.
  - destruct (split_nl s) as [|l ls]; cbn [forallb] in *.
    + now rewrite Hc.
    + apply andb_prop in IH. destruct IH as [Hl Hls]. now rewrite Hc, Hl, Hls.
Qed.

(** *** The detectors on text that cannot hold a prompt *)

Lemma not_bracket ic x : x <> 91%N -> sameChar ic 91%N x = false.
Proof.
  intros Hx. unfold sameChar. destruct ic; apply N.eqb_neq; [|congruence].
  change (upper 91%N) with 91%N. unfold upper.
  destruct ((97 <=? x) && (x <=? 122))%N eqn:E; [|congruence].
  apply andb_prop in E. destruct E as [E1 E2].
  apply N.leb_le in E1, E2. lia.
Qed.

Lemma without_bracket f s :
  without 91%N s -> Forall (fun x => sameChar (ignoreCase f) 91%N x = false) s.
Proof. apply Forall_impl. intros x. apply not_bracket. Qed.

Lemma detectConfirmPrompt_needs_bracket data now :
  without 91%N (stripAnsi data) -> detectConfirmPrompt data now = None.
Proof.
  intros H. unfold detectConfirmPrompt. cbn zeta.
  rewrite !(test_first_char flag_i 91%N) by
      first [reflexivity | exact (without_bracket flag_i _ H)].
  rewrite (exec_first_char noFlags 91%N) by
      first [reflexivity | exact (without_bracket noFlags _ H)].
  reflexivity.
Qed.

Lemma scanLines_start_plain hint lines prev :
  forallb plainLine lines = true ->
  scanLines hint prev lines scanStart = scanStart.
Proof.
  intros H.
  pose proof (OutputParserFacts.scanLines_plain hint lines [] prev scanStart
                eq_refl H) as E.
  rewrite app_nil_r in E. exact E.
Qed.

Lemma detectInteractiveSelect_needs_options data now :
  forallb plainLine (split_nl (stripAnsi data)) = true ->
  detectInteractiveSelect data now = None.
Proof.
  intros H. unfold detectInteractiveSelect. cbn zeta.
  destruct (isInputSuggestion (stripAnsi data)); [reflexivity|].
  rewrite (scanLines_start_plain _ _ _ H). reflexivity.
Qed.

Lemma blank_plainLine l : blank l = true -> plainLine l = true.
Proof. intros H. unfold plainLine. now rewrite (trim_blank _ H). Qed.

Lemma without_forallb c s :
  forallb (fun x => negb (x =? c)%N) s = true -> without c s.
Proof.
  unfold without. intros H. apply Forall_forall. intros x Hx.
  rewrite forallb_forall in H. specialize (H x Hx).
  apply negb_true_iff in H. now apply N.eqb_neq.
Qed.

Lemma blank_without_bracket s : blank s = true -> without 91%N s.
Proof.
  unfold blank, without. intros H. apply Forall_forall. intros x Hx.
  rewrite forallb_forall in H. specialize (H x Hx). intros ->. discriminate H.
Qed.

Lemma parse_cases data now stamp :
  parse data now stamp = [] \/ exists b, parse data now stamp = [b].
Proof.
  unfold parse.
  destruct (detectInteractiveSelect data now); [right; eauto|].
  destruct (detectConfirmPrompt data now); [right; eauto|].
  cbn zeta. destruct (truthy (trim (stripAnsi data))); [right; eauto | now left].
Qed.

Lemma parse_confirm_fields data now stamp b :
  In b (parse data now stamp) -> type b = OutputType.CONFIRM ->
  exists opts c i,
    confirmOptions b = Some opts /\ confirmId b = Some (c :: i).
Proof.
  unfold parse.
  destruct (detectInteractiveSelect data now) as [sel|] eqn:Hsel.
  { intros [<- | []] _. unfold createBlock. cbn [confirmOptions confirmId option_map fst snd].
    destruct (OutputParserFacts.detectInteractiveSelect_Some _ _ _ Hsel)
      as (_ & _ & _ & _ & Hid).
    rewrite Hid. exists (options sel).
    change (js "interactive_") with (105%N :: tl (js "interactive_")).
    cbn [app]. eauto. }
  destruct (detectConfirmPrompt data now) as [[opts i]|] eqn:Hc.
  { intros [<- | []] _. unfold createBlock. cbn [confirmOptions confirmId option_map fst snd].
    rewrite (OutputParserFacts.detectConfirmPrompt_id _ _ _ _ Hc).
    exists opts.
    change (js "confirm_") with (99%N :: tl (js "confirm_")).
    cbn [app]. eauto. }
  cbn zeta. destruct (truthy (trim (stripAnsi data))); [|intros []].
  intros [<- | []]. unfold createBlock. cbn [type].
  destruct (detectError data); discriminate.
Qed.

(** X20. [parse] returns at most one unit. The unit carries the time
    stamp given to [createBlock], is never of type SYSTEM, and has
    trimmed content. It is marked as requiring confirmation, and carries
    options and an id, exactly when its type is CONFIRM; a unit of
    another type holds the cleaned and trimmed chunk, which is not
    empty. *)
Theorem parse_gives_at_most_one_unit data now stamp :
  (List.length (parse data now stamp) <= 1)%nat /\
  forall b, In b (parse data now stamp) ->
    timestamp b = stamp /\
    type b <> OutputType.SYSTEM /\
    trim (content b) = content b /\
    (if match type b with OutputType.CONFIRM => true | _ => false end
     then requiresConfirm b = Some true /\
          confirmOptions b <> None /\ confirmId b <> None
     else requiresConfirm b = None /\
          confirmOptions b = None /\ confirmId b = None /\
          content b = trim (stripAnsi data) /\ content b <> []).
Proof.
  unfold parse.
  destruct (detectInteractiveSelect data now) as [sel|].
  { split; [cbn [List.length]; lia|]. intros b [<- | []]. unfold createBlock.
    cbn [timestamp type content requiresConfirm confirmOptions confirmId option_map].
    repeat split; try discriminate. apply trim_idem. }
  destruct (detectConfirmPrompt data now) as [c|].
  { split; [cbn [List.length]; lia|]. intros b [<- | []]. unfold createBlock.
    cbn [timestamp type content requiresConfirm confirmOptions confirmId option_map].
    repeat split; try discriminate. apply trim_idem. }
  cbn zeta. destruct (truthy (trim (stripAnsi data))) eqn:Hc.
  - split; [cbn [List.length]; lia|]. intros b [<- | []]. unfold createBlock.
    cbn [timestamp type content requiresConfirm confirmOptions confirmId option_map].
    rewrite !trim_idem.
    destruct (detectError data); repeat split; try discriminate;
      intros E; rewrite E in Hc; discriminate Hc.
  - split; [cbn [List.length]; lia | intros b []].
Qed.

(** X21. A chunk that is blank once its escape sequences are stripped
    yields no unit: neither detector fires on white space. *)
Theorem parse_blank_gives_nothing data now stamp :
  trim (stripAnsi data) = [] -> parse data now stamp = [].
Proof.
  intros H. pose proof (trim_nil _ H) as Hb.
  unfold parse.
  rewrite detectInteractiveSelect_needs_options.
  - rewrite detectConfirmPrompt_needs_bracket by now apply blank_without_bracket.
    cbn zeta. now rewrite H.
  - pose proof (split_nl_blank _ Hb) as Hl.
    rewrite forallb_forall in Hl. apply forallb_forall.
    intros l Hin. apply blank_plainLine. now apply Hl.
Qed.

Lemma parse_blank_gives_nothing_witness :
  parse ([27%N] ++ js "[2J" ++ [27%N] ++ js "[0m  " ++ nl) 5 7 = [].
Proof.
  apply parse_blank_gives_nothing. vm_compute. reflexivity.
Defined.

(** X22. A chunk whose cleaned text holds no opening bracket, and of
    whose lines none is an arrow line or a numbered line, is never a
    confirmation: it yields one unit with the cleaned and trimmed text,
    of type ERROR when [detectError] fires and NORMAL otherwise, or no
    unit when that text is empty. *)
Theorem parse_plain_text_is_passed_on data now stamp :
  without 91%N (stripAnsi data) ->
  forallb plainLine (split_nl (stripAnsi data)) = true ->
  parse data now stamp
    = if truthy (trim (stripAnsi data))
      then [ {| type := if detectError data then OutputType.ERROR
                        else OutputType.NORMAL;
                content := trim (stripAnsi data);
                timestamp := stamp;
                requiresConfirm := None;
                confirmOptions := None;
                confirmId := None |} ]
      else [].
Proof.
  intros Hb Hl. unfold parse.
  rewrite (detectInteractiveSelect_needs_options _ _ Hl).
  rewrite (detectConfirmPrompt_needs_bracket _ _ Hb). cbn zeta.
  destruct (truthy (trim (stripAnsi data))); [|reflexivity].
  unfold createBlock. cbn [option_map]. now rewrite trim_idem.
Qed.

Lemma parse_plain_text_is_passed_on_witness :
  let data := js "Error: no such file" in
  parse data 5 7
    = if truthy (trim (stripAnsi data))
      then [ {| type := if detectError data then OutputType.ERROR
                        else OutputType.NORMAL;
                content := trim (stripAnsi data);
                timestamp := 7;
                requiresConfirm := None;
                confirmOptions := None;
                confirmId := None |} ]
      else [].
Proof.
  intros data. apply parse_plain_text_is_passed_on.
  - apply without_forallb. vm_compute. reflexivity.
  - vm_compute. reflexivity.
Defined.

End ParseShapeFacts.

(** ** [convertToInteractiveResponse] *)

Module InteractiveResponseFacts.
Import JS InteractiveResponse InteractiveResponseSpec.

Lemma digit_not_space c : isDigit c = true -> isSpace c = false.
Proof.
  unfold isDigit. intros H. apply andb_prop in H. destruct H as [H1 H2].
  apply N.leb_le in H1, H2.
  destruct (isSpace c) eqn:E; [exfalso | reflexivity].
  unfold isSpace in E.
  repeat (apply orb_prop in E; destruct E as [E | E]);
    try (apply andb_prop in E; destruct E as [E E']; apply N.leb_le in E, E');
    try apply N.eqb_eq in E; lia.
Qed.

Lemma digit_not_sign c :
  isDigit c = true -> (c =? 45)%N = false /\ (c =? 43)%N = false.
Proof.
  unfold isDigit. intros H. apply andb_prop in H. destruct H as [H1 H2].
  apply N.leb_le in H1, H2. split; apply N.eqb_neq; lia.
Qed.

Lemma digitsPrefix_app ds rest :
  forallb isDigit ds = true -> endsNumber rest = true ->
  digitsPrefix (ds ++ rest) = ds.
Proof.
  intros Hds Hrest. induction ds as [|c ds IH]; cbn [app digitsPrefix].
  - destruct rest as [|x rest]; [reflexivity|]. cbn [digitsPrefix].
    cbn [endsNumber] in Hrest. apply negb_true_iff in Hrest. now rewrite Hrest.
  - cbn [forallb] in Hds. apply andb_prop in Hds. destruct Hds as [-> Hds].
    now rewrite IH.
Qed.

Lemma parseInt_leading_number ds rest :
  ds <> [] -> forallb isDigit ds = true -> endsNumber rest = true ->
  parseInt (ds ++ rest) = Some (parseDigits ds).
Proof.
  intros Hne Hds Hrest. destruct ds as [|c ds]; [contradiction|].
  pose proof Hds as Hc. cbn [forallb] in Hc. apply andb_prop in Hc.
  destruct Hc as [Hc _].
  unfold parseInt. cbn [app trimStart]. rewrite (digit_not_space _ Hc).
  destruct (digit_not_sign _ Hc) as [-> ->].
  change (c :: ds ++ rest) with ((c :: ds) ++ rest).
  rewrite (digitsPrefix_app _ _ Hds Hrest).
  now rewrite Z.mul_1_l.
Qed.

Lemma includes_empty s : includes s [] = true.
Proof. now destruct s. Qed.

Section Convert.
Variable lower : jsstring -> jsstring.

Lemma byNumber_defined (opts : list jsstring) num :
  (num >=? 1) && (num <=? Z.of_nat (List.length opts)) = true ->
  exists o, nth_error opts (Z.to_nat (num - 1)) = Some o.
Proof.
  intros H. apply andb_prop in H. destruct H as [H1 H2].
  rewrite Z.geb_leb in H1. apply Z.leb_le in H1, H2.
  destruct (nth_error opts (Z.to_nat (num - 1))) as [o|] eqn:E; [eauto|].
  apply nth_error_None in E. lia.
Qed.

(** X23. [convertToInteractiveResponse] never invents a reply. Without
    options it returns the input as it is, untrimmed. With options it
    returns one of them, or null; and it returns null only when no
    option equals, contains or is contained in the trimmed input, all
    compared in lower case. *)
Theorem convertToInteractiveResponse_picks_an_option userInput options :
  match convertToInteractiveResponse lower userInput options with
  | Some r =>
    match options with
    | None | Some [] => r = userInput
    | Some opts => In r opts
    end
  | None =>
    match options with
    | None | Some [] => False
    | Some opts =>
      forall o, In o opts ->
        eqb (lower o) (lower (trim userInput)) = false /\
        includes (lower o) (lower (trim userInput)) = false /\
        includes (lower (trim userInput)) (lower o) = false
    end
  end.
Proof.
  destruct options as [[|o0 os]|]; [reflexivity | | reflexivity].
  set (opts := o0 :: os).
  assert (Htext :
    match
      match find (fun option => eqb (lower option) (lower (trim userInput))) opts with
      | Some option => Some option
      | None =>
        find (fun option =>
                includes (lower option) (lower (trim userInput))
                || includes (lower (trim userInput)) (lower option)) opts
      end
    with
    | Some r => In r opts
    | None =>
      forall o, In o opts ->
        eqb (lower o) (lower (trim userInput)) = false /\
        includes (lower o) (lower (trim userInput)) = false /\
        includes (lower (trim userInput)) (lower o) = false
    end).
  { remember (find (fun option => eqb (lower option) (lower (trim userInput))) opts)
      as exact eqn:E1.
    remember (find (fun option =>
                      includes (lower option) (lower (trim userInput))
                      || includes (lower (trim userInput)) (lower option)) opts)
      as partial eqn:E2.
    symmetry in E1, E2.
    destruct exact as [r|].
    - apply find_some in E1. exact (proj1 E1).
    - destruct partial as [r|].
      + apply find_some in E2. exact (proj1 E2).
      + intros o Hin. pose proof (find_none _ _ E1 _ Hin) as H1.
        pose proof (find_none _ _ E2 _ Hin) as H2. cbn beta in H1, H2.
        apply orb_false_elim in H2. tauto. }
  unfold convertToInteractiveResponse. fold opts. cbn zeta.
  destruct (parseInt (trim userInput)) as [num|]; [|exact Htext].
  destruct ((num >=? 1) && (num <=? Z.of_nat (List.length opts))) eqn:E;
    [|exact Htext].
  destruct (byNumber_defined opts num E) as [o Ho]. rewrite Ho.
  now apply nth_error_In in Ho.
Qed.

(** X24. A reply that starts with a number in range selects by position,
    whatever follows the digits and whatever the options say: the text
    after the number is not looked at. *)
Theorem leading_number_selects_by_position userInput ds rest opts :
  trim userInput = ds ++ rest ->
  ds <> [] -> forallb isDigit ds = true -> endsNumber rest = true ->
  1 <= parseDigits ds <= Z.of_nat (List.length opts) ->
  exists o,
    nth_error opts (Z.to_nat (parseDigits ds - 1)) = Some o /\
    convertToInteractiveResponse lower userInput (Some opts) = Some o.
Proof.
  intros Htrim Hne Hds Hrest Hrange.
  assert (E : (parseDigits ds >=? 1)
              && (parseDigits ds <=? Z.of_nat (List.length opts)) = true).
  { apply andb_true_intro. rewrite Z.geb_leb. split; apply Z.leb_le; lia. }
  destruct (byNumber_defined opts _ E) as [o Ho]. exists o. split; [exact Ho|].
  unfold convertToInteractiveResponse.
  destruct opts as [|o0 os]; [cbn in Hrange; lia|].
  cbn zeta. rewrite Htrim, (parseInt_leading_number _ _ Hne Hds Hrest), E.
  exact Ho.
Qed.

(** X25. A blank reply is not refused: when lower-casing maps the empty
    string to itself, it selects the first option whose lower-case form
    is empty and, when there is none, the first option, because every
    string includes the empty one. *)
Theorem blank_reply_selects_the_first_option userInput o os :
  lower [] = [] -> trim userInput = [] ->
  convertToInteractiveResponse lower userInput (Some (o :: os))
    = Some (match find (fun x => eqb (lower x) []) (o :: os) with
            | Some x => x
            | None => o
            end).
Proof.
  intros Hlower Htrim. unfold convertToInteractiveResponse. cbn zeta.
  rewrite Htrim, Hlower.
  change (parseInt []) with (@None Z).
  destruct (find (fun option => eqb (lower option) []) (o :: os)); [reflexivity|].
  cbn [find]. now rewrite includes_empty.
Qed.

End Convert.

Lemma leading_number_selects_by_position_witness :
  exists o,
    nth_error [js "first"; js "second"] (Z.to_nat (parseDigits (js "2") - 1)) = Some o /\
    convertToInteractiveResponse asciiLower (js " 2nd one ")
                                 (Some [js "first"; js "second"]) = Some o.
Proof.
  apply (leading_number_selects_by_position asciiLower (js " 2nd one ")
                                            (js "2") (js "nd one")).
  - vm_compute. reflexivity.
  - discriminate.
  - vm_compute. reflexivity.
  - vm_compute. reflexivity.
  - vm_compute. split; discriminate.
Defined.

Lemma blank_reply_selects_the_first_option_witness :
  convertToInteractiveResponse asciiLower (js "  ") (Some [js "Yes"; js "No"])
    = Some (match find (fun x => eqb (asciiLower x) []) [js "Yes"; js "No"] with
            | Some x => x
            | None => js "Yes"
            end).
Proof.
  apply blank_reply_selects_the_first_option.
  - reflexivity.
  - vm_compute. reflexivity.
Defined.

End InteractiveResponseFacts.

(** ** The path of the output through the adapter *)

Module ClaudeOutputFacts.
Import JS Regex ClaudeOutput ClaudeOutputSpec.

Lemma shouldFilter_last o last content :
  if fst (shouldFilter o last content)
  then snd (shouldFilter o last content) = last
  else snd (shouldFilter o last content) = last
       \/ snd (shouldFilter o last content) = content.
Proof.
  unfold shouldFilter.
  destruct (matchesFilter o content); [reflexivity|].
  destruct (filterEnabled o); cbn [fst snd]; [|auto].
  destruct (JS.length (remove space content) <? minLength o); [reflexivity|].
  destruct (eqb content last); [reflexivity|].
  destruct (test flag_i progressState (remove space content)).
  - destruct (JS.length (remove space content) >? 50); cbn [fst snd]; auto.
  - cbn [fst snd]. auto.
Qed.

(** X26. [shouldFilter] remembers only what passes. A dropped content
    leaves [lastOutputContent] as it was; a content that passes either
    becomes [lastOutputContent] or leaves it as it was. Content equal to
    [lastOutputContent] is dropped exactly when a filter of the list
    matches or the short-message filter is enabled. With that filter
    disabled only the list decides, and nothing is remembered. *)
Theorem shouldFilter_remembers_only_what_passes o last content :
  let out := shouldFilter o last content in
  (if fst out then snd out = last else snd out = last \/ snd out = content) /\
  fst (shouldFilter o content content) = matchesFilter o content || filterEnabled o /\
  (if filterEnabled o then True else out = (matchesFilter o content, last)).
Proof.
  cbn zeta. split; [apply shouldFilter_last|].
  unfold shouldFilter.
  destruct (matchesFilter o content); cbn [orb fst snd].
  { split; [reflexivity|]. now destruct (filterEnabled o). }
  destruct (filterEnabled o); cbn [fst snd]; [|auto].
  split; [|exact I].
  destruct (JS.length (remove space content) <? minLength o); [reflexivity|].
  now rewrite JsMapFacts.eqb_refl.
Qed.

(** X27. With the short-message filter enabled, content with fewer
    characters other than white space than the minimum length (5 unless
    configured) is dropped, whatever it says. *)
Theorem short_output_is_dropped o last content :
  filterEnabled o = true ->
  Z.of_nat (List.length (filter (fun c => negb (isSpace c)) content)) < minLength o ->
  shouldFilter o last content = (true, last).
Proof.
  intros Hen Hshort. unfold shouldFilter.
  destruct (matchesFilter o content); [reflexivity|]. rewrite Hen.
  unfold space. rewrite StripAnsiFacts.remove_class. unfold JS.length.
  now rewrite (proj2 (Z.ltb_lt _ _) Hshort).
Qed.

Lemma short_output_is_dropped_witness :
  shouldFilter defaults [] (js "Done") = (true, []).
Proof.
  apply short_output_is_dropped.
  - reflexivity.
  - vm_compute. reflexivity.
Defined.

Lemma emit_one o last b :
  fold_left (emitUnlessFiltered o) [b] ([], last)
    = match type b with
      | OutputType.NORMAL =>
        (if fst (shouldFilter o last (content b)) then [] else [b],
         snd (shouldFilter o last (content b)))
      | _ => ([b], last)
      end.
Proof.
  cbn [fold_left emitUnlessFiltered].
  destruct (type b); try reflexivity.
  destruct (shouldFilter o last (content b)) as [[|] last']; reflexivity.
Qed.

(** X28. [handleOutput] emits nothing but the unit that [parse] built
    from the chunk, and at most that one. A unit that is not NORMAL, a
    confirmation or an error, is always emitted and leaves
    [lastOutputContent] alone; [lastOutputContent] changes only to the
    content of a NORMAL unit that is emitted. *)
Theorem handleOutput_never_drops_confirm_or_error o last data now stamp :
  let units := OutputParser.parse data now stamp in
  let out := handleOutput o last data now stamp in
  (forall b, In b (fst out) -> In b units) /\
  (List.length (fst out) <= 1)%nat /\
  (forall b, In b units -> type b <> OutputType.NORMAL ->
             out = ([b], last)) /\
  (snd out = last \/
   exists b, fst out = [b] /\ type b = OutputType.NORMAL /\ snd out = content b).
Proof.
  unfold handleOutput.
  destruct (ParseShapeFacts.parse_cases data now stamp) as [-> | [b ->]].
  { cbn [fold_left fst snd List.length In]. repeat split; auto. intros b []. }
  cbn zeta. rewrite emit_one.
  pose proof (shouldFilter_last o last (content b)) as Hkeep.
  destruct (type b) eqn:Hty;
    try (cbn [fst snd List.length]; split; [auto|]; split; [lia|];
         split; [intros b' [<- | []] _; reflexivity | now left]).
  destruct (shouldFilter o last (content b)) as [[|] last']; cbn [fst snd] in *.
  - subst last'. split; [intros b' []|]. split; [cbn; lia|].
    split; [|now left].
    intros b' [<- | []] H. now contradiction H.
  - split; [auto|]. split; [cbn; lia|]. split.
    + intros b' [<- | []] H. now contradiction H.
    + destruct Hkeep as [-> | ->]; [now left|]. right. exists b. auto.
Qed.

(** X29. A confirmation travels the whole path. A CONFIRM unit that
    [parse] builds from a chunk is emitted by the adapter whatever the
    filter settings, and the session that receives it waits for a
    confirmation with the options and the id of that unit. *)
Theorem confirm_chunk_reaches_the_session o last data now stamp s t b :
  In b (OutputParser.parse data now stamp) ->
  type b = OutputType.CONFIRM ->
  fst (handleOutput o last data now stamp) = [b] /\
  let s' := fst (Session.handleOutput s b t) in
  Session.status s' = SessionStatus.WAITING_CONFIRM /\
  option_map Session.options (Session.pendingConfirm s') = confirmOptions b /\
  option_map Session.id (Session.pendingConfirm s') = confirmId b.
Proof.
  intros Hin Hty.
  destruct (ParseShapeFacts.parse_confirm_fields _ _ _ _ Hin Hty)
    as (opts & c & i & Hopts & Hid).
  split.
  - unfold handleOutput.
    destruct (ParseShapeFacts.parse_cases data now stamp) as [E | [b' E]];
      rewrite E in Hin |- *; [destruct Hin|].
    destruct Hin as [<- | []]. rewrite emit_one, Hty. reflexivity.
  - unfold Session.handleOutput. rewrite Hty, Hopts, Hid. cbn. auto.
Qed.

Lemma confirm_chunk_reaches_the_session_witness :
  let b := {| type := OutputType.CONFIRM;
              content := js "Overwrite? [Y/N]";
              timestamp := 7;
              requiresConfirm := Some true;
              confirmOptions := Some [js "Y"; js "N"];
              confirmId := Some (js "confirm_5") |} in
  fst (handleOutput defaults [] (js "Overwrite? [Y/N]") 5 7) = [b] /\
  Session.status (fst (Session.handleOutput SessionIOSpec.started b 9))
    = SessionStatus.WAITING_CONFIRM.
Proof.
  intros b.
  destruct (confirm_chunk_reaches_the_session
              defaults [] (js "Overwrite? [Y/N]") 5 7 SessionIOSpec.started 9 b)
    as (H1 & H2 & _).
  - vm_compute. left. reflexivity.
  - reflexivity.
  - split; [exact H1 | exact H2].
Defined.

End ClaudeOutputFacts.

(** ** The message history *)

Module MessageHistoryFacts.
Import MessageHistoryManager MessageHistorySpec.
Import JsMapFacts JsMapShapeFacts.

Lemma total_is_recordCount m :
  getTotalRecordCount m = recordCount (JsMap.values (histories m)).
Proof.
  unfold getTotalRecordCount.
  assert (H : forall l a,
             fold_left (fun total history =>
                          total + Z.of_nat (List.length (ChatHistory.records history)))
                       l a = a + recordCount l).
  { induction l as [|h l IH]; intros a; cbn [fold_left].
    - cbn. lia.
    - rewrite IH. unfold recordCount. cbn [fold_right]. lia. }
  rewrite H. lia.
Qed.

Lemma recordCount_cons h l : recordCount (h :: l) = len h + recordCount l.
Proof. reflexivity. Qed.

Lemma recordCount_nonneg l : 0 <= recordCount l.
Proof.
  induction l as [|h l IH]; [cbn; lia|].
  rewrite recordCount_cons. unfold len. lia.
Qed.

(** *** [slice] *)

Lemma slice_length {A} (a : list A) start :
  Z.of_nat (List.length (slice a start))
    = if start <? 0 then Z.min (- start) (Z.of_nat (List.length a))
      else Z.of_nat (List.length a) - Z.min start (Z.of_nat (List.length a)).
Proof.
  unfold slice. rewrite length_skipn. destruct (start <? 0) eqn:E.
  - apply Z.ltb_lt in E. lia.
  - apply Z.ltb_ge in E. lia.
Qed.

(** *** The map under [set] and [delete] *)

Lemma delete_absent (hs : JsMap.t ChatHistory.t) k :
  ~ In k (JsMap.keys hs) -> JsMap.delete hs k = hs.
Proof.
  unfold JsMap.delete, JsMap.keys.
  induction hs as [|[k0 h0] hs IH]; intros H; [reflexivity|].
  cbn [filter fst List.map In] in *.
  replace (JS.eqb k0 k) with false
    by (symmetry; apply eqb_neq; intros ->; apply H; now left).
  cbn [negb]. f_equal. apply IH. intros Hin. apply H. now right.
Qed.

Lemma recordCount_set hs k h' :
  recordCount (JsMap.values (JsMap.set hs k h'))
    = recordCount (JsMap.values hs) - lenAt hs k + len h'.
Proof.
  unfold lenAt, JsMap.values.
  induction hs as [|[k0 h0] hs IH]; cbn [JsMap.set JsMap.get List.map snd].
  - rewrite recordCount_cons. cbn. lia.
  - destruct (JS.eqb k0 k); cbn [List.map snd]; rewrite !recordCount_cons.
    + lia.
    + rewrite IH. lia.
Qed.

Lemma recordCount_delete hs k :
  NoDup (JsMap.keys hs) ->
  recordCount (JsMap.values (JsMap.delete hs k))
    = recordCount (JsMap.values hs) - lenAt hs k.
Proof.
  unfold lenAt. induction hs as [|[k0 h0] hs IH]; intros Hnd.
  - reflexivity.
  - cbn [JsMap.keys List.map fst] in Hnd. inversion Hnd as [|? ? Hfresh Hnd']; subst.
    cbn [JsMap.get]. unfold JsMap.delete. cbn [filter fst].
    destruct (JS.eqb k0 k) eqn:E; cbn [negb].
    + apply eqb_eq in E. subst k0.
      fold (JsMap.delete hs k). rewrite (delete_absent hs k Hfresh).
      unfold JsMap.values. cbn [List.map snd]. rewrite recordCount_cons. lia.
    + fold (JsMap.delete hs k).
      unfold JsMap.values in *. cbn [List.map snd]. rewrite !recordCount_cons.
      rewrite (IH Hnd'). lia.
Qed.

Lemma wellKeyed_set hs k h :
  wellKeyed hs -> ChatHistory.chatId h = k -> wellKeyed (JsMap.set hs k h).
Proof.
  intros [Hnd Hall] Hk. split; [now apply NoDup_keys_set|].
  clear Hnd. induction hs as [|[k0 h0] hs IH]; cbn [JsMap.set].
  - constructor; [exact Hk | constructor].
  - apply Forall_cons_iff in Hall. destruct Hall as [H0 Hrest].
    destruct (JS.eqb k0 k) eqn:E.
    + apply eqb_eq in E. rewrite E. constructor; assumption.
    + constructor; auto.
Qed.

Lemma wellKeyed_delete hs k : wellKeyed hs -> wellKeyed (JsMap.delete hs k).
Proof.
  intros [Hnd Hall]. split; [now apply NoDup_keys_delete | now apply Forall_delete].
Qed.

Lemma wellKeyed_get hs k h :
  wellKeyed hs -> JsMap.get hs k = Some h -> ChatHistory.chatId h = k.
Proof.
  intros [_ Hall] Hget. apply RegistryFacts.get_In in Hget.
  rewrite Forall_forall in Hall. exact (Hall _ Hget).
Qed.

Lemma withinCap_set cap hs k h :
  withinCap cap hs -> 1 <= len h <= cap -> withinCap cap (JsMap.set hs k h).
Proof.
  intros Hall Hh. unfold withinCap in *.
  induction hs as [|[k0 h0] hs IH]; cbn [JsMap.set].
  - constructor; [exact Hh | constructor].
  - apply Forall_cons_iff in Hall. destruct Hall as [H0 Hrest].
    destruct (JS.eqb k0 k); constructor; auto.
Qed.

Lemma withinCap_get cap hs k h :
  withinCap cap hs -> JsMap.get hs k = Some h -> 1 <= len h <= cap.
Proof.
  intros Hall Hget. apply RegistryFacts.get_In in Hget.
  unfold withinCap in Hall. rewrite Forall_forall in Hall. exact (Hall _ Hget).
Qed.

(** *** The sort *)

Lemma insertByTime_In h x l : In x (insertByTime h l) <-> x = h \/ In x l.
Proof.
  induction l as [|y l IH]; cbn [insertByTime In].
  - intuition.
  - destruct (ChatHistory.lastUpdated h <=? ChatHistory.lastUpdated y);
      cbn [In]; [intuition|]. rewrite IH. intuition.
Qed.

Lemma sortByTime_cons y l : sortByTime (y :: l) = insertByTime y (sortByTime l).
Proof. reflexivity. Qed.

Lemma sortByTime_In x l : In x (sortByTime l) <-> In x l.
Proof.
  induction l as [|y l IH]; [reflexivity|].
  rewrite sortByTime_cons, insertByTime_In, IH. cbn [In]. intuition.
Qed.

Lemma recordCount_insert h l :
  recordCount (insertByTime h l) = len h + recordCount l.
Proof.
  induction l as [|y l IH]; cbn [insertByTime].
  - reflexivity.
  - destruct (ChatHistory.lastUpdated h <=? ChatHistory.lastUpdated y);
      [reflexivity|].
    rewrite !recordCount_cons, IH. lia.
Qed.

Lemma recordCount_sort l : recordCount (sortByTime l) = recordCount l.
Proof.
  induction l as [|y l IH]; [reflexivity|].
  rewrite sortByTime_cons, recordCount_insert, IH. reflexivity.
Qed.

Lemma ids_insert h l k :
  In k (List.map ChatHistory.chatId (insertByTime h l))
  <-> k = ChatHistory.chatId h \/ In k (List.map ChatHistory.chatId l).
Proof.
  rewrite !in_map_iff. split.
  - intros (x & <- & Hx). apply (proj1 (insertByTime_In _ _ _)) in Hx.
    destruct Hx as [-> | Hx]; [now left | right; eauto].
  - intros [-> | (x & <- & Hx)].
    + exists h. split; [reflexivity|]. apply insertByTime_In. now left.
    + exists x. split; [reflexivity|]. apply insertByTime_In. now right.
Qed.

Lemma NoDup_insert h l :
  NoDup (List.map ChatHistory.chatId (h :: l)) ->
  NoDup (List.map ChatHistory.chatId (insertByTime h l)).
Proof.
  induction l as [|y l IH]; cbn [insertByTime]; [auto|].
  destruct (ChatHistory.lastUpdated h <=? ChatHistory.lastUpdated y); [auto|].
  cbn [List.map]. intros H.
  inversion H as [|? ? Hh H']; subst. inversion H' as [|? ? Hy Hl]; subst.
  constructor.
  - rewrite ids_insert. intros [E | Hin]; [|contradiction].
    apply Hh. left. now symmetry.
  - apply IH. cbn [List.map]. constructor; [|assumption].
    intros Hin. apply Hh. now right.
Qed.

Lemma NoDup_sort l :
  NoDup (List.map ChatHistory.chatId l) ->
  NoDup (List.map ChatHistory.chatId (sortByTime l)).
Proof.
  induction l as [|y l IH]; [auto|].
  rewrite sortByTime_cons. cbn [List.map]. intros H.
  inversion H as [|? ? Hy Hl]; subst.
  apply NoDup_insert. cbn [List.map]. constructor; [|auto].
  rewrite in_map_iff. intros (x & E & Hx).
  apply (proj1 (sortByTime_In _ _)) in Hx.
  apply Hy. rewrite in_map_iff. eauto.
Qed.

Lemma wellKeyed_values hs :
  wellKeyed hs ->
  NoDup (List.map ChatHistory.chatId (JsMap.values hs)) /\
  forall h, In h (JsMap.values hs) ->
            JsMap.get hs (ChatHistory.chatId h) = Some h.
Proof.
  intros [Hnd Hall]. rewrite Forall_forall in Hall. split.
  - unfold JsMap.values. rewrite map_map.
    replace (List.map (fun x => ChatHistory.chatId (snd x)) hs) with (JsMap.keys hs);
      [exact Hnd|].
    unfold JsMap.keys. apply map_ext_in. intros e He. symmetry. now apply Hall.
  - intros h Hin. unfold JsMap.values in Hin. apply in_map_iff in Hin.
    destruct Hin as ([k h'] & E & Hin). cbn [snd] in E. subst h'.
    pose proof (Hall _ Hin) as Hk. cbn [fst snd] in Hk. rewrite Hk.
    now apply RegistryFacts.NoDup_keys_get.
Qed.

(** *** The loop of [enforceTotalLimit] *)

Lemma trimOldest_spec sorted :
  forall toRemove hs,
    wellKeyed hs ->
    NoDup (List.map ChatHistory.chatId sorted) ->
    (forall h, In h sorted -> JsMap.get hs (ChatHistory.chatId h) = Some h) ->
    wellKeyed (trimOldest sorted toRemove hs) /\
    recordCount (JsMap.values (trimOldest sorted toRemove hs))
      = recordCount (JsMap.values hs)
        - Z.min (Z.max toRemove 0) (recordCount sorted) /\
    (forall cap, withinCap cap hs -> withinCap cap (trimOldest sorted toRemove hs)).
Proof.
  induction sorted as [|h rest IH]; intros toRemove hs Hwk Hnd Hget;
    cbn [trimOldest].
  - split; [exact Hwk|]. split; [cbn; lia | auto].
  - destruct (toRemove <=? 0) eqn:E.
    { apply Z.leb_le in E. split; [exact Hwk|]. split; [|auto].
      pose proof (recordCount_nonneg (h :: rest)). lia. }
    apply Z.leb_gt in E. cbn zeta.
    cbn [List.map] in Hnd. inversion Hnd as [|? ? Hfresh Hnd']; subst.
    pose proof (Hget h (or_introl eq_refl)) as Hh.
    set (removeCount := Z.min toRemove (Z.of_nat (List.length (ChatHistory.records h)))).
    set (records := slice (ChatHistory.records h) removeCount).
    assert (Hrc : removeCount = Z.min toRemove (len h)) by reflexivity.
    assert (Hlen : Z.of_nat (List.length records) = len h - removeCount).
    { subst records. rewrite slice_length. fold (len h).
      replace (removeCount <? 0) with false by (symmetry; apply Z.ltb_ge; lia).
      lia. }
    assert (Hnew : len (ChatHistory.mk (ChatHistory.chatId h) records
                                       (ChatHistory.lastUpdated h))
                   = len h - removeCount) by exact Hlen.
    clearbody removeCount records.
    set (hs' := if Z.of_nat (List.length records) =? 0
                then JsMap.delete hs (ChatHistory.chatId h)
                else JsMap.set hs (ChatHistory.chatId h)
                               (ChatHistory.mk (ChatHistory.chatId h) records
                                               (ChatHistory.lastUpdated h))).
    assert (Hat : lenAt hs (ChatHistory.chatId h) = len h)
      by (unfold lenAt; now rewrite Hh).
    assert (H1 : wellKeyed hs' /\
                 recordCount (JsMap.values hs')
                   = recordCount (JsMap.values hs) - removeCount /\
                 (forall cap, withinCap cap hs -> withinCap cap hs') /\
                 (forall k, k <> ChatHistory.chatId h ->
                            JsMap.get hs' k = JsMap.get hs k)).
    { subst hs'. destruct (Z.of_nat (List.length records) =? 0) eqn:E0.
      - apply Z.eqb_eq in E0. split; [now apply wellKeyed_delete|]. split.
        + rewrite (recordCount_delete _ _ (proj1 Hwk)), Hat.
          rewrite E0 in Hlen. lia.
        + split.
          * intros cap Hcap. now apply Forall_delete.
          * intros k Hk. apply get_delete_other. congruence.
      - apply Z.eqb_neq in E0. split; [now apply wellKeyed_set|]. split.
        + rewrite recordCount_set, Hat, Hnew. lia.
        + split.
          * intros cap Hcap. apply withinCap_set; [exact Hcap|].
            pose proof (withinCap_get _ _ _ _ Hcap Hh) as Hold.
            rewrite Hnew. lia.
          * intros k Hk. apply get_set_other. congruence. }
    destruct H1 as (Hwk' & Hcount & Hcap & Hother).
    assert (Hget' : forall h2, In h2 rest ->
                               JsMap.get hs' (ChatHistory.chatId h2) = Some h2).
    { intros h2 Hin. rewrite Hother; [apply Hget; now right|].
      intros Eq. apply Hfresh. rewrite <- Eq. now apply in_map. }
    destruct (IH (toRemove - removeCount) hs' Hwk' Hnd' Hget') as (G1 & G2 & G3).
    split; [exact G1|]. split; [|auto].
    rewrite G2, Hcount, recordCount_cons.
    pose proof (recordCount_nonneg rest). lia.
Qed.

Lemma enforceTotalLimit_spec m :
  wellKeyed (histories m) ->
  wellKeyed (histories (enforceTotalLimit m)) /\
  getTotalRecordCount (enforceTotalLimit m)
    = (if getTotalRecordCount m >? maxTotalRecords (config m)
       then Z.max 0 (maxTotalRecords (config m))
       else getTotalRecordCount m) /\
  config (enforceTotalLimit m) = config m /\
  (forall cap, withinCap cap (histories m) ->
               withinCap cap (histories (enforceTotalLimit m))).
Proof.
  intros Hwk. unfold enforceTotalLimit. cbn zeta.
  destruct (getTotalRecordCount m >? maxTotalRecords (config m)) eqn:E;
    [|auto].
  destruct (wellKeyed_values _ Hwk) as [Hnd Hget].
  destruct (trimOldest_spec
              (sortByTime (JsMap.values (histories m)))
              (getTotalRecordCount m - maxTotalRecords (config m))
              (histories m) Hwk (NoDup_sort _ Hnd)) as (G1 & G2 & G3).
  { intros h Hin. apply Hget. now apply sortByTime_In. }
  cbn [histories config]. split; [exact G1|]. split; [|auto].
  rewrite total_is_recordCount. cbn [histories]. rewrite G2, recordCount_sort.
  rewrite <- total_is_recordCount.
  apply Z.gtb_lt in E.
  pose proof (recordCount_nonneg (JsMap.values (histories m))) as Hpos.
  rewrite <- total_is_recordCount in Hpos. lia.
Qed.

Lemma addRecord_spec m chatId record now :
  wellKeyed (histories m) ->
  getTotalRecordCount m <= Z.max 0 (maxTotalRecords (config m)) ->
  wellKeyed (histories (addRecord m chatId record now)) /\
  getTotalRecordCount (addRecord m chatId record now)
    <= Z.max 0 (maxTotalRecords (config m)) /\
  config (addRecord m chatId record now) = config m /\
  (0 < maxRecordsPerChat (config m) ->
   withinCap (maxRecordsPerChat (config m)) (histories m) ->
   withinCap (maxRecordsPerChat (config m))
             (histories (addRecord m chatId record now))).
Proof.
  intros Hwk Htotal. unfold addRecord. cbn zeta.
  set (history := match JsMap.get (histories m) chatId with
                  | Some history => history
                  | None => ChatHistory.mk chatId [] now
                  end).
  set (records := if _ >? _ then _ else _).
  set (m1 := mk _ (config m) (recordIdCounter m)).
  assert (Hid : ChatHistory.chatId history = chatId).
  { subst history. destruct (JsMap.get (histories m) chatId) as [h|] eqn:E.
    - exact (wellKeyed_get _ _ _ Hwk E).
    - reflexivity. }
  assert (Hwk1 : wellKeyed (histories m1)).
  { subst m1. cbn [histories]. apply wellKeyed_set; [exact Hwk|].
    cbn [ChatHistory.chatId]. exact Hid. }
  destruct (enforceTotalLimit_spec m1 Hwk1) as (G1 & G2 & G3 & G4).
  split; [exact G1|]. split; [|split; [exact G3|]].
  - rewrite G2. change (config m1) with (config m).
    destruct (getTotalRecordCount m1 >? maxTotalRecords (config m)) eqn:E; [lia|].
    rewrite Z.gtb_ltb in E. apply Z.ltb_ge in E. lia.
  - intros Hcap Hin. apply G4. subst m1. cbn [histories].
    apply withinCap_set; [exact Hin|]. unfold len. cbn [ChatHistory.records].
    subst records.
    match goal with |- context [if ?c then _ else _] => destruct c eqn:E end.
    + rewrite slice_length.
      replace (- maxRecordsPerChat (config m) <? 0) with true
        by (symmetry; apply Z.ltb_lt; lia).
      rewrite length_app in *. cbn [List.length] in *. lia.
    + rewrite Z.gtb_ltb in E. apply Z.ltb_ge in E.
      rewrite length_app in *. cbn [List.length] in *. lia.
Qed.

(** *** The calls that change the manager *)

Lemma lenAt_nonneg hs k : 0 <= lenAt hs k.
Proof. unfold lenAt, len. destruct (JsMap.get hs k); lia. Qed.

Lemma added_keeps_bounded m counter chatId record now :
  bounded m ->
  let m' := addRecord (mk (histories m) (config m) counter) chatId record now in
  bounded m' /\ config m' = config m.
Proof.
  intros (Hwk & Htotal & Hcap). cbn zeta.
  destruct (addRecord_spec (mk (histories m) (config m) counter) chatId record now
                           Hwk Htotal) as (G1 & G2 & G3 & G4).
  cbn [config histories] in G2, G3, G4.
  split; [|exact G3]. unfold bounded. rewrite G3.
  split; [exact G1|]. split; [exact G2 | auto].
Qed.

Lemma step_keeps_bounded m o now :
  bounded m -> bounded (step m o now) /\ config (step m o now) = config m.
Proof.
  intros Hb. destruct o; cbn [step].
  - unfold recordUserMessage, generateRecordId. cbn [snd].
    now apply added_keeps_bounded.
  - unfold recordClaudeOutput, generateRecordId. cbn [snd].
    now apply added_keeps_bounded.
  - unfold recordSystemMessage, generateRecordId. cbn [snd].
    now apply added_keeps_bounded.
  - destruct Hb as (Hwk & Htotal & Hcap).
    unfold clearChatHistory. cbn [snd]. split; [|reflexivity].
    unfold bounded. cbn [histories config].
    split; [now apply wellKeyed_delete|]. split.
    + rewrite total_is_recordCount in *. cbn [histories].
      rewrite (recordCount_delete _ _ (proj1 Hwk)).
      pose proof (lenAt_nonneg (histories m) chatId). lia.
    + intros Hpos. apply Forall_delete. exact (Hcap Hpos).
  - split; [|reflexivity]. unfold clearAllHistory, bounded. cbn [histories config].
    split; [split; constructor|]. split; [cbn; lia | intros _; constructor].
Qed.

Lemma run_bounded perChat total calls :
  bounded (run perChat total calls) /\
  config (run perChat total calls) = config (new perChat total).
Proof.
  assert (H0 : bounded (new perChat total)).
  { unfold bounded, new. cbn [histories config].
    split; [split; constructor|]. split; [cbn; lia | intros _; constructor]. }
  assert (H : forall m,
             bounded m ->
             bounded (fold_left (fun m '(o, now) => step m o now) calls m) /\
             config (fold_left (fun m '(o, now) => step m o now) calls m)
               = config m).
  { induction calls as [|[o now] calls IH]; intros m Hb; [auto|].
    cbn [fold_left]. destruct (step_keeps_bounded m o now Hb) as [Hb' Hcfg].
    destruct (IH _ Hb') as [G1 G2]. split; [exact G1 | congruence]. }
  exact (H _ H0).
Qed.

(** X30. The message history stays within its limits. After any
    sequence of recorded messages and clearings, the number of records
    held is at most [maxTotalRecords] (or zero, when that is negative),
    the configuration is the one the manager was built with, and every
    chat is listed once. When [maxRecordsPerChat] is positive, as it is
    unless a negative value was configured, every listed chat holds at
    least one record and at most [maxRecordsPerChat]. *)
Theorem history_stays_within_its_limits perChat total calls :
  let m := run perChat total calls in
  getTotalRecordCount m <= Z.max 0 (maxTotalRecords (config m)) /\
  config m = {| maxRecordsPerChat := numOr perChat 500;
                maxTotalRecords := numOr total 5000 |} /\
  NoDup (getAllChatIds m) /\
  (if 0 <? maxRecordsPerChat (config m)
   then forall chatId,
       In chatId (getAllChatIds m) ->
       1 <= Z.of_nat (List.length (getChatHistory m chatId None))
         <= maxRecordsPerChat (config m)
   else True).
Proof.
  intros m. destruct (run_bounded perChat total calls) as [(Hwk & Htotal & Hcap) Hcfg].
  fold m in Hwk, Htotal, Hcap, Hcfg.
  split; [exact Htotal|]. split; [exact Hcfg|]. split; [exact (proj1 Hwk)|].
  destruct (0 <? maxRecordsPerChat (config m)) eqn:E; [|exact I].
  apply Z.ltb_lt in E. intros chatId Hin.
  unfold getAllChatIds in Hin. apply has_In_keys in Hin.
  unfold getChatHistory. unfold JsMap.has in Hin.
  destruct (JsMap.get (histories m) chatId) as [h|] eqn:Hget; [|discriminate].
  exact (withinCap_get _ _ _ _ (Hcap E) Hget).
Qed.

End MessageHistoryFacts.
